(** * WRKT data-preparation scripts: a shallow embedding and its properties

    The development follows the three Python scripts of the repository:

    - [tools/svg_indexer.py]: the SVG group indexer ([strip_ns], [parse_svg],
      [walk_svg_groups] with its inner [rec], [main]);
    - [make_media_json.py] and [xlsx_links_to_json.py]: the two [slugify]
      functions of the spreadsheet pipelines.

    Python [str] values are modelled as [string], read as the UTF-8 encoding of
    the text.  Every pattern the scripts search for or split on is ASCII, and
    UTF-8 is self-synchronising and order preserving, so prefix tests,
    splitting, replacement, substring search, equality and code-point ordering
    act on the bytes exactly as Python acts on the code points.  The two
    operations that need the Unicode tables ([str.lower] and
    [unicodedata.normalize]) are taken from an interface, [UnicodeData]. *)

From Stdlib Require Import Ascii String NArith.
From stdpp Require Import gmap strings list sorting.

Local Open Scope string_scope.

(** ** Python string primitives *)

Module PyStr.

Definition code (c : ascii) : N := N_of_ascii c.

Definition in_range (lo hi : N) (c : ascii) : bool :=
  ((lo <=? code c) && (code c <=? hi))%N.

Definition is_ascii_char (c : ascii) : bool := (code c <? 128)%N.

Fixpoint str_forallb (p : ascii -> bool) (s : string) : bool :=
  match s with
  | EmptyString => true
  | String c r => p c && str_forallb p r
  end.

Fixpoint str_filter (p : ascii -> bool) (s : string) : string :=
  match s with
  | EmptyString => EmptyString
  | String c r => if p c then String c (str_filter p r) else str_filter p r
  end.

Fixpoint str_map (f : ascii -> ascii) (s : string) : string :=
  match s with
  | EmptyString => EmptyString
  | String c r => String (f c) (str_map f r)
  end.

Definition is_ascii (s : string) : bool := str_forallb is_ascii_char s.

(** Truth value of a [str]: the empty string is falsy. *)
Definition truthy (s : string) : bool :=
  match s with EmptyString => false | String _ _ => true end.

(** Truth value of an optional [str] ([None] is falsy too). *)
Definition truthy_opt (o : option string) : bool :=
  match o with None => false | Some s => truthy s end.

(** [x or y] on optional strings. *)
Definition py_or (x y : option string) : option string :=
  if truthy_opt x then x else y.

(** [s.startswith(p)] *)
Definition startswith (p s : string) : bool := String.prefix p s.

(** [s.split(sep)] for a one-character separator: every occurrence of
    [sep] cuts, so adjacent separators give empty pieces. *)
Fixpoint split (sep : ascii) (s : string) : list string :=
  match s with
  | EmptyString => [EmptyString]
  | String c r =>
      if Ascii.eqb c sep then EmptyString :: split sep r
      else match split sep r with
           | [] => [String c EmptyString]
           | w :: ws => String c w :: ws
           end
  end.

(** [s.split(sep, 1)]: cut at the first occurrence of [sep] only. *)
Fixpoint split1 (sep : ascii) (s : string) : list string :=
  match s with
  | EmptyString => [EmptyString]
  | String c r =>
      if Ascii.eqb c sep then [EmptyString; r]
      else match split1 sep r with
           | [] => [String c EmptyString]
           | w :: ws => String c w :: ws
           end
  end.

(** [s.replace(a, b)] for one-character [a] and [b]. *)
Definition replace (a b : ascii) (s : string) : string :=
  str_map (fun c => if Ascii.eqb c a then b else c) s.

(** [needle in hay] *)
Fixpoint contains (needle hay : string) : bool :=
  String.prefix needle hay ||
  match hay with
  | EmptyString => false
  | String _ r => contains needle r
  end.

(** [os.path.basename] (POSIX): what follows the last slash. *)
Definition basename (p : string) : string :=
  List.last (split "/" p) EmptyString.

(** [s.lstrip(chars)], [s.rstrip(chars)] and [s.strip(chars)], the set of
    characters given as a predicate. *)
Fixpoint lstrip (p : ascii -> bool) (s : string) : string :=
  match s with
  | EmptyString => EmptyString
  | String c r => if p c then lstrip p r else s
  end.

Fixpoint rstrip (p : ascii -> bool) (s : string) : string :=
  match s with
  | EmptyString => EmptyString
  | String c r =>
      match rstrip p r with
      | EmptyString => if p c then EmptyString else String c EmptyString
      | r' => String c r'
      end
  end.

Definition strip (p : ascii -> bool) (s : string) : string :=
  rstrip p (lstrip p s).

(** The characters [str.strip()] removes, below U+0080:
    TAB, LF, VT, FF, CR, FS, GS, RS, US and SPACE. *)
Definition is_space (c : ascii) : bool :=
  in_range 9 13 c || in_range 28 32 c.

Definition is_upper (c : ascii) : bool := in_range 65 90 c.
Definition is_lower (c : ascii) : bool := in_range 97 122 c.
Definition is_digit (c : ascii) : bool := in_range 48 57 c.

(** [str.lower] on ASCII text. *)
Definition lower_char (c : ascii) : ascii :=
  if is_upper c then ascii_of_N (code c + 32) else c.

Definition ascii_lower (s : string) : string := str_map lower_char s.

(** [s.encode("ascii", "ignore").decode("ascii")]: every code point above
    U+007F is dropped; in UTF-8 those are exactly the bytes above 127. *)
Definition encode_ascii_ignore (s : string) : string :=
  str_filter is_ascii_char s.

(** [re.sub(cls+, rep, s)] for a character class [cls]: every maximal
    non-empty run of class characters is replaced by [rep].  [in_run] tells
    that the previous character already belonged to the current match. *)
Fixpoint re_sub_plus (cls : ascii -> bool) (rep : string) (in_run : bool)
         (s : string) : string :=
  match s with
  | EmptyString => EmptyString
  | String c r =>
      if cls c then
        if in_run then re_sub_plus cls rep true r
        else rep ++ re_sub_plus cls rep true r
      else String c (re_sub_plus cls rep false r)
  end.

(** [re.sub(c{2,}, rep, s)] for a single character [c]: a run of two or
    more [c] is replaced by [rep]; a lone [c] does not match and stays. *)
Fixpoint re_sub_two_or_more (c : ascii) (rep : string) (s : string) : string :=
  match s with
  | EmptyString => EmptyString
  | String a r =>
      if Ascii.eqb a c then
        match r with
        | String b r' =>
            if Ascii.eqb b c then rep ++ skip_run c rep r'
            else String a (re_sub_two_or_more c rep r)
        | EmptyString => String a EmptyString
        end
      else String a (re_sub_two_or_more c rep r)
  end
with skip_run (c : ascii) (rep : string) (s : string) : string :=
  match s with
  | EmptyString => EmptyString
  | String a r =>
      if Ascii.eqb a c then skip_run c rep r
      else String a (re_sub_two_or_more c rep r)
  end.

(** No two adjacent occurrences of [c] in [s]. *)
Fixpoint no_double (c : ascii) (s : string) : bool :=
  match s with
  | EmptyString => true
  | String a r =>
      negb (Ascii.eqb a c && startswith (String c "") r) && no_double c r
  end.

End PyStr.

(** ** The Unicode tables, as an interface

  [nfkd] is [unicodedata.normalize("NFKD", _)] and [str_lower] is
  [str.lower].  The one fact used about them is that [str.lower] on pure
  ASCII text is the ASCII lower-casing. *)

Class UnicodeData := {
nfkd : string -> string;
str_lower : string -> string;
str_lower_ascii :
  forall s, PyStr.is_ascii s = true -> str_lower s = PyStr.ascii_lower s
}.

(** An instance of the interface on ASCII-only text, where normalisation has
    nothing to decompose. *)
#[export] Instance ascii_unicode : UnicodeData :=
  {| nfkd := fun s => s;
     str_lower := PyStr.ascii_lower;
     str_lower_ascii := fun _ _ => eq_refl |}.

(** ** [make_media_json.py] *)

Module MakeMediaJson.
Import PyStr.

(** The class [[^a-z0-9]]. *)
Definition not_a_z0_9 (c : ascii) : bool := negb (is_lower c || is_digit c).

Definition slugify `{UnicodeData} (s : string) : string :=
  let s := encode_ascii_ignore (nfkd s) in
  let s := str_lower s in
  let s := strip (Ascii.eqb "-") (re_sub_plus not_a_z0_9 "-" false s) in
  s.

End MakeMediaJson.

(** ** [xlsx_links_to_json.py] *)

Module XlsxLinksToJson.
Import PyStr.

(** The class [[^A-Za-z0-9]]. *)
Definition not_A_Za_z0_9 (c : ascii) : bool :=
  negb (is_upper c || is_lower c || is_digit c).

Definition slugify `{UnicodeData} (s : string) : string :=
  let s := encode_ascii_ignore (nfkd s) in
  let s := re_sub_plus not_A_Za_z0_9 "-" false (str_lower (strip is_space s)) in
  strip (Ascii.eqb "-") (re_sub_two_or_more "-" "-" s).

End XlsxLinksToJson.

(** ** [tools/svg_indexer.py] *)

Module SvgIndexer.
Import PyStr.

(** Exceptions the script can end with. [sys.exit(n)] raises [SystemExit n]. *)
Inductive exception :=
| IndexError
| RecursionError
| SystemExit (status : nat)
| OSError (msg : string).

Inductive result (A : Type) :=
| Ok (a : A)
| Raise (e : exception).
Arguments Ok {A} a.
Arguments Raise {A} e.

Definition FRONT_SVG : string := "/Users/dimitarmihaylov/dev/WRKT/torso.svg".
Definition BACK_SVG : string := "/Users/dimitarmihaylov/dev/WRKT/torso_back.svg".
Definition OUTPUT_JSON : string := "/Users/dimitarmihaylov/dev/WRKT/muscles_index.json".

Definition NSBRACE_START : string := "{".

(** [strip_ns]: [tag.split("}", 1)[1]] raises [IndexError] when the split
    has a single piece. *)
Definition strip_ns (tag : string) : result string :=
  if startswith NSBRACE_START tag then
    match split1 "}" tag !! 1%nat with
    | Some local => Ok local
    | None => Raise IndexError
    end
  else Ok tag.

#[local] Unset Elimination Schemes.
(** An [ET.Element]: tag, attribute dictionary, children in document order. *)
Inductive Element :=
| mkElement (tag : string) (attrib : gmap string string) (children : list Element).
#[local] Set Elimination Schemes.

(** The [info] dictionary recorded for one group. *)
Record GroupElement := mkInfo {
  info_id : option string;
  info_classes : list string;
  info_tag : string;
  info_parentId : option string;
  info_side : string
}.

Record Counts := mkCounts {
  total : nat;
  groups : nat;
  with_id : nat;
  with_class : nat
}.

(** The four accumulators [rec] closes over. *)
Record WalkState := mkWalkState {
  elements : list GroupElement;
  byId : gmap string GroupElement;
  class_to_ids : gmap string (gset string);
  counts : Counts
}.

Definition LF : ascii := ascii_of_N 10.

(** [cls_raw = el.attrib.get("class", "") or ""] *)
Definition cls_raw_of (attrib : gmap string string) : string :=
  let v := default "" (attrib !! "class") in
  if truthy v then v else "".

(** [[c for c in cls_raw.replace("\n", " ").split(" ") if c]] *)
Definition split_classes (cls_raw : string) : list string :=
  List.filter truthy (split " " (replace LF " " cls_raw)).

(** [for c in classes: class_to_ids[c].add(el_id)] on a [defaultdict(set)] *)
Definition add_class_ids (el_id : string) (classes : list string)
    (m : gmap string (gset string)) : gmap string (gset string) :=
  foldl (fun m c => <[c := default ∅ (m !! c) ∪ {[el_id]}]> m) m classes.

(** The body of [if tag == "g":] (lines 75 to 92). *)
Definition record_group (side_label : string) (el_id : option string)
    (classes : list string) (tag : string) (parent_id : option string)
    (st : WalkState) : WalkState :=
  let info := mkInfo el_id classes tag parent_id side_label in
  let els := (elements st ++ [info])%list in
  let c := counts st in
  let c := mkCounts (total c + 1) (groups c + 1) (with_id c) (with_class c) in
  let '(c, by_id) :=
    match el_id with
    | Some i =>
        if truthy i
        then (mkCounts (total c) (groups c) (with_id c + 1) (with_class c),
              <[i := info]> (byId st))
        else (c, byId st)
    | None => (c, byId st)
    end in
  let '(c, cti) :=
    match classes with
    | [] => (c, class_to_ids st)
    | _ :: _ =>
        (mkCounts (total c) (groups c) (with_id c) (with_class c + 1),
         match el_id with
         | Some i =>
             if truthy i then add_class_ids i classes (class_to_ids st)
             else class_to_ids st
         | None => class_to_ids st
         end)
    end in
  mkWalkState els by_id cti c.

(** The inner function [rec] of [walk_svg_groups], on a call stack as deep
    as the document needs; [rec_limited] below is [rec] under the recursion
    limit of the interpreter. *)
Fixpoint rec (side_label : string) (el : Element) (parent_id : option string)
    (st : WalkState) {struct el} : result WalkState :=
  match el with
  | mkElement qtag attrib children =>
      match strip_ns qtag with
      | Raise e => Raise e
      | Ok tag =>
          let el_id := attrib !! "id" in
          let cls_raw := cls_raw_of attrib in
          let classes := split_classes cls_raw in
          let st :=
            if String.eqb tag "g"
            then record_group side_label el_id classes tag parent_id st
            else st in
          (fix each_child (cs : list Element) (st : WalkState) {struct cs}
             : result WalkState :=
             match cs with
             | [] => Ok st
             | child :: cs' =>
                 match rec side_label child (py_or el_id parent_id) st with
                 | Raise e => Raise e
                 | Ok st' => each_child cs' st'
                 end
             end) children st
      end
  end.

(** The loop [for child in list(el): rec(child, p)] on its own. *)
Fixpoint rec_children (side_label : string) (cs : list Element)
    (p : option string) (st : WalkState) : result WalkState :=
  match cs with
  | [] => Ok st
  | child :: cs' =>
      match rec side_label child p st with
      | Raise e => Raise e
      | Ok st' => rec_children side_label cs' p st'
      end
  end.

(** [rec] as the interpreter runs it.  [rec] above follows the document as
    deep as it is nested; the interpreter does not: every call of [rec]
    needs room on the call stack, for itself and for the calls it makes
    ([strip_ns] first), and where the recursion limit leaves none the call
    raises [RecursionError].  [room] is the number of calls of [rec], one
    inside the other, that still fit; a child is visited with one less. *)
Fixpoint rec_limited (room : nat) (side_label : string) (el : Element)
    (parent_id : option string) (st : WalkState) {struct el}
    : result WalkState :=
  match room with
  | 0 => Raise RecursionError
  | S room' =>
      match el with
      | mkElement qtag attrib children =>
          match strip_ns qtag with
          | Raise e => Raise e
          | Ok tag =>
              let el_id := attrib !! "id" in
              let cls_raw := cls_raw_of attrib in
              let classes := split_classes cls_raw in
              let st :=
                if String.eqb tag "g"
                then record_group side_label el_id classes tag parent_id st
                else st in
              (fix each_child (cs : list Element) (st : WalkState) {struct cs}
                 : result WalkState :=
                 match cs with
                 | [] => Ok st
                 | child :: cs' =>
                     match rec_limited room' side_label child
                             (py_or el_id parent_id) st with
                     | Raise e => Raise e
                     | Ok st' => each_child cs' st'
                     end
                 end) children st
          end
      end
  end.

(** The loop over the children, each visited with [room] calls left. *)
Fixpoint rec_children_limited (room : nat) (side_label : string)
    (cs : list Element) (p : option string) (st : WalkState)
    : result WalkState :=
  match cs with
  | [] => Ok st
  | child :: cs' =>
      match rec_limited room side_label child p st with
      | Raise e => Raise e
      | Ok st' => rec_children_limited room side_label cs' p st'
      end
  end.

(** How deep a document is nested: 1 for a node without children. *)
Fixpoint height (el : Element) : nat :=
  match el with
  | mkElement _ _ children => S (list_max (List.map height children))
  end.

(** Code-point order on [str], as used by [sorted]. *)
Definition str_le (a b : string) : Prop := String.leb a b = true.

#[export] Instance str_le_dec a b : Decision (str_le a b).
Proof. unfold str_le. apply _. Defined.

Definition key_le (a b : string * gset string) : Prop := str_le a.1 b.1.

#[export] Instance key_le_dec a b : Decision (key_le a b).
Proof. unfold key_le. apply _. Defined.

(** [{k: sorted(v) for k, v in sorted(class_to_ids.items(), key=lambda kv: kv[0])}];
    the resulting dictionary keeps the insertion order, so it is a list. *)
Definition class_to_ids_json (m : gmap string (gset string))
    : list (string * list string) :=
  List.map (fun kv => (kv.1, merge_sort str_le ((base.elements kv.2))))
           (merge_sort key_le (map_to_list m)).

(** The dictionary [walk_svg_groups] returns. *)
Record DocumentIndex := mkIndex {
  idx_elements : list GroupElement;
  idx_byId : gmap string GroupElement;
  idx_classToIds : list (string * list string);
  idx_counts : Counts
}.

Definition empty_state : WalkState :=
  mkWalkState [] ∅ ∅ (mkCounts 0 0 0 0).

Definition walk_svg_groups (root : Element) (side_label : string)
    : result DocumentIndex :=
  match rec side_label root None empty_state with
  | Raise e => Raise e
  | Ok st =>
      Ok (mkIndex (elements st) (byId st)
                  (class_to_ids_json (class_to_ids st)) (counts st))
  end.

(** [walk_svg_groups] as the interpreter runs it, with room for [room]
    nested calls of [rec]. *)
Definition walk_svg_groups_limited (room : nat) (root : Element)
    (side_label : string) : result DocumentIndex :=
  match rec_limited room side_label root None empty_state with
  | Raise e => Raise e
  | Ok st =>
      Ok (mkIndex (elements st) (byId st)
                  (class_to_ids_json (class_to_ids st)) (counts st))
  end.

(** *** The file system and the process

    What the script reads from its environment is an oracle: whether a path
    exists, whether the file there can be opened and read (if not, the text
    of the exception), what the file holds, whether the output path can be
    written, and how many nested calls of [rec] the recursion limit leaves
    room for inside [walk_svg_groups] (the other calls of the script nest
    to a fixed depth and are taken to fit).  What the script leaves behind
    is the process state: both streams and the files written. *)

(** What a file holds, as the XML parser sees it: a well-formed document,
    given by its tree, or text that is not well-formed XML, given by the
    text of the [ParseError] it earns. *)
Inductive Content :=
| WellFormed (root : Element)
| NotWellFormed (error : string).

Record World := mkWorld {
  fs_exists : string -> bool;
  fs_unreadable : string -> option string;
  fs_content : string -> Content;
  fs_writable : string -> bool;
  recursion_room : nat
}.

(** [ET.parse(path)]: it opens and reads the file, then parses what it
    holds; the result is the tree, or the text of the exception raised. *)
Definition et_parse (w : World) (path : string) : string + Element :=
  match fs_unreadable w path with
  | Some e => inl e
  | None =>
      match fs_content w path with
      | WellFormed root => inr root
      | NotWellFormed e => inl e
      end
  end.

(** [{"front": idx_front, "back": idx_back}] *)
Record CombinedIndex := mkCombined {
  front : DocumentIndex;
  back : DocumentIndex
}.

(** Lines of the summary on standard output; the two preview lines are kept
    without their text. *)
Inductive printed :=
| PWrote (path : string)
| PCounts (side : string) (c : Counts)
| PPreview.

Record Process := mkProcess {
  stderr : list string;
  stdout : list printed;
  files : gmap string CombinedIndex
}.

Definition IO (A : Type) : Type := Process -> result A * Process.

Definition raise {A} (e : exception) : IO A := fun p => (Raise e, p).
Definition lift {A} (r : result A) : IO A := fun p => (r, p).

#[export] Instance IO_ret : MRet IO := fun A a p => (Ok a, p).
#[export] Instance IO_bind : MBind IO := fun A B k m p =>
  match m p with
  | (Ok a, p') => k a p'
  | (Raise e, p') => (Raise e, p')
  end.

Definition print_err (line : string) : IO unit :=
  fun p => (Ok tt, mkProcess (stderr p ++ [line]) (stdout p) (files p)).
Definition print_out (line : printed) : IO unit :=
  fun p => (Ok tt, mkProcess (stderr p) (stdout p ++ [line]) (files p)).

(** [sys.exit(n)] *)
Definition sys_exit {A} (n : nat) : IO A := raise (SystemExit n).

(** [os.makedirs], [open(path, "w")] and [json.dump] as one step. *)
Definition write_json (w : World) (path : string) (out : CombinedIndex)
    : IO unit :=
  fun p =>
    if fs_writable w path
    then (Ok tt, mkProcess (stderr p) (stdout p) (<[path := out]> (files p)))
    else (Raise (OSError path), p).

Definition parse_svg `{UnicodeData} (w : World) (path : string)
    (side_hint : option string) : IO (Element * string) :=
  if negb (fs_exists w path) then
    print_err ("ERROR: file not found → " ++ path);;
    sys_exit 2
  else
    match et_parse w path with
    | inl e =>
        print_err ("ERROR: failed to parse " ++ path ++ ": " ++ e);;
        sys_exit 2
    | inr root =>
        let name := str_lower (basename path) in
        let side :=
          if truthy_opt side_hint then default "" side_hint
          else if contains "back" name || contains "posterior" name then "back"
          else "front" in
        mret (root, side)
    end.

Definition main `{UnicodeData} (w : World) : IO unit :=
  rf ← parse_svg w FRONT_SVG None;
  rb ← parse_svg w BACK_SVG None;
  idx_front ← lift (walk_svg_groups_limited (recursion_room w) rf.1 rf.2);
  idx_back ← lift (walk_svg_groups_limited (recursion_room w) rb.1 rb.2);
  let out := mkCombined idx_front idx_back in
  write_json w OUTPUT_JSON out;;
  print_out (PWrote OUTPUT_JSON);;
  print_out (PCounts "front" (idx_counts idx_front));;
  print_out (PCounts "back" (idx_counts idx_back));;
  print_out PPreview;;
  print_out PPreview.


Definition fresh : Process := mkProcess [] [] ∅.

(** Documents on which [strip_ns] raises nowhere. *)
Definition tag_ok (qtag : string) : bool :=
  match strip_ns qtag with Ok _ => true | Raise _ => false end.

Fixpoint tags_ok (el : Element) : bool :=
  match el with
  | mkElement qtag _ children => tag_ok qtag && forallb tags_ok children
  end.

(** One step of the fold over recorded elements: what [rec] does to the
    accumulators when it records [info]. *)
Definition push (st : WalkState) (info : GroupElement) : WalkState :=
  record_group (info_side info) (info_id info) (info_classes info)
               (info_tag info) (info_parentId info) st.

Definition has_id (e : GroupElement) : bool := truthy_opt (info_id e).
Definition has_class (e : GroupElement) : bool :=
  match info_classes e with [] => false | _ :: _ => true end.

(** Membership in the reverse index, and the fact that [defaultdict(set)]
    only ever holds sets something was added to. *)
Definition indexed (m : gmap string (gset string)) (c i : string) : Prop :=
  exists ids, m !! c = Some ids /\ i ∈ ids.

Definition inhabited_values (m : gmap string (gset string)) : Prop :=
  forall c ids, m !! c = Some ids -> exists i, i ∈ ids.



(** Sample inputs. *)
Definition TAB : ascii := ascii_of_N 9.

(** The attribute value [a<TAB>b], written [class="a&#9;b"] in a document. *)
Definition tabbed_class : string := String "a" (String TAB "b").

(** A file system where every path exists, can be read, holds the document
    [doc] and can be written, with room for 900 nested calls. *)
Definition world_with (doc : Element) : World :=
  mkWorld (fun _ => true) (fun _ => None) (fun _ => WellFormed doc)
          (fun _ => true) 900.



(** Sample documents. *)
Definition SVG_G : string := "{http://www.w3.org/2000/svg}g".
Definition SVG_SVG : string := "{http://www.w3.org/2000/svg}svg".

(** [<g id="A"><g><g id="C"/></g></g>], the group tag being [g]. *)
Definition nested_example (g : string) : Element :=
  mkElement g {[ "id" := "A" ]}
    [ mkElement g ∅ [ mkElement g {[ "id" := "C" ]} [] ] ].

(** [<svg id="S"><g id="x" class="a b"/><g class="c"/><g id="x" class="b"/>
    <g id="" class="d"><g id="y"/></g></svg>] *)
Definition sample_document : Element :=
  mkElement SVG_SVG {[ "id" := "S" ]}
    [ mkElement SVG_G {[ "id" := "x"; "class" := "a b" ]} [];
      mkElement SVG_G {[ "class" := "c" ]} [];
      mkElement SVG_G {[ "id" := "x"; "class" := "b" ]} [];
      mkElement SVG_G {[ "id" := ""; "class" := "d" ]}
        [ mkElement SVG_G {[ "id" := "y" ]} [] ] ].

End SvgIndexer.

(** ** The specification's wording

    Second definitions, written after the text of the specification, to be
    compared with the code above. *)

Module Spec.
Import PyStr SvgIndexer.


(** "If the tag is wrapped in a namespace-URI brace prefix, return only the
    local part after the closing brace; otherwise return unchanged." *)
Definition stripNamespace (qualifiedTag : string) : string :=
  if startswith "{" qualifiedTag then
    match split1 "}" qualifiedTag with
    | [_; localTag] => localTag
    | _ => qualifiedTag
    end
  else qualifiedTag.

(** "childParentIdentity = currentNode.id if currentNode.id else
    inheritedParentIdentity" *)
Definition childParentIdentity (id inherited : option string) : option string :=
  match id with
  | Some i => if String.eqb i "" then inherited else Some i
  | None => inherited
  end.

(** The recorded elements in document pre-order: a group node is recorded
    with the inherited parent identity, and every node, group or not, hands
    [childParentIdentity] to its children. *)
Fixpoint walk (side : string) (inherited : option string) (node : Element)
    : list GroupElement :=
  match node with
  | mkElement qtag attrib children =>
      let id := attrib !! "id" in
      (if String.eqb (stripNamespace qtag) "g"
       then [mkInfo id (split_classes (cls_raw_of attrib)) "g" inherited side]
       else [])
      ++ flat_map (walk side (childParentIdentity id inherited)) children
  end.

(** Splitting on a set of separator characters, empty tokens dropped, source
    order kept: the tokens are the maximal separator-free pieces. *)
Fixpoint tokens (sep : ascii -> bool) (s : string) : list string :=
  match s with
  | EmptyString => []
  | String c r =>
      if sep c then tokens sep r
      else match r with
           | EmptyString => [String c ""]
           | String d _ =>
               if sep d then String c "" :: tokens sep r
               else match tokens sep r with
                    | w :: ws => String c w :: ws
                    | [] => [String c ""]
                    end
           end
  end.

(** "split on whitespace (including newlines)" *)
Definition split_whitespace (s : string) : list string := tokens is_space s.

(** What the class splitting of the code cuts at: SPACE and LF. *)
Definition is_space_or_newline (c : ascii) : bool :=
  Ascii.eqb c " " || Ascii.eqb c LF.

End Spec.

(** ** Documents as trees *)

Module Tree.
Import PyStr SvgIndexer.

(** [el.attrib.get("id")] *)
Definition id_of (el : Element) : option string :=
  match el with mkElement _ attrib _ => attrib !! "id" end.

Definition tag_of (el : Element) : string :=
  match el with mkElement qtag _ _ => qtag end.

(** [el.iter()]: the node and all its descendants, in document order. *)
Fixpoint iter (el : Element) : list Element :=
  match el with
  | mkElement _ _ children => el :: flat_map iter children
  end.

(** The nodes [rec] records: those whose local tag is [g]. *)
Definition is_group (el : Element) : bool :=
  match strip_ns (tag_of el) with
  | Ok tag => String.eqb tag "g"
  | Raise _ => false
  end.

(** What the walker reads off a node for its record. *)
Definition id_and_classes (el : Element) : option string * list string :=
  match el with
  | mkElement _ attrib _ =>
      (attrib !! "id", split_classes (cls_raw_of attrib))
  end.

(** The id of the innermost node of [ancestors] (listed from the root down)
    that has a non-empty id. *)
Fixpoint nearest_id (ancestors : list Element) : option string :=
  match ancestors with
  | [] => None
  | a :: inner =>
      match nearest_id inner with
      | Some i => Some i
      | None => if truthy_opt (id_of a) then id_of a else None
      end
  end.

(** The groups below [node], in document order, each with the id of its
    nearest identified ancestor as parent. *)
Fixpoint groups_under (side : string) (ancestors : list Element)
    (node : Element) : list GroupElement :=
  match node with
  | mkElement qtag attrib children =>
      (if is_group (mkElement qtag attrib children)
       then [mkInfo (attrib !! "id") (split_classes (cls_raw_of attrib)) "g"
                    (nearest_id ancestors) side]
       else [])
      ++ flat_map
           (groups_under side (ancestors ++ [mkElement qtag attrib children]))
           children
  end.

(** The element [e] under another side label. *)
Definition with_side (side : string) (e : GroupElement) : GroupElement :=
  mkInfo (info_id e) (info_classes e) (info_tag e) (info_parentId e) side.

(** The index of a document without groups. *)
Definition empty_index : DocumentIndex :=
  mkIndex [] ∅ [] (mkCounts 0 0 0 0).

(** A node on whose tag [strip_ns] raises: the tag starts with an opening
    brace and has no closing one. *)
Definition unclosed_brace (n : Element) : Prop :=
  startswith "{" (tag_of n) = true /\ contains "}" (tag_of n) = false.

(** [n + 1] groups, one inside the other. *)
Fixpoint nested_groups (n : nat) : Element :=
  match n with
  | 0 => mkElement SVG_G ∅ []
  | S k => mkElement SVG_G ∅ [nested_groups k]
  end.

End Tree.

(** ** The shape of a slug *)

Module Slug.
Import PyStr.

(** [a-z], [0-9] and the dash. *)
Definition is_slug_char (c : ascii) : bool :=
  is_lower c || is_digit c || Ascii.eqb c "-".

(** [A-Z], [a-z] and [0-9]. *)
Definition is_alnum (c : ascii) : bool :=
  is_upper c || is_lower c || is_digit c.

(** [s.endswith(c)] for a single character. *)
Fixpoint ends_with_char (c : ascii) (s : string) : bool :=
  match s with
  | EmptyString => false
  | String a EmptyString => Ascii.eqb a c
  | String _ r => ends_with_char c r
  end.

(** A word: not empty, made of [a-z0-9]. *)
Definition is_word (w : string) : Prop :=
  w <> ""
  /\ str_forallb (fun c => negb (MakeMediaJson.not_a_z0_9 c)) w = true.

(** The text both [slugify] functions work on: NFKD, non-ASCII dropped. *)
Definition ascii_text `{UnicodeData} (s : string) : string :=
  encode_ascii_ignore (nfkd s).

End Slug.

(** ** [make_media_json.py]: video ids and the media map *)

Module MediaJson.
Import PyStr.

(** The class [[A-Za-z0-9_-]]. *)
Definition is_id_char (c : ascii) : bool :=
  is_upper c || is_lower c || is_digit c || Ascii.eqb c "_" || Ascii.eqb c "-".

Fixpoint take_while (p : ascii -> bool) (s : string) : string :=
  match s with
  | EmptyString => EmptyString
  | String c r => if p c then String c (take_while p r) else EmptyString
  end.

(** The first character of [s] exists and is in the class [p]. *)
Definition head_in (p : ascii -> bool) (s : string) : bool :=
  match s with
  | EmptyString => false
  | String c _ => p c
  end.

(** The group [([A-Za-z0-9_-]{6,})] matched at the start of [s]: the
    quantifier is greedy and ends the pattern, so the group is the whole run
    of id characters, and there is no match when the run has fewer than six. *)
Definition match_id (s : string) : option string :=
  let run := take_while is_id_char s in
  if (6 <=? String.length run)%nat then Some run else None.

(** A literal matched at the start of [s]: what follows it. *)
Fixpoint strip_prefix (lit s : string) : option string :=
  match lit with
  | EmptyString => Some s
  | String a lit' =>
      match s with
      | String b s' => if Ascii.eqb a b then strip_prefix lit' s' else None
      | EmptyString => None
      end
  end.

(** The literal [lit] and then the group. *)
Definition after (lit s : string) : option string :=
  match strip_prefix lit s with
  | Some r => match_id r
  | None => None
  end.

(** [[?&]v=([A-Za-z0-9_-]{6,})] matched at the start of [s]. *)
Definition match_v_param (s : string) : option string :=
  match s with
  | String c r =>
      if Ascii.eqb c "?" || Ascii.eqb c "&" then after "v=" r else None
  | EmptyString => None
  end.

(** [(?:youtu\.be/|youtube\.com/(?:embed/|shorts/))([A-Za-z0-9_-]{6,})]
    matched at the start of [s]: the alternatives are tried in order. *)
Definition match_path (s : string) : option string :=
  match after "youtu.be/" s with
  | Some v => Some v
  | None =>
      match strip_prefix "youtube.com/" s with
      | Some r =>
          match after "embed/" r with
          | Some v => Some v
          | None => after "shorts/" r
          end
      | None => None
      end
  end.

(** [re.search(pattern, s).group(1)]: the match at the leftmost position
    where the pattern matches. *)
Fixpoint re_search (m : string -> option string) (s : string) : option string :=
  match m s with
  | Some v => Some v
  | None =>
      match s with
      | EmptyString => None
      | String _ r => re_search m r
      end
  end.

(** [re.fullmatch(r"[A-Za-z0-9_-]{6,}", s)] *)
Definition fullmatch_id (s : string) : bool :=
  str_forallb is_id_char s && (6 <=? String.length s)%nat.

Definition youtube_id (url : string) : option string :=
  if negb (truthy url) then None
  else
    match re_search match_v_param url with
    | Some v => Some v
    | None =>
        match re_search match_path url with
        | Some v => Some v
        | None => if fullmatch_id url then Some url else None
        end
    end.

(** *** The rows of the CSV file

    [csv.DictReader] is taken as it delivers: the field names ([None] for a
    file without a header line) and one dictionary per data row, a missing
    field being [None].  [str.strip()] on arbitrary text needs the Unicode
    tables and is a parameter, [str_strip]. *)

Definition EXERCISE_COL : string := "Exercise".
Definition YOUTUBE_COL : string := "YouTube".

(** The value [{"youtubeShort": vid}]. *)
Record MediaEntry := mkEntry { youtubeShort : string }.

(** Lines printed on standard output. *)
Inductive line :=
| MissingColumns (found : list string)
| CouldNotParse (url name : string)
| WroteEntries (out_path : string) (entries : nat).

(** What becomes of one row. *)
Inductive row_fate :=
| Skipped
| Warned (url name : string)
| Stored (key vid : string).

(** How [main] ends: an uncaught [TypeError], [sys.exit(status)], or the
    map written to [out_path]. *)
Inductive outcome :=
| TypeError (printed : list line)
| Exit (status : nat) (printed : list line)
| Written (out_path : string) (media_map : gmap string MediaEntry)
          (printed : list line).

(** [(row.get(col) or "").strip()] *)
Definition field (str_strip : string -> string) (row : gmap string string)
    (col : string) : string :=
  let v := default "" (row !! col) in
  str_strip (if truthy v then v else "").

(** The body of [for row in rd:], up to the assignment. *)
Definition row_fate_of `{UnicodeData} (str_strip : string -> string)
    (row : gmap string string) : row_fate :=
  let name := field str_strip row EXERCISE_COL in
  let url := field str_strip row YOUTUBE_COL in
  if negb (truthy name) || negb (truthy url) then Skipped
  else
    match youtube_id url with
    | Some vid =>
        if truthy vid then Stored (MakeMediaJson.slugify name) vid
        else Warned url name
    | None => Warned url name
    end.

Definition row_step `{UnicodeData} (str_strip : string -> string)
    (st : gmap string MediaEntry * list line) (row : gmap string string)
    : gmap string MediaEntry * list line :=
  match row_fate_of str_strip row with
  | Skipped => st
  | Warned url name => (st.1, (st.2 ++ [CouldNotParse url name])%list)
  | Stored key vid => (<[key := mkEntry vid]> st.1, st.2)
  end.

(** [x in fieldnames] *)
Definition has_column (col : string) (fieldnames : list string) : bool :=
  existsb (String.eqb col) fieldnames.

(** [main], from the opened file on. *)
Definition main `{UnicodeData} (str_strip : string -> string)
    (fieldnames : option (list string)) (rows : list (gmap string string))
    (out_path : string) : outcome :=
  match fieldnames with
  | None => TypeError []
  | Some names =>
      if negb (has_column EXERCISE_COL names)
         || negb (has_column YOUTUBE_COL names)
      then Exit 1 [MissingColumns names]
      else
        let st := foldl (row_step str_strip) (∅, []) rows in
        Written out_path st.1
                (st.2 ++ [WroteEntries out_path (size st.1)])%list
  end.

(** The rows that end up stored, as (key, id) pairs, in file order. *)
Definition stored `{UnicodeData} (str_strip : string -> string)
    (rows : list (gmap string string)) : list (string * string) :=
  omap (fun row => match row_fate_of str_strip row with
                   | Stored key vid => Some (key, vid)
                   | _ => None
                   end) rows.

(** The rows warned about. *)
Definition warned `{UnicodeData} (str_strip : string -> string)
    (rows : list (gmap string string)) : list line :=
  omap (fun row => match row_fate_of str_strip row with
                   | Warned url name => Some (CouldNotParse url name)
                   | _ => None
                   end) rows.

(** Four sample rows: two for the same slug, one with an url without id,
    one without a name. *)
Definition sample_rows : list (gmap string string) :=
  [ {[ "Exercise" := " Push Up "; "YouTube" := "https://youtu.be/abcdefg1" ]};
    {[ "Exercise" := "Squat"; "YouTube" := "soon" ]};
    {[ "Exercise" := "push-up"; "YouTube" := "dQw4w9WgXcQ" ]};
    {[ "YouTube" := "https://youtu.be/abcdefg2" ]} ].

(** A well-formed id that is a piece of [s]. *)
Definition id_within (s v : string) : Prop :=
  (6 <= String.length v)%nat /\ str_forallb is_id_char v = true
  /\ contains v s = true.

End MediaJson.

(** ** [xlsx_links_to_json.py]: the worksheet

    An openpyxl worksheet is taken as its grid: [ws[r]] is the list of the
    cells of row [r] (columns 1 to [max_column]), [ws.max_row] the number of
    rows, and [ws.cell(r, c)] the cell found there, an empty one when the
    grid has none.  A cell value is [None], a [str], or something else
    (number, boolean, date), of which only the truth value and the [str()]
    rendering matter here.  [str.strip()] and the case-insensitive search
    for the first quoted argument of a [HYPERLINK(] formula need the Unicode
    tables and are parameters: [str_strip] and [formula_url], the latter
    standing for [re.search(...)] and its group 1. *)

Module Workbook.
Import PyStr.

Inductive Value :=
| VNone
| VStr (s : string)
| VOther (is_true : bool) (as_str : string).

(** A cell: its value and its hyperlink, [None] or an object whose [target]
    is [None] or a string. *)
Record Cell := mkCell {
  value : Value;
  hyperlink : option (option string)
}.

Definition empty_cell : Cell := mkCell VNone None.

(** Exceptions [extract] can end with; [HeaderNotFound] is the
    [SystemExit] raised by [find_header] with its message. *)
Inductive error :=
| HeaderNotFound
| KeyError (key : string)
| AttributeError.

Inductive result (A : Type) :=
| Ok (a : A)
| Raise (e : error).
Arguments Ok {A} a.
Arguments Raise {A} e.

(** [ws.cell(r, c)] within one row: columns count from 1. *)
Definition cell_at (cells : list Cell) (c : nat) : Cell :=
  default empty_cell (cells !! (c - 1)).

(** A Python [dict] with its insertion order: assigning to a key that is
    there keeps its place, a new key goes last. *)
Fixpoint dict_set {V} (k : string) (v : V) (d : list (string * V))
    : list (string * V) :=
  match d with
  | [] => [(k, v)]
  | (k', v') :: rest =>
      if String.eqb k' k then (k', v) :: rest
      else (k', v') :: dict_set k v rest
  end.

Fixpoint dict_get {V} (k : string) (d : list (string * V)) : option V :=
  match d with
  | [] => None
  | (k', v') :: rest => if String.eqb k' k then Some v' else dict_get k rest
  end.

(** [{cells[i]: i+1 for i in range(len(cells))}], from index [i] on. *)
Fixpoint headers_from (i : nat) (cells : list string)
    (headers : gmap string nat) : gmap string nat :=
  match cells with
  | [] => headers
  | t :: rest => headers_from (S i) rest (<[t := S i]> headers)
  end.

(** The distinct members of a list, each where it is first seen. *)
Fixpoint first_seen (l : list string) : list string :=
  match l with
  | [] => []
  | k :: rest => k :: List.filter (fun k' => negb (String.eqb k' k)) (first_seen rest)
  end.

(** [t] stands last at index [j] of [cells]. *)
Definition last_at (cells : list string) (t : string) (j : nat) : Prop :=
  cells !! j = Some t /\ forall j', (j < j')%nat -> cells !! j' <> Some t.

(** The value [{"exercise": name, "youtube": url}]. *)
Record Link := mkLink { exercise : string; youtube : string }.

Section Extract.
Context `{UnicodeData}.
Variable str_strip : string -> string.
Variable formula_url : string -> option string.

(** [str(c.value).strip().lower() if c.value is not None else ""] *)
Definition header_text (c : Cell) : string :=
  match value c with
  | VNone => ""
  | VStr s => str_lower (str_strip s)
  | VOther _ s => str_lower (str_strip s)
  end.

Definition has_both (cells : list string) : bool :=
  existsb (String.eqb "exercise") cells && existsb (String.eqb "youtube") cells.

(** The loop of [find_header] over the rows [r], [r + 1], ... *)
Fixpoint scan (r : nat) (rows : list (list Cell))
    : option (nat * gmap string nat) :=
  match rows with
  | [] => None
  | row :: rest =>
      let cells := List.map header_text row in
      if has_both cells then Some (r, headers_from 0 cells ∅)
      else scan (S r) rest
  end.

Definition find_header (ws : list (list Cell))
    : result (nat * gmap string nat) :=
  match scan 1 (take (Nat.min (length ws) 50) ws) with
  | Some found => Ok found
  | None => Raise HeaderNotFound
  end.

(** The url of a link cell: the target of the hyperlink when there is one,
    else the one found in a formula; [None] stands for a falsy [url]. *)
Definition url_of (link_cell : Cell) : option string :=
  let url :=
    match hyperlink link_cell with
    | Some (Some target) => if truthy target then Some target else None
    | _ => None
    end in
  let url :=
    match url with
    | Some u => Some u
    | None =>
        match value link_cell with
        | VStr s => if startswith "=" s then formula_url s else None
        | _ => None
        end
    end in
  match url with
  | Some u => if truthy u then Some u else None
  | None => None
  end.

(** [(name_cell.value or "").strip()]: a true value that is no string has
    no [strip]. *)
Definition name_of (name_cell : Cell) : result string :=
  match value name_cell with
  | VNone => Ok (str_strip "")
  | VStr s => Ok (str_strip (if truthy s then s else ""))
  | VOther false _ => Ok (str_strip "")
  | VOther true _ => Raise AttributeError
  end.

(** The body of the loop of [extract] on one row. *)
Definition extract_row (name_col link_col : nat) (out : list (string * Link))
    (row : list Cell) : result (list (string * Link)) :=
  match name_of (cell_at row name_col) with
  | Raise e => Raise e
  | Ok name =>
      if negb (truthy name) then Ok out
      else
        match url_of (cell_at row link_col) with
        | None => Ok out
        | Some url =>
            Ok (dict_set (XlsxLinksToJson.slugify name) (mkLink name url) out)
        end
  end.

Fixpoint extract_rows (name_col link_col : nat) (out : list (string * Link))
    (rows : list (list Cell)) : result (list (string * Link)) :=
  match rows with
  | [] => Ok out
  | row :: rest =>
      match extract_row name_col link_col out row with
      | Raise e => Raise e
      | Ok out' => extract_rows name_col link_col out' rest
      end
  end.

(** What one row adds when it raises nothing: nothing, or a key with its
    link. *)
Definition row_entry (name_col link_col : nat) (row : list Cell)
    : option (string * Link) :=
  match name_of (cell_at row name_col) with
  | Raise _ => None
  | Ok name =>
      if negb (truthy name) then None
      else
        match url_of (cell_at row link_col) with
        | None => None
        | Some url => Some (XlsxLinksToJson.slugify name, mkLink name url)
        end
  end.

(** [extract], from the worksheet on. *)
Definition extract (ws : list (list Cell)) : result (list (string * Link)) :=
  match find_header ws with
  | Raise e => Raise e
  | Ok (header_row, headers) =>
      match headers !! "exercise" with
      | None => Raise (KeyError "exercise")
      | Some name_col =>
          match headers !! "youtube" with
          | None => Raise (KeyError "youtube")
          | Some link_col =>
              extract_rows name_col link_col [] (drop header_row ws)
          end
      end
  end.

End Extract.

(** *** The formula search on ASCII text *)

Definition DQUOTE : ascii := ascii_of_N 34.

(** A literal matched at the start of [s] whatever the case of the ASCII
    letters: what follows it. *)
Fixpoint strip_prefix_nocase (lit s : string) : option string :=
  match lit with
  | EmptyString => Some s
  | String a lit' =>
      match s with
      | String b s' =>
          if Ascii.eqb (lower_char a) (lower_char b)
          then strip_prefix_nocase lit' s'
          else None
      | EmptyString => None
      end
  end.

Fixpoint drop_while (p : ascii -> bool) (s : string) : string :=
  match s with
  | EmptyString => EmptyString
  | String c r => if p c then drop_while p r else s
  end.

(** The pattern of line 45, [HYPERLINK], an opening parenthesis, a
    quotation mark, the group (one or more characters other than the
    quotation mark) and a quotation mark, matched at the start of [s]: the
    group is the whole run up to the next quotation mark, which has to be
    there. *)
Definition match_hyperlink (s : string) : option string :=
  match strip_prefix_nocase ("HYPERLINK(" ++ String DQUOTE "") s with
  | Some r =>
      let not_quote c := negb (Ascii.eqb c DQUOTE) in
      let url := MediaJson.take_while not_quote r in
      if truthy url
         && MediaJson.head_in (Ascii.eqb DQUOTE) (drop_while not_quote r)
      then Some url
      else None
  | None => None
  end.

(** [m.group(1)] of the search of line 45 with [re.I], on a formula whose
    characters are all ASCII. *)
Definition formula_url_ascii (formula : string) : option string :=
  MediaJson.re_search match_hyperlink formula.

(** The formula [=HYPERLINK(] [https://example.org/v] [,] [watch] [)], the
    url and the text each between quotation marks. *)
Definition sample_formula : string :=
  "=HYPERLINK(" ++ String DQUOTE "https://example.org/v"
  ++ String DQUOTE "," ++ String DQUOTE "watch" ++ String DQUOTE ")".

(** A sheet with a title line, the header in row 2 and four data rows. *)
Definition sample_sheet : list (list Cell) :=
  [ [mkCell (VStr "Demo videos") None; mkCell VNone None];
    [mkCell (VStr " YouTube ") None; mkCell (VStr "EXERCISE") None];
    [mkCell (VStr "watch") (Some (Some "https://youtu.be/abcdefg1"));
     mkCell (VStr "Push Up") None];
    [mkCell VNone None; mkCell (VStr "Squat") None];
    [mkCell (VStr sample_formula) None; mkCell (VStr " push-up ") None];
    [mkCell (VStr "x") (Some (Some "u")); mkCell (VOther false "0") None] ].

End Workbook.

(** * Properties *)

(** ** Characters and strings *)

Section StringFacts.
Import PyStr.

Ltac by_cases_on_char c :=
  destruct c as [[] [] [] [] [] [] [] []]; vm_compute; congruence.

Lemma lower_char_keeps_space c : is_space (lower_char c) = is_space c.
Proof. by_cases_on_char c. Qed.

Lemma lower_char_classes_agree c :
  XlsxLinksToJson.not_A_Za_z0_9 (lower_char c)
  = MakeMediaJson.not_a_z0_9 (lower_char c).
Proof. by_cases_on_char c. Qed.

Lemma space_not_a_z0_9 c :
  is_space c = true -> MakeMediaJson.not_a_z0_9 c = true.
Proof. by_cases_on_char c. Qed.

Lemma a_z0_9_not_dash c :
  MakeMediaJson.not_a_z0_9 c = false -> Ascii.eqb "-" c = false.
Proof. by_cases_on_char c. Qed.

Lemma rstrip_cons p c r :
  rstrip p (String c r)
  = if p c && negb (truthy (rstrip p r)) then "" else String c (rstrip p r).
Proof. simpl. destruct (rstrip p r), (p c); reflexivity. Qed.

Lemma forallb_lstrip p q s :
  str_forallb p s = true -> str_forallb p (lstrip q s) = true.
Proof.
  induction s as [|c r IH]; simpl; [done|].
  intros [Hc Hr]%andb_true_iff. destruct (q c); simpl; [auto|].
  by rewrite Hc, Hr.
Qed.

Lemma forallb_rstrip p q s :
  str_forallb p s = true -> str_forallb p (rstrip q s) = true.
Proof.
  induction s as [|c r IH]; [done|].
  intros [Hc Hr]%andb_true_iff. rewrite rstrip_cons.
  destruct (q c && _); simpl; [done|]. by rewrite Hc, IH.
Qed.

Lemma encode_ascii_ignore_is_ascii s : is_ascii (encode_ascii_ignore s) = true.
Proof.
  unfold is_ascii, encode_ascii_ignore.
  induction s as [|c r IH]; simpl; [done|].
  destruct (is_ascii_char c) eqn:E; simpl; [by rewrite E|done].
Qed.

Lemma str_map_lstrip f p s :
  (forall c, p (f c) = p c) -> str_map f (lstrip p s) = lstrip p (str_map f s).
Proof.
  intros Hp. induction s as [|c r IH]; simpl; [done|].
  rewrite Hp. by destruct (p c).
Qed.

Lemma str_map_rstrip f p s :
  (forall c, p (f c) = p c) -> str_map f (rstrip p s) = rstrip p (str_map f s).
Proof.
  intros Hp. induction s as [|c r IH]; [done|].
  change (str_map f (String c r)) with (String (f c) (str_map f r)).
  rewrite !rstrip_cons, <- IH, Hp.
  destruct (rstrip p r); simpl; by destruct (p c).
Qed.

Lemma lstrip_rstrip_comm p s : lstrip p (rstrip p s) = rstrip p (lstrip p s).
Proof.
  induction s as [|c r IH]; [done|].
  change (lstrip p (String c r)) with (if p c then lstrip p r else String c r).
  rewrite rstrip_cons. destruct (p c) eqn:Hc; simpl andb.
  - rewrite <- IH. destruct (rstrip p r); simpl; [done|]. by rewrite Hc.
  - rewrite rstrip_cons, Hc. simpl. by rewrite Hc.
Qed.

Lemma lstrip_lstrip_sub p q s :
  (forall c, q c = true -> p c = true) -> lstrip p (lstrip q s) = lstrip p s.
Proof.
  intros Hsub. induction s as [|c r IH]; simpl; [done|].
  destruct (q c) eqn:Hq; simpl; [by rewrite (Hsub _ Hq)|done].
Qed.

Lemma rstrip_empty_forallb p s : rstrip p s = "" -> str_forallb p s = true.
Proof.
  induction s as [|c r IH]; [done|]. rewrite rstrip_cons.
  destruct (p c) eqn:Hc; simpl; [|done].
  destruct (rstrip p r); simpl; [|done].
  intros _. by rewrite Hc, IH.
Qed.


(** *** The two regular-expression substitutions *)

Section Substitutions.
Variable cls : ascii -> bool.
Hypothesis cls_dash : cls "-" = true.

Let isd : ascii -> bool := Ascii.eqb "-".

Lemma not_cls_not_dash c : cls c = false -> isd c = false.
Proof.
  intros Hc. unfold isd. destruct (Ascii.eqb_spec "-" c) as [<-|]; congruence.
Qed.

Lemma re_sub_plus_map_ext (p q : ascii -> bool) f rep b s :
  (forall c, p (f c) = q (f c)) ->
  re_sub_plus p rep b (str_map f s) = re_sub_plus q rep b (str_map f s).
Proof.
  intros Hpq. revert b. induction s as [|c r IH]; intros b; simpl; [done|].
  rewrite Hpq. destruct (q (f c)); [destruct b|]; by rewrite IH.
Qed.

Lemma startswith_char c b r :
  startswith (String c "") (String b r) = Ascii.eqb c b.
Proof.
  unfold startswith. simpl.
  destruct (ascii_dec c b) as [->|Hne].
  - rewrite Ascii.eqb_refl. by destruct r.
  - symmetry. by apply Ascii.eqb_neq.
Qed.

Lemma re_sub_two_or_more_id c rep s :
  no_double c s = true -> re_sub_two_or_more c rep s = s.
Proof.
  induction s as [|a r IH]; [done|].
  intros [Hhd Htl]%andb_true_iff. specialize (IH Htl).
  cbn [re_sub_two_or_more]. destruct (Ascii.eqb a c) eqn:Hac.
  - destruct r as [|b r']; [done|].
    rewrite startswith_char, Ascii.eqb_sym in Hhd.
    destruct (Ascii.eqb b c); [done|]. by rewrite IH.
  - by rewrite IH.
Qed.

Lemma re_sub_plus_shape s :
  startswith "-" (re_sub_plus cls "-" true s) = false
  /\ forall b, no_double "-" (re_sub_plus cls "-" b s) = true.
Proof.
  induction s as [|c r [IHs IHn]]; [by split; [|intros []]|].
  assert (cls c = false ->
          no_double "-" (String c (re_sub_plus cls "-" false r)) = true) as Hkeep.
  { intros Hc%not_cls_not_dash. unfold isd in Hc.
    cbn [no_double]. by rewrite Ascii.eqb_sym, Hc, IHn. }
  split.
  - simpl. destruct (cls c) eqn:Hc; [done|].
    rewrite startswith_char. by apply not_cls_not_dash.
  - intros b. simpl. destruct (cls c) eqn:Hc; [|by apply Hkeep].
    destruct b; [done|].
    change ("-" ++ ?x) with (String "-" x).
    cbn [no_double]. by rewrite IHs, IHn.
Qed.

Lemma lstrip_re_sub_plus b s :
  lstrip isd (re_sub_plus cls "-" b s) = re_sub_plus cls "-" true (lstrip cls s).
Proof.
  revert b. induction s as [|c r IH]; intros b; [done|].
  simpl. destruct (cls c) eqn:Hc.
  - destruct b; [apply IH|]. simpl. apply IH.
  - simpl. rewrite Hc. by rewrite (not_cls_not_dash _ Hc).
Qed.

Lemma rstrip_re_sub_plus_all b s :
  str_forallb cls s = true -> rstrip isd (re_sub_plus cls "-" b s) = "".
Proof.
  revert b. induction s as [|c r IH]; intros b; [done|].
  simpl. intros [Hc Hr]%andb_true_iff. rewrite Hc.
  destruct b; [by apply IH|].
  change ("-" ++ ?x) with (String "-" x). rewrite rstrip_cons, (IH true Hr). done.
Qed.

Lemma rstrip_re_sub_plus_cons b c x y :
  rstrip isd (re_sub_plus cls "-" (cls c) x)
  = rstrip isd (re_sub_plus cls "-" (cls c) y) ->
  rstrip isd (re_sub_plus cls "-" b (String c x))
  = rstrip isd (re_sub_plus cls "-" b (String c y)).
Proof.
  intros E. simpl. destruct (cls c); [destruct b; [done|]|].
  - change ("-" ++ ?z) with (String "-" z). by rewrite !rstrip_cons, E.
  - by rewrite !rstrip_cons, E.
Qed.

Lemma rstrip_re_sub_plus (ws : ascii -> bool) b s :
  (forall c, ws c = true -> cls c = true) ->
  rstrip isd (re_sub_plus cls "-" b (rstrip ws s))
  = rstrip isd (re_sub_plus cls "-" b s).
Proof.
  intros Hsub. revert b. induction s as [|c r IH]; intros b; [done|].
  rewrite rstrip_cons.
  destruct (ws c && negb (truthy (rstrip ws r))) eqn:E.
  - apply andb_true_iff in E as [Hc Hr].
    assert (str_forallb ws (String c r) = true) as Hall.
    { simpl. rewrite Hc. apply rstrip_empty_forallb.
      by destruct (rstrip ws r). }
    symmetry. apply rstrip_re_sub_plus_all.
    clear -Hall Hsub. induction (String c r) as [|a t IHt]; [done|].
    simpl in *. apply andb_true_iff in Hall as [Ha Ht].
    by rewrite (Hsub _ Ha), IHt.
  - apply rstrip_re_sub_plus_cons, IH.
Qed.

End Substitutions.
End StringFacts.

(** ** The two [slugify] functions *)

Section Slugify.
Import PyStr.
Context `{UnicodeData}.

Lemma str_lower_strip_space s :
  is_ascii s = true ->
  str_lower (strip is_space s) = strip is_space (ascii_lower s).
Proof.
  intros Hs. unfold strip. rewrite str_lower_ascii.
  - unfold ascii_lower.
    rewrite str_map_rstrip, str_map_lstrip; auto using lower_char_keeps_space.
  - by apply forallb_rstrip, forallb_lstrip.
Qed.

(** What both functions compute once the text is ASCII and lower case. *)
Lemma strip_space_invisible t :
  strip (Ascii.eqb "-")
    (re_sub_plus MakeMediaJson.not_a_z0_9 "-" false (strip is_space t))
  = strip (Ascii.eqb "-") (re_sub_plus MakeMediaJson.not_a_z0_9 "-" false t).
Proof.
  pose proof (eq_refl : MakeMediaJson.not_a_z0_9 "-" = true) as Hd.
  unfold strip at 1 3.
  rewrite <- !lstrip_rstrip_comm.
  unfold strip.
  rewrite rstrip_re_sub_plus by apply space_not_a_z0_9.
  rewrite !lstrip_rstrip_comm. f_equal.
  rewrite !(lstrip_re_sub_plus _ Hd).
  by rewrite lstrip_lstrip_sub by apply space_not_a_z0_9.
Qed.

(** C9: the [slugify] of the CSV pipeline ([make_media_json.py]) and the
    [slugify] of the workbook pipeline ([xlsx_links_to_json.py]) return the
    same string on every input. *)
Theorem slugify_pipelines_agree (s : string) :
  MakeMediaJson.slugify s = XlsxLinksToJson.slugify s.
Proof.
  unfold MakeMediaJson.slugify, XlsxLinksToJson.slugify.
  set (a := encode_ascii_ignore (nfkd s)).
  assert (is_ascii a = true) as Ha by apply encode_ascii_ignore_is_ascii.
  rewrite str_lower_strip_space, (str_lower_ascii a) by done.
  assert (strip is_space (ascii_lower a)
          = ascii_lower (strip is_space a)) as ->.
  { unfold strip, ascii_lower.
    rewrite str_map_rstrip, str_map_lstrip; auto using lower_char_keeps_space. }
  unfold ascii_lower at 2.
  rewrite (re_sub_plus_map_ext XlsxLinksToJson.not_A_Za_z0_9
             MakeMediaJson.not_a_z0_9) by apply lower_char_classes_agree.
  rewrite re_sub_two_or_more_id
    by by apply (re_sub_plus_shape MakeMediaJson.not_a_z0_9).
  fold (ascii_lower (strip is_space a)).
  assert (ascii_lower (strip is_space a)
          = strip is_space (ascii_lower a)) as ->.
  { unfold strip, ascii_lower.
    rewrite str_map_rstrip, str_map_lstrip; auto using lower_char_keeps_space. }
  by rewrite strip_space_invisible.
Qed.

End Slugify.

(** ** Code-point order and [sorted] *)

Section StringOrder.
Import SvgIndexer.

Lemma string_leb_cons a s b t :
  String.leb (String a s) (String b t)
  = match N.compare (N_of_ascii a) (N_of_ascii b) with
    | Lt => true
    | Eq => String.leb s t
    | Gt => false
    end.
Proof.
  unfold String.leb. simpl. unfold Ascii.compare.
  by destruct (N.compare _ _).
Qed.

Lemma string_leb_trans s t u :
  String.leb s t = true -> String.leb t u = true -> String.leb s u = true.
Proof.
  revert t u. induction s as [|a s IH]; intros [|b t] [|c u]; try done.
  rewrite !string_leb_cons.
  destruct (N.compare_spec (N_of_ascii a) (N_of_ascii b)) as [Hab|Hab|Hab];
    destruct (N.compare_spec (N_of_ascii b) (N_of_ascii c)) as [Hbc|Hbc|Hbc];
    destruct (N.compare_spec (N_of_ascii a) (N_of_ascii c)) as [Hac|Hac|Hac];
    try done; try lia.
  apply IH.
Qed.

#[export] Instance str_le_trans : Transitive str_le.
Proof. intros s t u. apply string_leb_trans. Qed.

#[export] Instance str_le_total : Total str_le.
Proof. intros s t. apply String.leb_total. Qed.

#[export] Instance key_le_trans : Transitive key_le.
Proof. intros [a ?] [b ?] [c ?]. unfold key_le. simpl. apply str_le_trans. Qed.

#[export] Instance key_le_total : Total key_le.
Proof. intros [a ?] [b ?]. unfold key_le. simpl. apply str_le_total. Qed.

(** [sorted] of a set: increasing, duplicate free, same members. *)
Lemma sorted_set (ids : gset string) :
  StronglySorted str_le (merge_sort str_le (base.elements ids))
  /\ NoDup (merge_sort str_le (base.elements ids))
  /\ forall i, i ∈ merge_sort str_le (base.elements ids) <-> i ∈ ids.
Proof.
  split; [apply StronglySorted_merge_sort; apply _|].
  split.
  - rewrite merge_sort_Permutation. apply NoDup_elements.
  - intros i. rewrite merge_sort_Permutation. apply elem_of_elements.
Qed.

(** The serialised reverse index: keys increasing and distinct, one entry
    per key of the dictionary, each value the sorted set. *)
Lemma class_to_ids_json_keys (m : gmap string (gset string)) :
  StronglySorted str_le (class_to_ids_json m).*1
  /\ NoDup (class_to_ids_json m).*1.
Proof.
  unfold class_to_ids_json.
  assert ((List.map (fun kv : string * gset string =>
             (kv.1, merge_sort str_le (base.elements kv.2)))
             (merge_sort key_le (map_to_list m))).*1
          = (merge_sort key_le (map_to_list m)).*1) as ->.
  { generalize (merge_sort key_le (map_to_list m)).
    induction l as [|[k v] l IH]; [done|]. cbn. f_equal. apply IH. }
  split.
  - apply Sorted_StronglySorted; [apply _|].
    apply Sorted_fmap with (R1 := key_le); [done|].
    apply Sorted_merge_sort; apply _.
  - rewrite merge_sort_Permutation. apply NoDup_fst_map_to_list.
Qed.

Lemma class_to_ids_json_entries (m : gmap string (gset string)) c ids :
  (c, ids) ∈ class_to_ids_json m
  <-> exists S, m !! c = Some S /\ ids = merge_sort str_le (base.elements S).
Proof.
  unfold class_to_ids_json. rewrite list_elem_of_In, in_map_iff. split.
  - intros ([k S] & [= <- <-] & Hin). exists S. split; [|done].
    apply list_elem_of_In in Hin. rewrite merge_sort_Permutation in Hin.
    by apply elem_of_map_to_list in Hin.
  - intros (S & Hm & ->). exists (c, S). split; [done|].
    apply list_elem_of_In. rewrite merge_sort_Permutation.
    by apply elem_of_map_to_list.
Qed.

End StringOrder.

(** ** The walker *)

Section Walker.
Import PyStr SvgIndexer.
#[local] Open Scope list_scope.
#[local] Set Warnings "-clear-no-such-hyp".

(** Induction on documents: the property holds of a node when it holds of
    all its children. *)
Lemma Element_ind (P : Element -> Prop) :
  (forall qtag attrib children,
      Forall P children -> P (mkElement qtag attrib children)) ->
  forall el, P el.
Proof.
  intros step. fix IH 1. intros [qtag attrib children]. apply step.
  induction children as [|child children IHc]; constructor; [apply IH|apply IHc].
Qed.

Lemma split1_length sep s : length (split1 sep s) <= 2.
Proof.
  induction s as [|c r IH]; simpl; [lia|].
  destruct (Ascii.eqb c sep); simpl; [lia|].
  destruct (split1 sep r); simpl in *; lia.
Qed.

Lemma strip_ns_stripNamespace qtag tag :
  strip_ns qtag = Ok tag -> Spec.stripNamespace qtag = tag.
Proof.
  unfold strip_ns, Spec.stripNamespace, NSBRACE_START.
  destruct (startswith "{" qtag); [|congruence].
  pose proof (split1_length "}" qtag) as Hlen.
  destruct (split1 "}" qtag) as [|a [|b [|c l]]]; simpl in *;
    congruence || lia.
Qed.

Lemma py_or_childParentIdentity id inherited :
  py_or id inherited = Spec.childParentIdentity id inherited.
Proof. by destruct id as [[|c i]|]. Qed.

Lemma rec_unfold side qtag attrib children p st :
  rec side (mkElement qtag attrib children) p st
  = match strip_ns qtag with
    | Raise e => Raise e
    | Ok tag =>
        rec_children side children (py_or (attrib !! "id") p)
          (if String.eqb tag "g"
           then record_group side (attrib !! "id")
                  (split_classes (cls_raw_of attrib)) tag p st
           else st)
    end.
Proof.
  simpl. destruct (strip_ns qtag) as [tag|e]; [|done].
  generalize (if String.eqb tag "g"
              then record_group side (attrib !! "id")
                     (split_classes (cls_raw_of attrib)) tag p st
              else st).
  induction children as [|child children IH]; intros st'; simpl; [done|].
  destruct (rec side child _ st'); [apply IH|done].
Qed.

(** The walker is a fold of [push] over the pre-order listing. *)
Lemma rec_refines side el :
  tags_ok el = true ->
  forall p st, rec side el p st = Ok (foldl push st (Spec.walk side p el)).
Proof.
  induction el as [qtag attrib children IH] using Element_ind.
  cbn [tags_ok]. intros [Htag Hcs]%andb_true_iff p st.
  rewrite rec_unfold. unfold tag_ok in Htag.
  destruct (strip_ns qtag) as [tag|] eqn:Hstrip; [clear Htag|done].
  cbn [Spec.walk]. rewrite (strip_ns_stripNamespace _ _ Hstrip).
  rewrite foldl_app, py_or_childParentIdentity.
  set (q := Spec.childParentIdentity _ _).
  assert (foldl push st
            (if String.eqb tag "g"
             then [mkInfo (attrib !! "id") (split_classes (cls_raw_of attrib))
                          "g" p side]
             else [])
          = if String.eqb tag "g"
            then record_group side (attrib !! "id")
                   (split_classes (cls_raw_of attrib)) tag p st
            else st) as ->.
  { destruct (String.eqb_spec tag "g") as [->|]; done. }
  generalize (if String.eqb tag "g"
              then record_group side (attrib !! "id")
                     (split_classes (cls_raw_of attrib)) tag p st
              else st).
  clear Hstrip. induction children as [|child children IHc]; intros st'; [done|].
  cbn [forallb] in Hcs. apply andb_true_iff in Hcs as [Hc Hcs].
  apply Forall_cons in IH as [IHchild IH].
  cbn [rec_children flat_map]. rewrite (IHchild Hc), foldl_app.
  by apply IHc.
Qed.

(** Conversely the walker returns only on documents whose tags are all
    accepted by [strip_ns]. *)
Lemma rec_ok_tags_ok side el :
  forall p st st', rec side el p st = Ok st' -> tags_ok el = true.
Proof.
  induction el as [qtag attrib children IH] using Element_ind.
  intros p st st'. rewrite rec_unfold. cbn [tags_ok]. unfold tag_ok.
  destruct (strip_ns qtag) as [tag|]; [|done]. simpl.
  generalize (if String.eqb tag "g"
              then record_group side (attrib !! "id")
                     (split_classes (cls_raw_of attrib)) tag p st
              else st).
  generalize (py_or (attrib !! "id") p). intros q.
  induction children as [|child children IHc]; intros st0; [done|].
  apply Forall_cons in IH as [IHchild IH].
  cbn [rec_children forallb].
  destruct (rec side child q st0) as [st1|] eqn:E; [|done].
  intros Hrest. rewrite (IHchild _ _ _ E). simpl. by eapply IHc.
Qed.

Lemma walk_svg_groups_refines root side :
  tags_ok root = true ->
  walk_svg_groups root side
  = Ok (let st := foldl push empty_state (Spec.walk side None root) in
        mkIndex (elements st) (byId st)
                (class_to_ids_json (class_to_ids st)) (counts st)).
Proof.
  intros Hok. unfold walk_svg_groups. by rewrite rec_refines.
Qed.

(** *** What one recording step does to each accumulator *)

Lemma elements_push st e : elements (push st e) = elements st ++ [e].
Proof.
  destruct e as [id cls tag p side]. unfold push, record_group. simpl.
  destruct id as [i|]; [destruct (truthy i)|]; by destruct cls.
Qed.

Lemma counts_push st e :
  let c := counts st in
  counts (push st e)
  = mkCounts (total c + 1) (groups c + 1)
             (with_id c + if has_id e then 1 else 0)
             (with_class c + if has_class e then 1 else 0).
Proof.
  destruct e as [id cls tag p side].
  unfold push, record_group, has_id, has_class. simpl.
  destruct id as [i|]; [destruct (truthy i) eqn:E|]; destruct cls; simpl;
    rewrite ?E; f_equal; lia.
Qed.

Lemma byId_push st e :
  byId (push st e)
  = match info_id e with
    | Some i => if truthy i then <[i := e]> (byId st) else byId st
    | None => byId st
    end.
Proof.
  destruct e as [id cls tag p side]. unfold push, record_group. simpl.
  destruct id as [i|]; [destruct (truthy i)|]; by destruct cls.
Qed.

Lemma class_to_ids_push st e :
  class_to_ids (push st e)
  = match info_id e with
    | Some i =>
        if truthy i then add_class_ids i (info_classes e) (class_to_ids st)
        else class_to_ids st
    | None => class_to_ids st
    end.
Proof.
  destruct e as [id cls tag p side]. unfold push, record_group. simpl.
  destruct id as [i|]; [destruct (truthy i)|]; by destruct cls.
Qed.

Lemma truthy_nonempty s : truthy s = true <-> s <> "".
Proof. by destruct s. Qed.

(** *** The fold over the recorded elements *)

Lemma elements_fold l st : elements (foldl push st l) = elements st ++ l.
Proof.
  revert st. induction l as [|e l IH]; intros st; simpl.
  - by rewrite app_nil_r.
  - by rewrite IH, elements_push, <- app_assoc.
Qed.

Lemma counts_fold l st :
  let c := counts st in
  counts (foldl push st l)
  = mkCounts (total c + length l) (groups c + length l)
             (with_id c + length (List.filter has_id l))
             (with_class c + length (List.filter has_class l)).
Proof.
  revert st. induction l as [|e l IH]; intros st; simpl.
  - rewrite !Nat.add_0_r. by destruct (counts st).
  - rewrite IH, counts_push. simpl.
    destruct (has_id e), (has_class e); simpl; f_equal; lia.
Qed.

(** [byId] after the fold: the last element carrying the key wins. *)
Lemma byId_fold_last l st i e s :
  l !! i = Some e -> info_id e = Some s -> s <> "" ->
  exists j e',
    i <= j /\ l !! j = Some e' /\ info_id e' = Some s
    /\ byId (foldl push st l) !! s = Some e'
    /\ forall k e'', j < k -> l !! k = Some e'' -> info_id e'' <> Some s.
Proof.
  intros Hi Hid Hs. revert i e Hi Hid.
  induction l as [|x l IH] using rev_ind; intros i e Hi Hid; [done|].
  rewrite foldl_app. cbn [foldl]. rewrite byId_push.
  destruct (decide (info_id x = Some s)) as [Hx|Hx].
  - (* the appended element carries the key: it is the winner *)
    exists (length l), x. rewrite Hx.
    rewrite (proj2 (truthy_nonempty s) Hs), lookup_insert_eq.
    apply lookup_lt_Some in Hi as Hlen. rewrite length_app in Hlen.
    simpl in Hlen. split; [lia|]. split; [apply list_lookup_middle; done|].
    split; [done|]. split; [done|].
    intros k e'' Hk Hk'. apply lookup_lt_Some in Hk'.
    rewrite length_app in Hk'. simpl in Hk'. lia.
  - (* otherwise the winner is inside [l] *)
    assert (i < length l) as Hlt.
    { apply lookup_lt_Some in Hi as Hlen. rewrite length_app in Hlen.
      simpl in Hlen. destruct (decide (i = length l)) as [->|]; [|lia].
      rewrite list_lookup_middle in Hi by done. congruence. }
    rewrite lookup_app_l in Hi by done.
    destruct (IH i e Hi Hid) as (j & e' & Hij & Hj & Hid' & Hby & Hlast).
    exists j, e'. split; [done|].
    split; [by apply lookup_app_l_Some|]. split; [done|]. split.
    + destruct (info_id x) as [ix|]; [|done].
      destruct (truthy ix); [|done].
      rewrite lookup_insert_ne; [done|congruence].
    + intros k e'' Hk Hk'.
      destruct (decide (k < length l)) as [Hkl|Hkl].
      * rewrite lookup_app_l in Hk' by done. by eapply Hlast.
      * apply lookup_lt_Some in Hk' as Hlen. rewrite length_app in Hlen.
        simpl in Hlen. assert (k = length l) as -> by lia.
        rewrite list_lookup_middle in Hk' by done. congruence.
Qed.

(** The empty string is never a key of [byId]. *)
Lemma byId_fold_empty_key l st :
  byId (foldl push st l) !! "" = byId st !! "".
Proof.
  revert st. induction l as [|e l IH]; intros st; simpl; [done|].
  rewrite IH, byId_push. destruct (info_id e) as [[|c i]|]; simpl; [done| |done].
  by rewrite lookup_insert_ne.
Qed.

Lemma add_class_ids_indexed el_id classes m c i :
  indexed (add_class_ids el_id classes m) c i
  <-> indexed m c i \/ (i = el_id /\ c ∈ classes).
Proof.
  unfold add_class_ids. revert m.
  induction classes as [|k classes IH]; intros m; simpl.
  - split; [by left|]. intros [?|[_ Hin]]; [done|]. by apply elem_of_nil in Hin.
  - rewrite IH. unfold indexed. setoid_rewrite elem_of_cons.
    destruct (decide (k = c)) as [->|Hne].
    + setoid_rewrite lookup_insert_eq. split.
      * intros [(ids & [= <-] & Hin)|[-> Hin]]; [|by right; split; [|right]].
        apply elem_of_union in Hin as [Hin| ->%elem_of_singleton].
        -- left. destruct (m !! c) as [ids|]; simpl in *; [by exists ids|].
           by apply elem_of_empty in Hin.
        -- right. split; [done|by left].
      * intros [(ids & Hm & Hin)|[-> [_|Hin]]].
        -- left. eexists. split; [done|]. rewrite Hm. simpl.
           apply elem_of_union. by left.
        -- left. eexists. split; [done|]. apply elem_of_union. right.
           by apply elem_of_singleton.
        -- by right.
    + setoid_rewrite lookup_insert_ne; [|done]. naive_solver.
Qed.

Lemma add_class_ids_inhabited el_id classes m :
  inhabited_values m -> inhabited_values (add_class_ids el_id classes m).
Proof.
  unfold add_class_ids. revert m.
  induction classes as [|k classes IH]; intros m Hm; simpl; [done|].
  apply IH. intros c ids. destruct (decide (k = c)) as [->|Hne].
  - rewrite lookup_insert_eq. intros [= <-]. exists el_id.
    apply elem_of_union. right. by apply elem_of_singleton.
  - rewrite lookup_insert_ne by done. apply Hm.
Qed.

Lemma class_to_ids_fold_indexed l st c i :
  indexed (class_to_ids (foldl push st l)) c i
  <-> indexed (class_to_ids st) c i
      \/ exists e, e ∈ l /\ info_id e = Some i /\ i <> "" /\ c ∈ info_classes e.
Proof.
  revert st. induction l as [|x l IH]; intros st; simpl.
  - split; [by left|]. intros [?|(e & Hin & _)]; [done|].
    by apply elem_of_nil in Hin.
  - rewrite IH, class_to_ids_push. setoid_rewrite elem_of_cons.
    destruct (info_id x) as [ix|] eqn:Hx.
    + destruct (truthy ix) eqn:Ht.
      * rewrite add_class_ids_indexed. apply truthy_nonempty in Ht.
        split; [intros [[?|[-> ?]]|?]|]; [by left|right|naive_solver|].
        -- exists x. naive_solver.
        -- intros [?|(e & [->|?] & Hid & Hne & Hc)]; [by left; left| |naive_solver].
           left. right. split; [congruence|done].
      * assert (ix = "") as -> by by destruct ix.
        split; [naive_solver|].
        intros [?|(e & [->|?] & Hid & Hne & Hc)]; [by left|congruence|naive_solver].
    + split; [naive_solver|].
      intros [?|(e & [->|?] & Hid & Hne & Hc)]; [by left|congruence|naive_solver].
Qed.

Lemma class_to_ids_fold_inhabited l st :
  inhabited_values (class_to_ids st) ->
  inhabited_values (class_to_ids (foldl push st l)).
Proof.
  revert st. induction l as [|x l IH]; intros st Hst; simpl; [done|].
  apply IH. rewrite class_to_ids_push.
  destruct (info_id x) as [ix|]; [|done].
  destruct (truthy ix); [|done]. by apply add_class_ids_inhabited.
Qed.

End Walker.

(** ** Tags and class attributes *)

Section TagsAndClasses.
Import PyStr SvgIndexer.
#[local] Open Scope list_scope.

Lemma split1_no_sep sep s :
  contains (String sep "") s = false -> split1 sep s = [s].
Proof.
  induction s as [|c r IH]; [done|].
  cbn [contains split1]. rewrite startswith_char.
  intros [Hc Hr]%orb_false_iff. rewrite Ascii.eqb_sym, Hc, (IH Hr). done.
Qed.

Lemma split1_with_sep sep s :
  contains (String sep "") s = true -> exists a b, split1 sep s = [a; b].
Proof.
  induction s as [|c r IH]; [done|].
  cbn [contains split1]. rewrite startswith_char, (Ascii.eqb_sym sep c).
  destruct (Ascii.eqb c sep); [by eexists _, _|].
  simpl. intros Hr. destruct (IH Hr) as (a & b & ->). by eexists _, _.
Qed.

(** C6: [strip_ns] agrees with the specified [stripNamespace] on every tag
    except those that start with a brace and contain no closing brace, where
    it raises [IndexError] while the specification returns the tag unchanged;
    the tag [{abc] is such an input. *)
Theorem strip_ns_unclosed_brace :
  (forall tag,
      strip_ns tag = Ok (Spec.stripNamespace tag)
      \/ (startswith "{" tag = true /\ contains "}" tag = false
          /\ strip_ns tag = Raise IndexError
          /\ Spec.stripNamespace tag = tag))
  /\ strip_ns "{abc" = Raise IndexError
  /\ Spec.stripNamespace "{abc" = "{abc".
Proof.
  split; [|by split]. intros tag.
  unfold strip_ns, Spec.stripNamespace, NSBRACE_START.
  destruct (startswith "{" tag) eqn:Hstart; [|by left].
  destruct (contains "}" tag) eqn:Hclose.
  - left. by destruct (split1_with_sep _ _ Hclose) as (a & b & ->).
  - right. by rewrite (split1_no_sep _ _ Hclose).
Qed.

(** *** Class splitting *)

Lemma cls_raw_of_default attrib :
  cls_raw_of attrib = default "" (attrib !! "class").
Proof. unfold cls_raw_of. by destruct (default "" (attrib !! "class")). Qed.

Lemma split_nonempty sep s : split sep s <> [].
Proof.
  destruct s as [|c r]; simpl; [done|].
  destruct (Ascii.eqb c sep); [done|]. by destruct (split sep r).
Qed.

Lemma split_cons sep c r :
  split sep (String c r)
  = if Ascii.eqb c sep then "" :: split sep r
    else String c (hd "" (split sep r)) :: tl (split sep r).
Proof.
  simpl. destruct (Ascii.eqb c sep); [done|].
  pose proof (split_nonempty sep r). by destruct (split sep r).
Qed.

Lemma replace_LF_is_space c :
  Ascii.eqb (if Ascii.eqb c LF then " "%char else c) " "
  = Spec.is_space_or_newline c.
Proof.
  unfold Spec.is_space_or_newline.
  destruct (Ascii.eqb_spec c LF) as [->|]; [done|]. by rewrite orb_false_r.
Qed.

(** The comprehension of the code computes the maximal pieces free of
    SPACE and LF. *)
Lemma split_classes_tokens raw :
  split_classes raw = Spec.tokens Spec.is_space_or_newline raw.
Proof.
  unfold split_classes, replace.
  induction raw as [|c r IH]; [reflexivity|].
  cbn [str_map Spec.tokens]. rewrite split_cons, replace_LF_is_space.
  destruct (Spec.is_space_or_newline c) eqn:Hc; [apply IH|].
  apply orb_false_iff in Hc as [_ ->].
  cbn [List.filter truthy]. rewrite <- IH. clear IH.
  destruct r as [|d r]; [reflexivity|].
  cbn [str_map]. rewrite split_cons, replace_LF_is_space.
  destruct (Spec.is_space_or_newline d); reflexivity.
Qed.

Lemma tokens_well_formed sep s :
  Forall (fun t => t <> "" /\ str_forallb (fun c => negb (sep c)) t = true)
         (Spec.tokens sep s).
Proof.
  induction s as [|c r IH]; [constructor|].
  cbn [Spec.tokens]. destruct (sep c) eqn:Hc; [done|].
  assert (forall w, str_forallb (fun c => negb (sep c)) w = true ->
            str_forallb (fun c => negb (sep c)) (String c w) = true) as Hcons.
  { intros w Hw. simpl. by rewrite Hc, Hw. }
  destruct r as [|d r]; [by repeat constructor; simpl; rewrite ?Hc|].
  destruct (sep d).
  - constructor; [|done]. split; [done|]. by apply Hcons.
  - destruct (Spec.tokens sep (String d r)) as [|w ws].
    + constructor; [|done]. split; [done|]. by apply Hcons.
    + apply Forall_cons in IH as [[_ Hw] Hws]. constructor; [|done].
      split; [done|]. by apply Hcons.
Qed.

(** C5, as the code has it: for every node, [classes] is the [class]
    attribute split at SPACE and LF only, empty tokens dropped, source order
    kept; no token is empty or contains a SPACE or an LF. Other whitespace,
    such as TAB, does not separate tokens. *)
Theorem classes_split_on_space_and_newline (attrib : gmap string string) :
  split_classes (cls_raw_of attrib)
  = Spec.tokens Spec.is_space_or_newline (default "" (attrib !! "class"))
  /\ Forall (fun t =>
               t <> ""
               /\ str_forallb
                    (fun c => negb (Spec.is_space_or_newline c)) t = true)
            (split_classes (cls_raw_of attrib)).
Proof.
  rewrite cls_raw_of_default, split_classes_tokens.
  split; [done|apply tokens_well_formed].
Qed.

(** C5, as the specification states it, fails: the attribute value
    [a<TAB>b] gives the single token [a<TAB>b], which contains a whitespace
    character, where splitting on whitespace gives [a] and [b]. *)
Lemma classes_keep_tab :
  split_classes (cls_raw_of {[ "class" := tabbed_class ]}) = [tabbed_class]
  /\ Spec.split_whitespace tabbed_class = ["a"; "b"]
  /\ str_forallb (fun c => negb (is_space c)) tabbed_class = false.
Proof. by vm_compute. Qed.

End TagsAndClasses.

(** ** Properties of the index *)

Section IndexClaims.
Import PyStr SvgIndexer.
#[local] Open Scope list_scope.

(** C1: whatever the type of a node, [rec] visits each of its children with
    the node's own id when that id is present and non-empty, and with the
    parent identity it inherited otherwise; hence the recorded elements are
    the pre-order listing built with that rule, and for
    [<g id="A"><g><g id="C"/></g></g>] the innermost element has parentId
    ["A"], the intermediate group without id being skipped. *)
Theorem parent_identity_propagates :
  (forall side qtag tag attrib children p st,
      strip_ns qtag = Ok tag ->
      rec side (mkElement qtag attrib children) p st
      = rec_children side children
          (match attrib !! "id" with
           | Some i => if String.eqb i "" then p else Some i
           | None => p
           end)
          (if String.eqb tag "g"
           then record_group side (attrib !! "id")
                  (split_classes (cls_raw_of attrib)) tag p st
           else st))
  /\ (forall side root,
        tags_ok root = true ->
        exists r, walk_svg_groups root side = Ok r
                  /\ idx_elements r = Spec.walk side None root)
  /\ (forall side g,
        strip_ns g = Ok "g" ->
        exists r a b c,
          walk_svg_groups (nested_example g) side = Ok r
          /\ idx_elements r = [a; b; c]
          /\ info_id a = Some "A" /\ info_parentId a = None
          /\ info_id b = None /\ info_parentId b = Some "A"
          /\ info_id c = Some "C" /\ info_parentId c = Some "A").
Proof.
  split; [|split].
  - intros side qtag tag attrib children p st Hstrip.
    rewrite rec_unfold, Hstrip, py_or_childParentIdentity. done.
  - intros side root Hok. eexists. split; [by apply walk_svg_groups_refines|].
    cbn zeta. cbn [idx_elements]. by rewrite elements_fold.
  - intros side g Hg.
    assert (tags_ok (nested_example g) = true) as Hok.
    { cbn [tags_ok nested_example forallb]. unfold tag_ok. by rewrite Hg. }
    apply strip_ns_stripNamespace in Hg.
    eexists _, _, _, _. split; [by apply walk_svg_groups_refines|].
    cbn zeta. cbn [idx_elements]. rewrite elements_fold.
    cbn [nested_example Spec.walk flat_map]. rewrite Hg.
    split; [reflexivity|]. by vm_compute.
Qed.

Lemma parent_identity_propagates_witness :
  exists r a b c,
    walk_svg_groups (nested_example "g") "front" = Ok r
    /\ idx_elements r = [a; b; c]
    /\ info_id a = Some "A" /\ info_parentId a = None
    /\ info_id b = None /\ info_parentId b = Some "A"
    /\ info_id c = Some "C" /\ info_parentId c = Some "A".
Proof.
  apply (proj2 (proj2 parent_identity_propagates) "front" "g"). reflexivity.
Defined.

(** C4: for every document the walker accepts, [counts.total],
    [counts.groups] and the length of [elements] are equal; [with_id] is the
    number of recorded elements with a non-empty id and [with_class] the
    number with at least one class token, whether or not they have an id. *)
Theorem counts_match_elements (root : Element) (side : string) :
  tags_ok root = true ->
  exists r,
    walk_svg_groups root side = Ok r
    /\ total (idx_counts r) = length (idx_elements r)
    /\ groups (idx_counts r) = length (idx_elements r)
    /\ total (idx_counts r) = groups (idx_counts r)
    /\ with_id (idx_counts r) = length (List.filter has_id (idx_elements r))
    /\ with_class (idx_counts r)
       = length (List.filter has_class (idx_elements r)).
Proof.
  intros Hok. eexists. split; [by apply walk_svg_groups_refines|].
  cbn zeta. cbn [idx_counts idx_elements].
  rewrite counts_fold, elements_fold. simpl. done.
Qed.

Lemma counts_match_elements_witness :
  tags_ok sample_document = true
  /\ exists r,
    walk_svg_groups sample_document "front" = Ok r
    /\ total (idx_counts r) = length (idx_elements r)
    /\ groups (idx_counts r) = length (idx_elements r)
    /\ total (idx_counts r) = groups (idx_counts r)
    /\ with_id (idx_counts r) = length (List.filter has_id (idx_elements r))
    /\ with_class (idx_counts r)
       = length (List.filter has_class (idx_elements r)).
Proof.
  split; [reflexivity|].
  apply (counts_match_elements sample_document "front"). reflexivity.
Defined.

(** C2: for every document the walker accepts, [elements] is the pre-order
    listing of the groups, so earlier duplicates stay in it, and for every
    recorded element [e] with a non-empty id [s], [byId[s]] is the element
    with that id appearing last in [elements]; it is [e] itself when no other
    recorded element carries [s]. *)
Theorem byId_last_write_wins (root : Element) (side : string) :
  tags_ok root = true ->
  exists r,
    walk_svg_groups root side = Ok r
    /\ idx_elements r = Spec.walk side None root
    /\ forall i e s,
        idx_elements r !! i = Some e -> info_id e = Some s -> s <> "" ->
        exists j e',
          i <= j
          /\ idx_elements r !! j = Some e'
          /\ info_id e' = Some s
          /\ idx_byId r !! s = Some e'
          /\ (forall k e'', j < k -> idx_elements r !! k = Some e'' ->
                           info_id e'' <> Some s)
          /\ ((forall k e'', k <> i -> idx_elements r !! k = Some e'' ->
                            info_id e'' <> Some s) ->
              idx_byId r !! s = Some e).
Proof.
  intros Hok. eexists. split; [by apply walk_svg_groups_refines|].
  cbn zeta. cbn [idx_byId idx_elements]. rewrite elements_fold. simpl.
  split; [done|]. intros i e s Hi Hid Hs.
  destruct (byId_fold_last _ empty_state i e s Hi Hid Hs)
    as (j & e' & Hij & Hj & Hid' & Hby & Hlast).
  exists j, e'. repeat (split; [done|]).
  intros Huniq. destruct (decide (j = i)) as [->|Hne]; [congruence|].
  by destruct (Huniq j e' Hne Hj).
Qed.

Lemma byId_last_write_wins_witness :
  tags_ok sample_document = true
  /\ exists r,
    walk_svg_groups sample_document "front" = Ok r
    /\ idx_elements r = Spec.walk "front" None sample_document
    /\ forall i e s,
        idx_elements r !! i = Some e -> info_id e = Some s -> s <> "" ->
        exists j e',
          i <= j
          /\ idx_elements r !! j = Some e'
          /\ info_id e' = Some s
          /\ idx_byId r !! s = Some e'
          /\ (forall k e'', j < k -> idx_elements r !! k = Some e'' ->
                           info_id e'' <> Some s)
          /\ ((forall k e'', k <> i -> idx_elements r !! k = Some e'' ->
                            info_id e'' <> Some s) ->
              idx_byId r !! s = Some e).
Proof.
  split; [reflexivity|].
  apply (byId_last_write_wins sample_document "front"). reflexivity.
Defined.

(** C3: for every document the walker accepts, the keys of [classToIds] are
    in increasing order without repetition and are exactly the class tokens
    of recorded elements with a non-empty id; the value at a key [c] is in
    increasing order without repetition and holds exactly the ids of the
    recorded elements that have a non-empty id and carry [c]. *)
Theorem classToIds_exact (root : Element) (side : string) :
  tags_ok root = true ->
  exists r,
    walk_svg_groups root side = Ok r
    /\ StronglySorted str_le (idx_classToIds r).*1
    /\ NoDup (idx_classToIds r).*1
    /\ (forall c,
          c ∈ (idx_classToIds r).*1
          <-> exists e i, e ∈ idx_elements r /\ info_id e = Some i
                          /\ i <> "" /\ c ∈ info_classes e)
    /\ (forall c ids,
          (c, ids) ∈ idx_classToIds r ->
          StronglySorted str_le ids
          /\ NoDup ids
          /\ forall i,
               i ∈ ids
               <-> exists e, e ∈ idx_elements r /\ info_id e = Some i
                             /\ i <> "" /\ c ∈ info_classes e).
Proof.
  intros Hok. eexists. split; [by apply walk_svg_groups_refines|].
  cbn zeta. cbn [idx_classToIds idx_elements]. rewrite elements_fold. simpl.
  set (l := Spec.walk side None root).
  set (m := class_to_ids (foldl push empty_state l)).
  assert (forall c i, indexed m c i
            <-> exists e, e ∈ l /\ info_id e = Some i /\ i <> ""
                          /\ c ∈ info_classes e) as Hidx.
  { intros c i. subst m. rewrite class_to_ids_fold_indexed.
    split; [intros [(ids & Hm & _)|?]; [|done]|by right].
    unfold empty_state in Hm. cbn [class_to_ids] in Hm.
    by rewrite lookup_empty in Hm. }
  assert (inhabited_values m) as Hinh.
  { apply class_to_ids_fold_inhabited. intros c ids Hm.
    unfold empty_state in Hm. cbn [class_to_ids] in Hm.
    by rewrite lookup_empty in Hm. }
  destruct (class_to_ids_json_keys m) as [Hsorted Hnodup].
  split; [done|]. split; [done|]. split.
  - intros c. rewrite list_elem_of_fmap. split.
    + intros ([c' ids] & -> & Hin). simpl.
      apply class_to_ids_json_entries in Hin as (S & Hm & _).
      destruct (Hinh _ _ Hm) as [i Hi].
      destruct (proj1 (Hidx c' i)) as (e & ?); [by exists S|]. by exists e, i.
    + intros (e & i & He). destruct (proj2 (Hidx c i)) as (S & Hm & _);
        [by exists e|].
      exists (c, merge_sort str_le (base.elements S)). split; [done|].
      apply class_to_ids_json_entries. by exists S.
  - intros c ids (S & Hm & ->)%class_to_ids_json_entries.
    destruct (sorted_set S) as (Hs & Hn & Hmem).
    split; [done|]. split; [done|]. intros i. rewrite Hmem, <- Hidx.
    unfold indexed. split; [by exists S|].
    intros (S' & Hm' & Hi). congruence.
Qed.

Lemma classToIds_exact_witness :
  tags_ok sample_document = true
  /\ exists r,
    walk_svg_groups sample_document "front" = Ok r
    /\ StronglySorted str_le (idx_classToIds r).*1
    /\ NoDup (idx_classToIds r).*1
    /\ (forall c,
          c ∈ (idx_classToIds r).*1
          <-> exists e i, e ∈ idx_elements r /\ info_id e = Some i
                          /\ i <> "" /\ c ∈ info_classes e)
    /\ (forall c ids,
          (c, ids) ∈ idx_classToIds r ->
          StronglySorted str_le ids
          /\ NoDup ids
          /\ forall i,
               i ∈ ids
               <-> exists e, e ∈ idx_elements r /\ info_id e = Some i
                             /\ i <> "" /\ c ∈ info_classes e).
Proof.
  split; [reflexivity|].
  apply (classToIds_exact sample_document "front"). reflexivity.
Defined.

(** C10: a group whose [id] attribute is the empty string is recorded with
    [id = ""] (not [None]); recording it leaves [with_id], [byId] and the
    reverse class index as they were, and its children are visited with the
    parent identity the group itself inherited.  In every index the walker
    returns the empty string is no key of [byId], occurs in no value of
    [classToIds], and [with_id] counts the non-empty ids only. *)
Theorem empty_id_is_no_id (side qtag : string) (attrib : gmap string string)
    (children : list Element) (p : option string) (st : WalkState) :
  strip_ns qtag = Ok "g" ->
  attrib !! "id" = Some "" ->
  let info := mkInfo (Some "") (split_classes (cls_raw_of attrib)) "g" p side in
  (exists st1,
      rec side (mkElement qtag attrib children) p st
      = rec_children side children p st1
      /\ elements st1 = elements st ++ [info]
      /\ has_id info = false
      /\ total (counts st1) = total (counts st) + 1
      /\ groups (counts st1) = groups (counts st) + 1
      /\ with_id (counts st1) = with_id (counts st)
      /\ with_class (counts st1)
         = with_class (counts st) + (if has_class info then 1 else 0)
      /\ byId st1 = byId st
      /\ class_to_ids st1 = class_to_ids st)
  /\ (forall root side',
        tags_ok root = true ->
        exists r,
          walk_svg_groups root side' = Ok r
          /\ idx_byId r !! "" = None
          /\ (forall c ids, (c, ids) ∈ idx_classToIds r -> "" ∉ ids)
          /\ with_id (idx_counts r)
             = length (List.filter has_id (idx_elements r))).
Proof.
  intros Hstrip Hid info. split.
  - exists (push st info). rewrite rec_unfold, Hstrip, Hid. cbn [String.eqb].
    change (Ascii.eqb "g" "g") with true. cbn [py_or truthy_opt truthy].
    split; [done|]. rewrite elements_push, counts_push, byId_push,
      class_to_ids_push. simpl. repeat (split; [done || lia|]). done.
  - intros root side' Hok. eexists.
    split; [by apply walk_svg_groups_refines|].
    cbn zeta. cbn [idx_byId idx_classToIds idx_counts idx_elements].
    rewrite byId_fold_empty_key, counts_fold, elements_fold.
    split; [done|]. split; [|done].
    intros c ids (S & Hm & ->)%class_to_ids_json_entries.
    rewrite (proj2 (proj2 (sorted_set S))). intros Hin.
    assert (indexed (class_to_ids
              (foldl push empty_state (Spec.walk side' None root))) c "")
      as Hidx by by exists S.
    apply class_to_ids_fold_indexed in Hidx as [(? & Hm' & _)|(e & _ & _ & ? & _)];
      [|done].
    unfold empty_state in Hm'. cbn [class_to_ids] in Hm'.
    by rewrite lookup_empty in Hm'.
Qed.

Lemma empty_id_is_no_id_witness :
  strip_ns SVG_G = Ok "g"
  /\ ({[ "id" := ""; "class" := "d" ]} : gmap string string) !! "id" = Some ""
  /\ let attrib : gmap string string := {[ "id" := ""; "class" := "d" ]} in
     let children := [ mkElement SVG_G {[ "id" := "y" ]} [] ] in
     let p := Some "S" in
     let st := empty_state in
     let info := mkInfo (Some "") (split_classes (cls_raw_of attrib)) "g" p
                        "front" in
     (exists st1,
         rec "front" (mkElement SVG_G attrib children) p st
         = rec_children "front" children p st1
         /\ elements st1 = elements st ++ [info]
         /\ has_id info = false
         /\ total (counts st1) = total (counts st) + 1
         /\ groups (counts st1) = groups (counts st) + 1
         /\ with_id (counts st1) = with_id (counts st)
         /\ with_class (counts st1)
            = with_class (counts st) + (if has_class info then 1 else 0)
         /\ byId st1 = byId st
         /\ class_to_ids st1 = class_to_ids st)
     /\ (forall root side',
           tags_ok root = true ->
           exists r,
             walk_svg_groups root side' = Ok r
             /\ idx_byId r !! "" = None
             /\ (forall c ids, (c, ids) ∈ idx_classToIds r -> "" ∉ ids)
             /\ with_id (idx_counts r)
                = length (List.filter has_id (idx_elements r))).
Proof.
  split; [reflexivity|]. split; [reflexivity|].
  apply (empty_id_is_no_id "front" SVG_G {[ "id" := ""; "class" := "d" ]}
           [ mkElement SVG_G {[ "id" := "y" ]} [] ] (Some "S") empty_state);
    reflexivity.
Defined.

End IndexClaims.
(** ** The recursion limit *)

Section RecursionLimit.
Import PyStr SvgIndexer.
#[local] Open Scope list_scope.

Lemma strip_ns_raises tag e : strip_ns tag = Raise e -> e = IndexError.
Proof.
  unfold strip_ns. destruct (startswith NSBRACE_START tag); [|done].
  destruct (split1 "}" tag !! 1%nat); congruence.
Qed.

Lemma rec_raises_IndexError side el :
  forall p st e, rec side el p st = Raise e -> e = IndexError.
Proof.
  induction el as [qtag attrib children IH] using Element_ind.
  intros p st e. rewrite rec_unfold.
  destruct (strip_ns qtag) as [tag|e'] eqn:Hstrip;
    [|intros [= <-]; by eapply strip_ns_raises].
  generalize (py_or (attrib !! "id") p) as q.
  match goal with |- context [rec_children _ _ _ ?s] => generalize s end.
  clear Hstrip. intros st' q. revert st'.
  induction children as [|child children IHc]; intros st'; [done|].
  apply Forall_cons in IH as [IHchild IH]. cbn [rec_children].
  destruct (rec side child q st') eqn:E; [by apply IHc|].
  intros [= <-]. by eapply IHchild.
Qed.

Lemma walk_svg_groups_raises root side e :
  walk_svg_groups root side = Raise e -> e = IndexError.
Proof.
  unfold walk_svg_groups.
  destruct (rec side root None empty_state) eqn:E; [done|].
  intros [= <-]. by eapply rec_raises_IndexError.
Qed.

Lemma rec_limited_unfold room side qtag attrib children p st :
  rec_limited (S room) side (mkElement qtag attrib children) p st
  = match strip_ns qtag with
    | Raise e => Raise e
    | Ok tag =>
        rec_children_limited room side children (py_or (attrib !! "id") p)
          (if String.eqb tag "g"
           then record_group side (attrib !! "id")
                  (split_classes (cls_raw_of attrib)) tag p st
           else st)
    end.
Proof.
  simpl. destruct (strip_ns qtag) as [tag|e]; [|done].
  generalize (if String.eqb tag "g"
              then record_group side (attrib !! "id")
                     (split_classes (cls_raw_of attrib)) tag p st
              else st).
  induction children as [|child children IH]; intros st'; simpl; [done|].
  destruct (rec_limited room side child _ st'); [apply IH|done].
Qed.

Lemma height_positive el : 0 < height el.
Proof. destruct el. cbn [height]. lia. Qed.

Lemma height_cons qtag attrib child children :
  height (mkElement qtag attrib (child :: children))
  = Nat.max (S (height child)) (height (mkElement qtag attrib children)).
Proof.
  cbn [height List.map]. unfold list_max. cbn [fold_right]. lia.
Qed.

(** With room for the whole depth of the document the limit is not felt. *)
Lemma rec_limited_enough side el :
  forall room p st,
    height el <= room -> rec_limited room side el p st = rec side el p st.
Proof.
  induction el as [qtag attrib children IH] using Element_ind.
  intros [|room] p st Hroom.
  { pose proof (height_positive (mkElement qtag attrib children)). lia. }
  rewrite rec_limited_unfold, rec_unfold.
  destruct (strip_ns qtag) as [tag|e]; [|done].
  generalize (py_or (attrib !! "id") p) as q.
  generalize (if String.eqb tag "g"
              then record_group side (attrib !! "id")
                     (split_classes (cls_raw_of attrib)) tag p st
              else st).
  intros st' q. revert st'.
  induction children as [|child children IHc]; intros st'; [done|].
  apply Forall_cons in IH as [IHchild IH]. rewrite height_cons in Hroom.
  cbn [rec_children_limited rec_children].
  rewrite IHchild by lia.
  destruct (rec side child q st'); [|done]. apply IHc; [done|lia].
Qed.

(** Where the limited walk returns, the document fits and the walk is the
    one of [rec]. *)
Lemma rec_limited_ok side el :
  forall room p st st',
    rec_limited room side el p st = Ok st' ->
    height el <= room /\ rec side el p st = Ok st'.
Proof.
  induction el as [qtag attrib children IH] using Element_ind.
  intros [|room] p st st'; [done|].
  rewrite rec_limited_unfold, rec_unfold.
  destruct (strip_ns qtag) as [tag|e]; [|done].
  generalize (py_or (attrib !! "id") p) as q.
  generalize (if String.eqb tag "g"
              then record_group side (attrib !! "id")
                     (split_classes (cls_raw_of attrib)) tag p st
              else st).
  intros st0 q. revert st0.
  induction children as [|child children IHc]; intros st0.
  { cbn [rec_children_limited rec_children height List.map list_max fold_right].
    intros ->. split; [lia|done]. }
  apply Forall_cons in IH as [IHchild IH]. rewrite height_cons.
  cbn [rec_children_limited rec_children].
  destruct (rec_limited room side child q st0) as [st1|e] eqn:E; [|done].
  apply IHchild in E as [Hchild ->]. intros Hrest.
  destruct (IHc IH _ Hrest) as [Hh Hr]. split; [lia|done].
Qed.

(** Where it raises, either [strip_ns] raised on some tag or the document
    is nested deeper than there is room for. *)
Lemma rec_limited_raises side el :
  forall room p st e,
    rec_limited room side el p st = Raise e ->
    (e = IndexError /\ tags_ok el = false)
    \/ (e = RecursionError /\ room < height el).
Proof.
  induction el as [qtag attrib children IH] using Element_ind.
  intros [|room] p st e.
  { intros [= <-]. right. split; [done|apply height_positive]. }
  rewrite rec_limited_unfold. cbn [tags_ok]. unfold tag_ok.
  destruct (strip_ns qtag) as [tag|e'] eqn:Hstrip.
  2:{ intros [= <-]. left. split; [by eapply strip_ns_raises|done]. }
  cbn [andb].
  generalize (py_or (attrib !! "id") p) as q.
  generalize (if String.eqb tag "g"
              then record_group side (attrib !! "id")
                     (split_classes (cls_raw_of attrib)) tag p st
              else st).
  intros st0 q. revert st0.
  induction children as [|child children IHc]; intros st0; [done|].
  apply Forall_cons in IH as [IHchild IH]. rewrite height_cons.
  cbn [rec_children_limited forallb].
  destruct (rec_limited room side child q st0) as [st1|e1] eqn:E.
  - intros Hrest. destruct (IHc IH _ Hrest) as [[-> Hbad]|[-> Hdeep]].
    + left. split; [done|]. rewrite Hbad. apply andb_false_r.
    + right. split; [done|lia].
  - intros [= <-]. apply IHchild in E as [[-> Hbad]|[-> Hdeep]].
    + left. split; [done|]. by rewrite Hbad.
    + right. split; [done|lia].
Qed.

Lemma walk_svg_groups_limited_enough room root side :
  height root <= room ->
  walk_svg_groups_limited room root side = walk_svg_groups root side.
Proof.
  intros Hroom. unfold walk_svg_groups_limited, walk_svg_groups.
  by rewrite rec_limited_enough.
Qed.

Lemma walk_svg_groups_limited_ok room root side r :
  walk_svg_groups_limited room root side = Ok r ->
  height root <= room /\ tags_ok root = true
  /\ walk_svg_groups root side = Ok r.
Proof.
  unfold walk_svg_groups_limited, walk_svg_groups.
  destruct (rec_limited room side root None empty_state) as [st|e] eqn:E;
    [|done].
  apply rec_limited_ok in E as [Hroom E]. rewrite E. intros [= <-].
  split; [done|]. split; [by eapply rec_ok_tags_ok|done].
Qed.

Lemma walk_svg_groups_limited_raises room root side e :
  walk_svg_groups_limited room root side = Raise e ->
  (e = IndexError /\ tags_ok root = false)
  \/ (e = RecursionError /\ room < height root).
Proof.
  unfold walk_svg_groups_limited.
  destruct (rec_limited room side root None empty_state) as [st|e'] eqn:E;
    [done|].
  intros [= <-]. by eapply rec_limited_raises.
Qed.

End RecursionLimit.

(** ** The loader and the run *)

Section Loader.
Import PyStr SvgIndexer.
Context `{UnicodeData}.

Lemma parse_svg_cases w path hint p :
  parse_svg w path hint p
  = if fs_exists w path then
      match et_parse w path with
      | inl e =>
          (Raise (SystemExit 2),
           mkProcess
             (stderr p ++ ["ERROR: failed to parse " ++ path ++ ": " ++ e]%string)
             (stdout p) (files p))
      | inr root =>
          (Ok (root,
               if truthy_opt hint then default "" hint
               else if contains "back" (str_lower (basename path))
                       || contains "posterior" (str_lower (basename path))
                    then "back" else "front"), p)
      end
    else
      (Raise (SystemExit 2),
       mkProcess (stderr p ++ ["ERROR: file not found → " ++ path]%string)
                 (stdout p) (files p)).
Proof.
  unfold parse_svg.
  destruct (fs_exists w path); simpl; [|done].
  by destruct (et_parse w path) as [e|root].
Qed.

Lemma split_slash_app dir name :
  exists l,
    l <> [] /\ split "/" (dir ++ String "/" name) = (l ++ split "/" name)%list.
Proof.
  induction dir as [|c dir (l & Hl & IH)].
  - by exists [""].
  - change (String c dir ++ String "/" name)
      with (String c (dir ++ String "/" name)).
    rewrite split_cons, IH. destruct (Ascii.eqb c "/").
    + by exists ("" :: l).
    + destruct l as [|w l]; [done|]. by exists (String c w :: l).
Qed.

Lemma split_no_sep sep s :
  contains (String sep "") s = false -> split sep s = [s].
Proof.
  induction s as [|c r IH]; [done|].
  cbn [contains]. rewrite startswith_char.
  intros [Hc Hr]%orb_false_iff.
  by rewrite split_cons, Ascii.eqb_sym, Hc, (IH Hr).
Qed.

Lemma basename_plain name : contains "/" name = false -> basename name = name.
Proof. intros Hname. unfold basename. by rewrite split_no_sep. Qed.

Lemma basename_in_directory dir name :
  contains "/" name = false -> basename (dir ++ String "/" name) = name.
Proof.
  intros Hname. unfold basename.
  destruct (split_slash_app dir name) as (l & Hl & ->).
  rewrite split_no_sep by done. apply last_last.
Qed.

(** C7, as the code has it: when the loader returns, a non-empty side hint
    is the side, verbatim; without a hint, or with an empty one, the side is
    ["back"] exactly when the lower-cased base name of the path contains
    ["back"] or ["posterior"], and ["front"] otherwise.  So [torso_back.svg],
    in any directory, gives ["back"] without a hint, [torso.svg] gives
    ["front"], and the hint ["back"] wins over any file name. *)
Theorem side_from_hint_or_name (w : World) (path : string)
    (hint : option string) (p : Process) (root : Element) (side : string) :
  (parse_svg w path hint p).1 = Ok (root, side) ->
  (forall h, hint = Some h -> h <> "" -> side = h)
  /\ (hint = None \/ hint = Some "" ->
      (side = "back"
       <-> contains "back" (str_lower (basename path)) = true
           \/ contains "posterior" (str_lower (basename path)) = true)
      /\ (side = "front"
          <-> ~ (contains "back" (str_lower (basename path)) = true
                 \/ contains "posterior" (str_lower (basename path)) = true)))
  /\ (forall dir,
        path = "torso_back.svg" \/ path = dir ++ "/torso_back.svg" ->
        hint = None -> side = "back")
  /\ (forall dir,
        path = "torso.svg" \/ path = dir ++ "/torso.svg" ->
        hint = None -> side = "front")
  /\ (hint = Some "back" -> side = "back").
Proof.
  rewrite parse_svg_cases.
  destruct (fs_exists w path); [|done].
  destruct (et_parse w path) as [e|root']; [done|].
  cbn [fst]. intros [= -> <-].
  assert (forall name, is_ascii name = true ->
            path = name \/ (exists dir, path = dir ++ String "/" name) ->
            contains "/" name = false ->
            str_lower (basename path) = ascii_lower name) as Hname.
  { intros name Hascii [->|[dir ->]] Hslash.
    - by rewrite basename_plain, str_lower_ascii.
    - by rewrite basename_in_directory, str_lower_ascii. }
  split; [|split; [|split; [|split]]].
  - intros h -> Hh. cbn. by destruct h.
  - intros Hhint.
    assert (truthy_opt hint = false) as -> by by destruct Hhint as [->| ->].
    destruct (contains "back" _ || contains "posterior" _) eqn:E.
    + apply orb_true_iff in E. by split.
    + apply orb_false_iff in E as [E1 E2]. rewrite E1, E2.
      split; [split; [done|by intros [?|?]]|split; [by intros _ [?|?]|done]].
  - intros dir Hpath ->. cbn [truthy_opt].
    rewrite (Hname "torso_back.svg"); [done|done| |done].
    destruct Hpath as [?|?]; [by left|right; by exists dir].
  - intros dir Hpath ->. cbn [truthy_opt].
    rewrite (Hname "torso.svg"); [done|done| |done].
    destruct Hpath as [?|?]; [by left|right; by exists dir].
  - by intros ->.
Qed.

(** *** The run *)

Lemma main_cases w p :
  main w p
  = match parse_svg w FRONT_SVG None p with
    | (Raise e, p1) => (Raise e, p1)
    | (Ok rf, p1) =>
        match parse_svg w BACK_SVG None p1 with
        | (Raise e, p2) => (Raise e, p2)
        | (Ok rb, p2) =>
            match walk_svg_groups_limited (recursion_room w) rf.1 rf.2 with
            | Raise e => (Raise e, p2)
            | Ok idx_front =>
                match walk_svg_groups_limited (recursion_room w) rb.1 rb.2 with
                | Raise e => (Raise e, p2)
                | Ok idx_back =>
                    if fs_writable w OUTPUT_JSON then
                      (Ok tt,
                       mkProcess (stderr p2)
                         (stdout p2
                          ++ [PWrote OUTPUT_JSON;
                              PCounts "front" (idx_counts idx_front);
                              PCounts "back" (idx_counts idx_back);
                              PPreview; PPreview])%list
                         (<[OUTPUT_JSON := mkCombined idx_front idx_back]>
                            (files p2)))
                    else (Raise (OSError OUTPUT_JSON), p2)
                end
            end
        end
    end.
Proof.
  unfold main, mbind, IO_bind.
  destruct (parse_svg w FRONT_SVG None p) as [[rf|e] p1]; [|done].
  destruct (parse_svg w BACK_SVG None p1) as [[rb|e] p2]; [|done].
  unfold lift.
  destruct (walk_svg_groups_limited (recursion_room w) rf.1 rf.2)
    as [idx_front|e]; [|done].
  destruct (walk_svg_groups_limited (recursion_room w) rb.1 rb.2)
    as [idx_back|e]; [|done].
  unfold write_json. destruct (fs_writable w OUTPUT_JSON); [|done].
  unfold print_out. cbn. by rewrite <- !app_assoc.
Qed.





End Loader.

(** *** Concrete runs, on ASCII paths *)

Section LoaderExamples.
Import PyStr SvgIndexer.

Lemma side_from_hint_or_name_witness :
  (parse_svg (world_with (nested_example "g")) BACK_SVG None fresh).1
  = Ok (nested_example "g", "back")
  /\ ("back" = "back"
      <-> contains "back" (str_lower (basename BACK_SVG)) = true
          \/ contains "posterior" (str_lower (basename BACK_SVG)) = true).
Proof.
  assert ((parse_svg (world_with (nested_example "g")) BACK_SVG None fresh).1
          = Ok (nested_example "g", "back")) as Hrun by reflexivity.
  split; [exact Hrun|].
  apply (side_from_hint_or_name _ _ _ _ _ _ Hrun). by left.
Defined.

(** C7, as the specification states it, fails: an empty side hint is given
    and is not the side returned; the file name decides. *)
Lemma empty_hint_is_ignored :
  (parse_svg (world_with (nested_example "g")) "torso.svg" (Some "") fresh).1
  = Ok (nested_example "g", "front")
  /\ (parse_svg (world_with (nested_example "g")) "torso_back.svg" (Some "")
        fresh).1
     = Ok (nested_example "g", "back").
Proof. split; reflexivity. Qed.



End LoaderExamples.

(** ** Further properties of the walker *)

Section WalkerMore.
Import PyStr SvgIndexer Tree.
#[local] Open Scope list_scope.

Lemma is_group_stripNamespace el :
  tags_ok el = true ->
  is_group el = String.eqb (Spec.stripNamespace (tag_of el)) "g".
Proof.
  destruct el as [qtag attrib children]. cbn [tags_ok tag_of].
  unfold is_group, tag_ok. cbn [tag_of].
  destruct (strip_ns qtag) as [tag|] eqn:E; [|done].
  by rewrite (strip_ns_stripNamespace _ _ E).
Qed.

Lemma nearest_id_snoc ancestors node :
  nearest_id (ancestors ++ [node])
  = Spec.childParentIdentity (id_of node) (nearest_id ancestors).
Proof.
  induction ancestors as [|a inner IH]; cbn [app nearest_id].
  - by destruct (id_of node) as [[|c i]|].
  - rewrite IH. destruct (id_of node) as [[|c i]|]; simpl; try done.
Qed.

Lemma nearest_id_truthy ancestors i :
  nearest_id ancestors = Some i -> i <> "".
Proof.
  induction ancestors as [|a inner IH]; [done|]. cbn [nearest_id].
  destruct (nearest_id inner) as [j|]; [intros [= <-]; by apply IH|].
  destruct (id_of a) as [[|c k]|]; simpl; congruence.
Qed.

Lemma walk_groups_under side el :
  tags_ok el = true ->
  forall ancestors,
    Spec.walk side (nearest_id ancestors) el = groups_under side ancestors el.
Proof.
  induction el as [qtag attrib children IH] using Element_ind.
  intros Hok ancestors. cbn [Spec.walk groups_under].
  rewrite (is_group_stripNamespace _ Hok). cbn [tag_of]. f_equal.
  cbn [tags_ok] in Hok. apply andb_true_iff in Hok as [_ Hcs].
  change (attrib !! "id") with (id_of (mkElement qtag attrib children)).
  rewrite <- nearest_id_snoc.
  generalize (ancestors ++ [mkElement qtag attrib children]) as below.
  intros below.
  induction children as [|child children IHc]; [done|].
  cbn [forallb] in Hcs. apply andb_true_iff in Hcs as [Hc Hcs].
  apply Forall_cons in IH as [IHchild IH]. cbn [flat_map].
  by rewrite (IHchild Hc), (IHc IH Hcs).
Qed.

(** The walker's result, on a document it accepts, in terms of the tree. *)
Lemma walk_svg_groups_groups_under root side :
  tags_ok root = true ->
  walk_svg_groups root side
  = Ok (let st := foldl push empty_state (groups_under side [] root) in
        mkIndex (elements st) (byId st)
                (class_to_ids_json (class_to_ids st)) (counts st)).
Proof.
  intros Hok. rewrite walk_svg_groups_refines by done.
  by rewrite <- (walk_groups_under side root Hok []).
Qed.

Lemma groups_under_fields side el :
  forall ancestors,
    Forall (fun e => info_tag e = "g" /\ info_side e = side
                     /\ info_parentId e <> Some "")
           (groups_under side ancestors el).
Proof.
  induction el as [qtag attrib children IH] using Element_ind.
  intros ancestors. cbn [groups_under]. apply Forall_app. split.
  - destruct (is_group _); constructor; [|done].
    repeat split. cbn [info_parentId]. intros Hp.
    by apply nearest_id_truthy in Hp.
  - generalize (ancestors ++ [mkElement qtag attrib children]) as below.
    intros below.
    induction children as [|child children IHc]; [constructor|].
    apply Forall_cons in IH as [IHchild IH]. cbn [flat_map].
    apply Forall_app. split; [apply IHchild|by apply IHc].
Qed.

(** X1: in every index the walker returns, each recorded element has tag
    ["g"] and the side label the walker was called with, and its parentId is
    absent or a non-empty string; the elements are the groups of the
    document in document order, each with the id of its nearest ancestor (of
    any tag) that has a non-empty id as parentId. *)
Theorem elements_are_groups_with_nearest_ancestor (root : Element)
    (side : string) :
  tags_ok root = true ->
  exists r,
    walk_svg_groups root side = Ok r
    /\ idx_elements r = groups_under side [] root
    /\ Forall (fun e => info_tag e = "g" /\ info_side e = side
                        /\ info_parentId e <> Some "")
              (idx_elements r).
Proof.
  intros Hok. eexists. split; [by apply walk_svg_groups_groups_under|].
  cbn zeta. cbn [idx_elements]. rewrite elements_fold. cbn [elements empty_state app].
  split; [done|apply groups_under_fields].
Qed.

Lemma elements_are_groups_with_nearest_ancestor_witness :
  tags_ok sample_document = true
  /\ exists r,
    walk_svg_groups sample_document "front" = Ok r
    /\ idx_elements r = groups_under "front" [] sample_document
    /\ Forall (fun e => info_tag e = "g" /\ info_side e = "front"
                        /\ info_parentId e <> Some "")
              (idx_elements r).
Proof.
  split; [reflexivity|].
  apply (elements_are_groups_with_nearest_ancestor sample_document "front").
  reflexivity.
Defined.

(** *** Document order *)

Lemma groups_under_document_order side el :
  forall ancestors,
    List.map (fun e => (info_id e, info_classes e))
             (groups_under side ancestors el)
    = List.map id_and_classes (List.filter is_group (iter el)).
Proof.
  induction el as [qtag attrib children IH] using Element_ind.
  intros ancestors. cbn [groups_under iter List.filter].
  rewrite List.map_app.
  assert (List.map (fun e => (info_id e, info_classes e))
            (flat_map
               (groups_under side (ancestors ++ [mkElement qtag attrib children]))
               children)
          = List.map id_and_classes
              (List.filter is_group (flat_map iter children))) as ->.
  { generalize (ancestors ++ [mkElement qtag attrib children]) as below.
    intros below.
    induction children as [|child children IHc]; [done|].
    apply Forall_cons in IH as [IHchild IH]. cbn [flat_map].
    by rewrite List.map_app, List.filter_app, List.map_app, IHchild, IHc. }
  by destruct (is_group (mkElement qtag attrib children)).
Qed.

(** X2: the recorded elements are exactly the group nodes of the document,
    in the order of [root.iter()]: the i-th element carries the [id]
    attribute and the class tokens of the i-th group node, so there are as
    many elements as group nodes. *)
Theorem elements_follow_document_order (root : Element) (side : string) :
  tags_ok root = true ->
  exists r,
    walk_svg_groups root side = Ok r
    /\ List.map (fun e => (info_id e, info_classes e)) (idx_elements r)
       = List.map id_and_classes (List.filter is_group (iter root))
    /\ length (idx_elements r) = length (List.filter is_group (iter root)).
Proof.
  intros Hok. eexists. split; [by apply walk_svg_groups_groups_under|].
  cbn zeta. cbn [idx_elements]. rewrite elements_fold.
  cbn [elements empty_state app].
  pose proof (groups_under_document_order side root []) as Horder.
  split; [done|].
  apply (f_equal (@length _)) in Horder. by rewrite !length_map in Horder.
Qed.

Lemma elements_follow_document_order_witness :
  tags_ok sample_document = true
  /\ exists r,
    walk_svg_groups sample_document "back" = Ok r
    /\ List.map (fun e => (info_id e, info_classes e)) (idx_elements r)
       = List.map id_and_classes (List.filter is_group (iter sample_document))
    /\ length (idx_elements r)
       = length (List.filter is_group (iter sample_document)).
Proof.
  split; [reflexivity|].
  apply (elements_follow_document_order sample_document "back"). reflexivity.
Defined.

(** X3: a document the walker accepts yields the empty index (no element,
    no key, all counts zero) exactly when none of its nodes is a group. *)
Theorem no_group_no_entry (root : Element) (side : string) :
  tags_ok root = true ->
  walk_svg_groups root side = Ok empty_index
  <-> existsb is_group (iter root) = false.
Proof.
  intros Hok. rewrite walk_svg_groups_groups_under by done. cbn zeta.
  pose proof (groups_under_document_order side root []) as Horder.
  assert (existsb is_group (iter root) = false
          <-> List.filter is_group (iter root) = []) as ->.
  { generalize (iter root). clear.
    induction l as [|n l IH]; [done|]. cbn [existsb List.filter].
    destruct (is_group n); [done|]. apply IH. }
  split.
  - intros [= Hels _ _ _]. rewrite elements_fold in Hels.
    cbn [elements empty_state app] in Hels. rewrite Hels in Horder.
    symmetry in Horder. by apply map_eq_nil in Horder.
  - intros Hnone. rewrite Hnone in Horder. apply map_eq_nil in Horder.
    by rewrite Horder.
Qed.

Lemma no_group_no_entry_witness :
  tags_ok (mkElement SVG_SVG {[ "id" := "S" ]} [mkElement "path" ∅ []]) = true
  /\ (walk_svg_groups
        (mkElement SVG_SVG {[ "id" := "S" ]} [mkElement "path" ∅ []]) "front"
      = Ok empty_index
      <-> existsb is_group
            (iter (mkElement SVG_SVG {[ "id" := "S" ]} [mkElement "path" ∅ []]))
          = false).
Proof.
  split; [reflexivity|].
  apply (no_group_no_entry
           (mkElement SVG_SVG {[ "id" := "S" ]} [mkElement "path" ∅ []])
           "front").
  reflexivity.
Defined.

(** *** The id index *)

Lemma byId_fold_sound l st k e :
  byId (foldl push st l) !! k = Some e ->
  byId st !! k = Some e \/ (e ∈ l /\ info_id e = Some k /\ k <> "").
Proof.
  revert st. induction l as [|x l IH]; intros st; cbn [foldl]; [by left|].
  intros [Hst|(Hin & Hid & Hk)]%IH.
  - rewrite byId_push in Hst. destruct (info_id x) as [i|] eqn:Hx; [|by left].
    destruct (truthy i) eqn:Ht; [|by left].
    destruct (decide (i = k)) as [->|Hne].
    + rewrite lookup_insert_eq in Hst. injection Hst as <-. right.
      split; [by left|]. split; [done|]. by apply truthy_nonempty.
    + rewrite lookup_insert_ne in Hst by done. by left.
  - right. split; [by right|done].
Qed.

Lemma byId_fold_complete l st e k :
  e ∈ l -> info_id e = Some k -> k <> "" ->
  is_Some (byId (foldl push st l) !! k).
Proof.
  intros Hin Hid Hk. apply list_elem_of_lookup in Hin as [i Hi].
  destruct (byId_fold_last l st i e k Hi Hid Hk) as (j & e' & _ & _ & _ & Hby & _).
  by exists e'.
Qed.

Lemma byId_fold_size l st :
  size (byId (foldl push st l))
  <= size (byId st) + length (List.filter has_id l).
Proof.
  revert st. induction l as [|x l IH]; intros st; cbn [foldl List.filter].
  - simpl. lia.
  - etransitivity; [apply IH|]. rewrite byId_push. unfold has_id.
    destruct (info_id x) as [i|]; cbn [truthy_opt]; [|lia].
    destruct (truthy i); [|lia]. cbn [length].
    destruct (byId st !! i) eqn:E.
    + rewrite map_size_insert_Some by done. lia.
    + rewrite map_size_insert_None by done. lia.
Qed.

(** X4: [byId] maps each key to a recorded element whose id is that key, and
    never has the empty string as key; its keys are exactly the non-empty
    ids of the recorded elements; it has at most [with_id] entries (fewer
    when ids repeat). *)
Theorem byId_holds_recorded_elements (root : Element) (side : string) :
  tags_ok root = true ->
  exists r,
    walk_svg_groups root side = Ok r
    /\ (forall k e,
          idx_byId r !! k = Some e ->
          e ∈ idx_elements r /\ info_id e = Some k /\ k <> "")
    /\ (forall k,
          is_Some (idx_byId r !! k)
          <-> exists e, e ∈ idx_elements r /\ info_id e = Some k /\ k <> "")
    /\ size (idx_byId r) <= with_id (idx_counts r).
Proof.
  intros Hok. eexists. split; [by apply walk_svg_groups_refines|].
  cbn zeta. cbn [idx_byId idx_elements idx_counts].
  rewrite elements_fold, counts_fold. cbn [elements counts empty_state app with_id].
  set (l := Spec.walk side None root).
  assert (forall k e, byId (foldl push empty_state l) !! k = Some e ->
            e ∈ l /\ info_id e = Some k /\ k <> "") as Hsound.
  { intros k e [Hempty|?]%byId_fold_sound; [|done].
    cbn [byId empty_state] in Hempty. by rewrite lookup_empty in Hempty. }
  split; [done|]. split.
  - intros k. split.
    + intros [e He]. exists e. by apply Hsound.
    + intros (e & Hin & Hid & Hk). by eapply byId_fold_complete.
  - pose proof (byId_fold_size l empty_state) as Hsize.
    cbn [byId empty_state] in Hsize. by rewrite map_size_empty in Hsize.
Qed.

Lemma byId_holds_recorded_elements_witness :
  tags_ok sample_document = true
  /\ exists r,
    walk_svg_groups sample_document "front" = Ok r
    /\ (forall k e,
          idx_byId r !! k = Some e ->
          e ∈ idx_elements r /\ info_id e = Some k /\ k <> "")
    /\ (forall k,
          is_Some (idx_byId r !! k)
          <-> exists e, e ∈ idx_elements r /\ info_id e = Some k /\ k <> "")
    /\ size (idx_byId r) <= with_id (idx_counts r).
Proof.
  split; [reflexivity|].
  apply (byId_holds_recorded_elements sample_document "front"). reflexivity.
Defined.

(** X5: every id listed under a class in [classToIds] is a key of [byId],
    and the element found there has that id.  (It need not carry the class:
    when an id repeats, [byId] keeps the last element while [classToIds]
    keeps the classes of all of them.) *)
Theorem classToIds_ids_are_byId_keys (root : Element) (side : string) :
  tags_ok root = true ->
  exists r,
    walk_svg_groups root side = Ok r
    /\ forall c ids i,
        (c, ids) ∈ idx_classToIds r -> i ∈ ids ->
        exists e, idx_byId r !! i = Some e /\ info_id e = Some i.
Proof.
  intros Hok. eexists. split; [by apply walk_svg_groups_refines|].
  cbn zeta. cbn [idx_byId idx_classToIds].
  set (l := Spec.walk side None root).
  intros c ids i (S & Hm & ->)%class_to_ids_json_entries Hi.
  apply (proj2 (proj2 (sorted_set S))) in Hi.
  assert (indexed (class_to_ids (foldl push empty_state l)) c i) as Hidx
    by by exists S.
  apply class_to_ids_fold_indexed in Hidx
    as [(? & Hempty & _)|(e & Hin & Hid & Hne & _)].
  { cbn [class_to_ids empty_state] in Hempty.
    by rewrite lookup_empty in Hempty. }
  destruct (byId_fold_complete l empty_state e i Hin Hid Hne) as [e' He'].
  exists e'. split; [done|].
  apply byId_fold_sound in He' as [Hempty|(_ & ? & _)]; [|done].
  cbn [byId empty_state] in Hempty. by rewrite lookup_empty in Hempty.
Qed.

Lemma classToIds_ids_are_byId_keys_witness :
  tags_ok sample_document = true
  /\ exists r,
    walk_svg_groups sample_document "front" = Ok r
    /\ forall c ids i,
        (c, ids) ∈ idx_classToIds r -> i ∈ ids ->
        exists e, idx_byId r !! i = Some e /\ info_id e = Some i.
Proof.
  split; [reflexivity|].
  apply (classToIds_ids_are_byId_keys sample_document "front"). reflexivity.
Defined.

(** *** Failure *)

Lemma tag_ok_false qtag :
  tag_ok qtag = false
  <-> startswith "{" qtag = true /\ contains "}" qtag = false.
Proof.
  unfold tag_ok, strip_ns, NSBRACE_START.
  destruct (startswith "{" qtag); [|by split; [|intros []]].
  destruct (contains "}" qtag) eqn:Hclose.
  - destruct (split1_with_sep _ _ Hclose) as (a & b & ->). by split; [|intros []].
  - by rewrite (split1_no_sep _ _ Hclose).
Qed.

Lemma tags_ok_iter el :
  tags_ok el = forallb (fun n => tag_ok (tag_of n)) (iter el).
Proof.
  induction el as [qtag attrib children IH] using Element_ind.
  cbn [tags_ok iter forallb tag_of]. f_equal.
  induction children as [|child children IHc]; [done|].
  apply Forall_cons in IH as [IHchild IH].
  cbn [forallb flat_map]. by rewrite forallb_app, IHchild, IHc.
Qed.

Lemma walk_svg_groups_outcome root side :
  (tags_ok root = true /\ exists r, walk_svg_groups root side = Ok r)
  \/ (tags_ok root = false /\ walk_svg_groups root side = Raise IndexError).
Proof.
  destruct (tags_ok root) eqn:Hok.
  - left. split; [done|]. eexists. by apply walk_svg_groups_refines.
  - right. split; [done|]. unfold walk_svg_groups.
    destruct (rec side root None empty_state) as [st|e] eqn:E.
    + apply rec_ok_tags_ok in E. congruence.
    + by rewrite (rec_raises_IndexError _ _ _ _ _ E).
Qed.

Lemma tags_ok_unclosed root :
  tags_ok root = false <-> exists n, n ∈ iter root /\ unclosed_brace n.
Proof.
  rewrite tags_ok_iter. unfold unclosed_brace. generalize (iter root).
  intros l. induction l as [|n l IH]; cbn [forallb].
  - split; [done|]. intros (n & Hin & _). by apply elem_of_nil in Hin.
  - rewrite andb_false_iff, IH, tag_ok_false. setoid_rewrite elem_of_cons.
    split.
    + intros [?|(m & ? & ?)]; [exists n; by split; [left|]|].
      exists m. by split; [right|].
    + intros (m & [->|?] & ?); [by left|]. right. by exists m.
Qed.

Lemma tags_ok_closed root :
  tags_ok root = true <-> forall n, n ∈ iter root -> ~ unclosed_brace n.
Proof.
  destruct (tags_ok root) eqn:Hok.
  - split; [|done]. intros _ n Hin Hn.
    assert (tags_ok root = false) by (apply tags_ok_unclosed; eauto).
    congruence.
  - split; [done|]. intros Hall.
    apply tags_ok_unclosed in Hok as (n & Hin & Hn). by destruct (Hall n Hin).
Qed.

(** X6: how a walk ends.  With room for [room] nested calls of [rec], the
    walker returns an index exactly when no tag of the document, group or
    not and at any depth, starts with a brace without containing a closing
    one, and the document is nested no deeper than [room]; the index is
    then the one [walk_svg_groups] gives.  Otherwise it raises [IndexError]
    or [RecursionError] and nothing else: [IndexError] only when there is
    such a tag, and always when there is one and the document fits;
    [RecursionError] only when the document is nested too deep, and always
    when it is and every tag is accepted. *)
Theorem walker_returns_or_raises (room : nat) (root : Element)
    (side : string) :
  ((exists r, walk_svg_groups_limited room root side = Ok r)
   <-> height root <= room
       /\ forall n, n ∈ iter root -> ~ unclosed_brace n)
  /\ (forall r,
        walk_svg_groups_limited room root side = Ok r ->
        walk_svg_groups root side = Ok r)
  /\ (forall e,
        walk_svg_groups_limited room root side = Raise e ->
        e = IndexError \/ e = RecursionError)
  /\ (walk_svg_groups_limited room root side = Raise IndexError ->
      exists n, n ∈ iter root /\ unclosed_brace n)
  /\ (walk_svg_groups_limited room root side = Raise RecursionError ->
      room < height root)
  /\ (height root <= room ->
      (exists n, n ∈ iter root /\ unclosed_brace n) ->
      walk_svg_groups_limited room root side = Raise IndexError)
  /\ (room < height root ->
      (forall n, n ∈ iter root -> ~ unclosed_brace n) ->
      walk_svg_groups_limited room root side = Raise RecursionError).
Proof.
  rewrite <- tags_ok_closed, <- tags_ok_unclosed.
  split; [|split; [|split; [|split; [|split; [|split]]]]].
  - split.
    + intros [r Hr]. by apply walk_svg_groups_limited_ok in Hr as (? & ? & _).
    + intros [Hroom Hok]. rewrite walk_svg_groups_limited_enough by done.
      eexists. by apply walk_svg_groups_refines.
  - intros r Hr. by apply walk_svg_groups_limited_ok in Hr as (_ & _ & ?).
  - intros e [[-> _]|[-> _]]%walk_svg_groups_limited_raises; [by left|by right].
  - by intros [[_ ?]|[? _]]%walk_svg_groups_limited_raises.
  - by intros [[? _]|[_ ?]]%walk_svg_groups_limited_raises.
  - intros Hroom Hbad. rewrite walk_svg_groups_limited_enough by done.
    destruct (walk_svg_groups_outcome root side) as [[Hok _]|[_ Hr]];
      [congruence|done].
  - intros Hdeep Hok.
    destruct (walk_svg_groups_limited room root side) as [r|e] eqn:E.
    + apply walk_svg_groups_limited_ok in E as (? & _). lia.
    + apply walk_svg_groups_limited_raises in E as [[_ ?]|[-> _]];
        [congruence|done].
Qed.

Lemma walker_returns_or_raises_witness :
  walk_svg_groups_limited 3 (nested_groups 3) "front" = Raise RecursionError
  /\ walk_svg_groups_limited 3
       (mkElement SVG_SVG ∅ [mkElement SVG_G ∅ [mkElement "{path" ∅ []]])
       "front"
     = Raise IndexError.
Proof.
  split.
  - apply (proj2 (proj2 (proj2 (proj2 (proj2 (proj2
             (walker_returns_or_raises 3 (nested_groups 3) "front"))))))).
    + cbn. lia.
    + by apply tags_ok_closed.
  - apply (proj1 (proj2 (proj2 (proj2 (proj2 (proj2
             (walker_returns_or_raises 3
                (mkElement SVG_SVG ∅
                   [mkElement SVG_G ∅ [mkElement "{path" ∅ []]])
                "front"))))))).
    + cbn. lia.
    + by apply tags_ok_unclosed.
Defined.

(** *** The side label *)

Lemma groups_under_with_side s1 s2 el :
  forall ancestors,
    groups_under s2 ancestors el
    = List.map (with_side s2) (groups_under s1 ancestors el).
Proof.
  induction el as [qtag attrib children IH] using Element_ind.
  intros ancestors. cbn [groups_under]. rewrite List.map_app. f_equal.
  - by destruct (is_group _).
  - generalize (ancestors ++ [mkElement qtag attrib children]) as below.
    intros below.
    induction children as [|child children IHc]; [done|].
    apply Forall_cons in IH as [IHchild IH]. cbn [flat_map].
    by rewrite List.map_app, IHchild, IHc.
Qed.

Lemma walk_state_eq (a b : WalkState) :
  elements a = elements b -> byId a = byId b ->
  class_to_ids a = class_to_ids b -> counts a = counts b -> a = b.
Proof. destruct a, b. simpl. by intros -> -> -> ->. Qed.

Lemma push_with_side side st e :
  let relabel st :=
    mkWalkState (List.map (with_side side) (elements st))
                (with_side side <$> byId st) (class_to_ids st) (counts st) in
  push (relabel st) (with_side side e) = relabel (push st e).
Proof.
  intros relabel. unfold relabel. clear relabel. apply walk_state_eq.
  - rewrite elements_push. cbn [elements]. by rewrite elements_push, List.map_app.
  - rewrite byId_push. cbn [byId with_side info_id]. rewrite byId_push.
    destruct (info_id e) as [i|]; [|done].
    destruct (truthy i); [|done]. by rewrite fmap_insert.
  - rewrite class_to_ids_push. cbn [class_to_ids with_side info_id info_classes].
    by rewrite class_to_ids_push.
  - pose proof (counts_push st e) as H1.
    pose proof (counts_push
                  (mkWalkState (List.map (with_side side) (elements st))
                     (with_side side <$> byId st) (class_to_ids st) (counts st))
                  (with_side side e)) as H2.
    cbn zeta in H1, H2. rewrite H2. cbn [counts]. by rewrite H1.
Qed.

Lemma fold_with_side side l st :
  let relabel st :=
    mkWalkState (List.map (with_side side) (elements st))
                (with_side side <$> byId st) (class_to_ids st) (counts st) in
  foldl push (relabel st) (List.map (with_side side) l)
  = relabel (foldl push st l).
Proof.
  cbn zeta. revert st. induction l as [|e l IH]; intros st; [done|].
  cbn [List.map foldl]. rewrite <- IH. f_equal. apply push_with_side.
Qed.

(** X7: the side label only labels: walking one document with two labels
    gives the same counts, the same [classToIds] and indices whose elements
    and [byId] values differ in the [side] field alone. *)
Theorem side_label_only_labels (root : Element) (s1 s2 : string) :
  tags_ok root = true ->
  exists r1 r2,
    walk_svg_groups root s1 = Ok r1
    /\ walk_svg_groups root s2 = Ok r2
    /\ idx_elements r2 = List.map (with_side s2) (idx_elements r1)
    /\ idx_byId r2 = with_side s2 <$> idx_byId r1
    /\ idx_classToIds r2 = idx_classToIds r1
    /\ idx_counts r2 = idx_counts r1.
Proof.
  intros Hok. eexists _, _.
  split; [by apply walk_svg_groups_groups_under|].
  split; [by apply walk_svg_groups_groups_under|].
  cbn zeta. cbn [idx_elements idx_byId idx_classToIds idx_counts].
  rewrite (groups_under_with_side s1 s2).
  pose proof (fold_with_side s2 (groups_under s1 [] root) empty_state) as Hfold.
  cbn zeta in Hfold. cbn [elements byId class_to_ids counts empty_state List.map]
    in Hfold.
  rewrite fmap_empty in Hfold. fold empty_state in Hfold. by rewrite Hfold.
Qed.

Lemma side_label_only_labels_witness :
  tags_ok sample_document = true
  /\ exists r1 r2,
    walk_svg_groups sample_document "front" = Ok r1
    /\ walk_svg_groups sample_document "back" = Ok r2
    /\ idx_elements r2 = List.map (with_side "back") (idx_elements r1)
    /\ idx_byId r2 = with_side "back" <$> idx_byId r1
    /\ idx_classToIds r2 = idx_classToIds r1
    /\ idx_counts r2 = idx_counts r1.
Proof.
  split; [reflexivity|].
  apply (side_label_only_labels sample_document "front" "back"). reflexivity.
Defined.

End WalkerMore.

(** ** Further properties of the tag normaliser and of the run *)

Section RunMore.
Import PyStr SvgIndexer Tree.
Context `{UnicodeData}.

Lemma split1_at_first sep u rest :
  contains (String sep "") u = false ->
  split1 sep (u ++ String sep rest) = [u; rest].
Proof.
  induction u as [|c r IH].
  - intros _. change ("" ++ String sep rest) with (String sep rest).
    cbn [split1]. by rewrite Ascii.eqb_refl.
  - change (String c r ++ String sep rest)
      with (String c (r ++ String sep rest)).
    cbn [contains split1]. rewrite startswith_char.
    intros [Hc Hr]%orb_false_iff. by rewrite Ascii.eqb_sym, Hc, (IH Hr).
Qed.

(** X8: a tag written [{uri}local], the uri free of closing braces, is
    normalised to [local]: [strip_ns] drops everything up to the first
    closing brace and keeps the rest as it is, later braces included. *)
Theorem strip_ns_drops_namespace (uri local : string) :
  contains "}" uri = false ->
  strip_ns ("{" ++ uri ++ "}" ++ local) = Ok local.
Proof.
  intros Huri. unfold strip_ns, NSBRACE_START.
  change ("{" ++ uri ++ "}" ++ local) with (String "{" uri ++ String "}" local).
  rewrite split1_at_first.
  - by destruct uri.
  - cbn [contains]. by rewrite startswith_char, Huri.
Qed.

Lemma strip_ns_drops_namespace_witness :
  contains "}" "http://www.w3.org/2000/svg" = false
  /\ strip_ns ("{" ++ "http://www.w3.org/2000/svg" ++ "}" ++ "g") = Ok "g".
Proof.
  split; [reflexivity|].
  apply (strip_ns_drops_namespace "http://www.w3.org/2000/svg" "g").
  reflexivity.
Defined.

Lemma configured_sides root_f root_b w p :
  fs_exists w FRONT_SVG = true -> et_parse w FRONT_SVG = inr root_f ->
  fs_exists w BACK_SVG = true -> et_parse w BACK_SVG = inr root_b ->
  parse_svg w FRONT_SVG None p = (Ok (root_f, "front"), p)
  /\ parse_svg w BACK_SVG None p = (Ok (root_b, "back"), p).
Proof.
  intros Hf1 Hf2 Hb1 Hb2. rewrite !parse_svg_cases, Hf1, Hf2, Hb1, Hb2.
  cbn [truthy_opt].
  assert (str_lower (basename FRONT_SVG) = "torso.svg") as ->
    by (by rewrite str_lower_ascii).
  assert (str_lower (basename BACK_SVG) = "torso_back.svg") as ->
    by (by rewrite str_lower_ascii).
  done.
Qed.

(** X9: when both configured documents exist and parse, [strip_ns] accepts
    all their tags, neither is nested deeper than the recursion limit
    leaves room for and the output path can be written, the run ends
    normally: the file at [OUTPUT_JSON] holds the index of the first document
    walked with side ["front"] under [front] and the index of the second
    walked with side ["back"] under [back]; no other file changes, the error
    stream is untouched and five lines go to standard output. *)
Theorem main_writes_both_indices (w : World) (p : Process)
    (root_f root_b : Element) :
  fs_exists w FRONT_SVG = true -> et_parse w FRONT_SVG = inr root_f ->
  fs_exists w BACK_SVG = true -> et_parse w BACK_SVG = inr root_b ->
  tags_ok root_f = true -> tags_ok root_b = true ->
  height root_f <= recursion_room w -> height root_b <= recursion_room w ->
  fs_writable w OUTPUT_JSON = true ->
  exists idx_front idx_back,
    walk_svg_groups root_f "front" = Ok idx_front
    /\ walk_svg_groups root_b "back" = Ok idx_back
    /\ main w p
       = (Ok tt,
          mkProcess (stderr p)
            (stdout p ++ [PWrote OUTPUT_JSON;
                          PCounts "front" (idx_counts idx_front);
                          PCounts "back" (idx_counts idx_back);
                          PPreview; PPreview])%list
            (<[OUTPUT_JSON := mkCombined idx_front idx_back]> (files p))).
Proof.
  intros Hf1 Hf2 Hb1 Hb2 Hokf Hokb Hroomf Hroomb Hw.
  destruct (configured_sides root_f root_b w p Hf1 Hf2 Hb1 Hb2) as [Hf Hb].
  eexists _, _.
  split; [by apply walk_svg_groups_refines|].
  split; [by apply walk_svg_groups_refines|].
  rewrite main_cases, Hf, Hb. cbn [fst snd].
  rewrite !walk_svg_groups_limited_enough by done.
  by rewrite !walk_svg_groups_refines, Hw by done.
Qed.

End RunMore.

Section RunMoreExamples.
Import PyStr SvgIndexer Tree.

Lemma main_writes_both_indices_witness :
  exists idx_front idx_back,
    walk_svg_groups sample_document "front" = Ok idx_front
    /\ walk_svg_groups (nested_example "g") "back" = Ok idx_back
    /\ main (mkWorld (fun _ => true) (fun _ => None)
               (fun path => if String.eqb path FRONT_SVG
                            then WellFormed sample_document
                            else WellFormed (nested_example "g"))
               (fun _ => true) 900) fresh
       = (Ok tt,
          mkProcess (stderr fresh)
            (stdout fresh ++ [PWrote OUTPUT_JSON;
                              PCounts "front" (idx_counts idx_front);
                              PCounts "back" (idx_counts idx_back);
                              PPreview; PPreview])%list
            (<[OUTPUT_JSON := mkCombined idx_front idx_back]> (files fresh))).
Proof.
  apply (main_writes_both_indices
           (mkWorld (fun _ => true) (fun _ => None)
              (fun path => if String.eqb path FRONT_SVG
                           then WellFormed sample_document
                           else WellFormed (nested_example "g"))
              (fun _ => true) 900)
           fresh sample_document (nested_example "g"));
    try reflexivity; cbn; lia.
Defined.

End RunMoreExamples.

(** ** Further properties of the two [slugify] functions *)

Section SlugifyMore.
Import PyStr Slug.
Context `{UnicodeData}.

Ltac by_char_cases c :=
  destruct c as [[] [] [] [] [] [] [] []]; vm_compute; congruence.

Let isd : ascii -> bool := Ascii.eqb "-".
Let cls : ascii -> bool := MakeMediaJson.not_a_z0_9.

Lemma slug_char_class c : negb (cls c) || isd c = is_slug_char c.
Proof. by_char_cases c. Qed.

Lemma lower_char_class c :
  cls (lower_char c) = negb (is_alnum c).
Proof. by_char_cases c. Qed.

Lemma slug_char_lower c : is_slug_char c = true -> lower_char c = c.
Proof. by_char_cases c. Qed.

Lemma slug_char_ascii c : is_slug_char c = true -> is_ascii_char c = true.
Proof. by_char_cases c. Qed.

Lemma slug_char_not_space c : is_slug_char c = true -> is_space c = false.
Proof. by_char_cases c. Qed.

(** Both functions, unfolded to the same expression. *)
Lemma slugify_csv_unfold s :
  MakeMediaJson.slugify s
  = strip isd (re_sub_plus cls "-" false (ascii_lower (ascii_text s))).
Proof.
  unfold MakeMediaJson.slugify, ascii_text.
  by rewrite str_lower_ascii by apply encode_ascii_ignore_is_ascii.
Qed.

Lemma slugify_xlsx_unfold s :
  XlsxLinksToJson.slugify s
  = strip isd (re_sub_plus cls "-" false (ascii_lower (ascii_text s))).
Proof.
  unfold XlsxLinksToJson.slugify, ascii_text.
  set (a := encode_ascii_ignore (nfkd s)).
  assert (is_ascii a = true) as Ha by apply encode_ascii_ignore_is_ascii.
  rewrite str_lower_strip_space by done.
  assert (strip is_space (ascii_lower a)
          = ascii_lower (strip is_space a)) as Hcomm.
  { unfold strip, ascii_lower.
    rewrite str_map_rstrip, str_map_lstrip; auto using lower_char_keeps_space. }
  rewrite Hcomm. unfold ascii_lower at 1.
  rewrite (re_sub_plus_map_ext XlsxLinksToJson.not_A_Za_z0_9
             MakeMediaJson.not_a_z0_9) by apply lower_char_classes_agree.
  rewrite re_sub_two_or_more_id
    by by apply (re_sub_plus_shape MakeMediaJson.not_a_z0_9).
  fold (ascii_lower (strip is_space a)). rewrite <- Hcomm.
  apply strip_space_invisible.
Qed.

(** *** The substitution as a join of words *)

Lemma join_cons_char c w ws :
  String c (String.concat "-" (w :: ws)) = String.concat "-" (String c w :: ws).
Proof. by destruct ws. Qed.

Lemma join_empty (ws : list string) :
  Forall (fun t => t <> "") ws ->
  String.concat "-" ws = "" -> ws = [].
Proof.
  destruct ws as [|w ws]; [done|]. intros [Hw _]%Forall_cons.
  destruct w as [|c w]; [done|]. by destruct ws.
Qed.

Lemma rstrip_keep c x : isd c = false -> rstrip isd (String c x) = String c (rstrip isd x).
Proof. intros Hc. by rewrite rstrip_cons, Hc. Qed.

Lemma re_sub_plus_head_free b c r :
  cls c = false ->
  re_sub_plus cls "-" b (String c r) = String c (re_sub_plus cls "-" false r).
Proof. intros Hc. simpl. by rewrite Hc. Qed.

(** After a match, and with the trailing dash stripped, the substitution
    is the words joined by dashes. *)
Lemma rstrip_re_sub_plus_join t :
  rstrip isd (re_sub_plus cls "-" true t)
  = String.concat "-" (Spec.tokens cls t).
Proof.
  induction t as [|c r IH]; [done|].
  cbn [Spec.tokens]. destruct (cls c) eqn:Hc.
  { simpl. by rewrite Hc. }
  rewrite re_sub_plus_head_free by done.
  rewrite rstrip_keep by by apply a_z0_9_not_dash.
  destruct r as [|d r']; [done|].
  destruct (cls d) eqn:Hd.
  - (* the word ends here *)
    assert (re_sub_plus cls "-" false (String d r')
            = String "-" (re_sub_plus cls "-" true (String d r'))) as ->.
    { simpl. by rewrite Hd. }
    rewrite rstrip_cons, IH. change (isd "-") with true. cbn [andb].
    pose proof (tokens_well_formed cls (String d r')) as Hwf.
    destruct (Spec.tokens cls (String d r')) as [|w ws] eqn:E; [done|].
    assert (String.concat "-" (w :: ws) <> "") as Hne.
    { intros Hnil. apply join_empty in Hnil; [done|].
      eapply Forall_impl; [exact Hwf|]. by intros ? []. }
    change (String.concat "-" (String c "" :: w :: ws))
      with (String c (String "-" (String.concat "-" (w :: ws)))).
    by destruct (String.concat "-" (w :: ws)).
  - (* the word goes on *)
    assert (re_sub_plus cls "-" false (String d r')
            = re_sub_plus cls "-" true (String d r')) as ->.
    { by rewrite !re_sub_plus_head_free. }
    rewrite IH.
    destruct (Spec.tokens cls (String d r')) as [|w ws] eqn:E.
    + exfalso. cbn [Spec.tokens] in E. rewrite Hd in E.
      destruct r' as [|e r'']; [done|]. destruct (cls e); [done|].
      by destruct (Spec.tokens cls (String e r'')).
    + apply join_cons_char.
Qed.

Lemma tokens_lstrip t : Spec.tokens cls (lstrip cls t) = Spec.tokens cls t.
Proof.
  induction t as [|c r IH]; [done|]. cbn [lstrip].
  destruct (cls c) eqn:Hc; [|done]. cbn [Spec.tokens]. by rewrite Hc.
Qed.

Lemma slug_of_text_join t :
  strip isd (re_sub_plus cls "-" false t)
  = String.concat "-" (Spec.tokens cls t).
Proof.
  unfold strip. rewrite (lstrip_re_sub_plus cls eq_refl).
  by rewrite rstrip_re_sub_plus_join, tokens_lstrip.
Qed.

(** X10: both [slugify] functions return the maximal runs of [a-z0-9] of the
    NFKD-normalised, ASCII-only, lower-cased text, in order, joined by single
    dashes; in particular they agree with each other, and nothing but the
    sequence of these words matters. *)
Theorem slugify_joins_words (s : string) :
  MakeMediaJson.slugify s
  = String.concat "-"
      (Spec.tokens MakeMediaJson.not_a_z0_9 (ascii_lower (ascii_text s)))
  /\ XlsxLinksToJson.slugify s
     = String.concat "-"
         (Spec.tokens MakeMediaJson.not_a_z0_9 (ascii_lower (ascii_text s))).
Proof.
  rewrite slugify_csv_unfold, slugify_xlsx_unfold.
  split; apply slug_of_text_join.
Qed.

(** *** Words and their join *)

Lemma word_char c :
  negb (cls c) = true -> is_slug_char c = true /\ Ascii.eqb c "-" = false.
Proof.
  destruct c as [[] [] [] [] [] [] [] []]; vm_compute;
    (intros; split; congruence).
Qed.

Lemma tokens_are_words t : Forall is_word (Spec.tokens cls t).
Proof. apply tokens_well_formed. Qed.

Lemma tokens_nil t : Spec.tokens cls t = [] <-> str_forallb cls t = true.
Proof.
  induction t as [|c r IH]; [done|]. cbn [Spec.tokens str_forallb].
  destruct (cls c); [by rewrite IH|]. cbn [andb].
  split; [|done]. destruct r as [|d r']; [done|].
  destruct (cls d); [done|]. by destruct (Spec.tokens cls (String d r')).
Qed.

Lemma tokens_word_then_dash w x :
  is_word w ->
  Spec.tokens cls (w ++ String "-" x) = w :: Spec.tokens cls x.
Proof.
  intros [Hne Hw]. fold cls in Hw. induction w as [|c w IH]; [done|]. clear Hne.
  cbn [str_forallb] in Hw. apply andb_true_iff in Hw as [Hc Hw].
  apply negb_true_iff in Hc.
  change (String c w ++ String "-" x) with (String c (w ++ String "-" x)).
  cbn [Spec.tokens]. rewrite Hc.
  destruct w as [|d w'].
  - change ("" ++ String "-" x) with (String "-" x).
    change (cls "-") with true. cbn [Spec.tokens]. by change (cls "-") with true.
  - change (String d w' ++ String "-" x) with (String d (w' ++ String "-" x)).
    cbn [str_forallb] in Hw. apply andb_true_iff in Hw as Hw'.
    destruct Hw' as [Hd _]. apply negb_true_iff in Hd. rewrite Hd.
    change (String d (w' ++ String "-" x)) with (String d w' ++ String "-" x).
    rewrite IH by done. done.
Qed.

Lemma tokens_word w : is_word w -> Spec.tokens cls w = [w].
Proof.
  intros [Hne Hw]. fold cls in Hw. induction w as [|c w IH]; [done|]. clear Hne.
  cbn [str_forallb] in Hw. apply andb_true_iff in Hw as [Hc Hw].
  apply negb_true_iff in Hc. cbn [Spec.tokens]. rewrite Hc.
  destruct w as [|d w']; [done|].
  cbn [str_forallb] in Hw. apply andb_true_iff in Hw as Hw'.
  destruct Hw' as [Hd _]. apply negb_true_iff in Hd. rewrite Hd.
  by rewrite IH.
Qed.

(** Splitting a join of words gives the words back. *)
Lemma tokens_join ws :
  Forall is_word ws -> Spec.tokens cls (String.concat "-" ws) = ws.
Proof.
  induction ws as [|w ws IH]; [done|]. intros [Hw Hws]%Forall_cons.
  destruct ws as [|w' ws']; [by apply tokens_word|].
  change (String.concat "-" (w :: w' :: ws'))
    with (w ++ String "-" (String.concat "-" (w' :: ws'))).
  by rewrite tokens_word_then_dash, IH.
Qed.

Lemma forallb_cons p c r : str_forallb p (String c r) = p c && str_forallb p r.
Proof. reflexivity. Qed.

Lemma no_double_cons c a r :
  no_double c (String a r)
  = negb (Ascii.eqb a c && startswith (String c "") r) && no_double c r.
Proof. reflexivity. Qed.

Lemma ends_with_char_cons c a b r :
  ends_with_char c (String a (String b r)) = ends_with_char c (String b r).
Proof. reflexivity. Qed.

Lemma word_shape w :
  is_word w ->
  str_forallb is_slug_char w = true
  /\ startswith "-" w = false /\ ends_with_char "-" w = false
  /\ no_double "-" w = true.
Proof.
  intros [Hne Hw]. fold cls in Hw. induction w as [|c w IH]; [done|]. clear Hne.
  rewrite forallb_cons in Hw. apply andb_true_iff in Hw as [Hc Hw].
  destruct (word_char c Hc) as [Hs Hd].
  rewrite forallb_cons, no_double_cons, startswith_char, Hs, Hd.
  rewrite (Ascii.eqb_sym "-" c), Hd.
  destruct w as [|d w']; [by cbn; rewrite Hd|].
  destruct IH as (I1 & I2 & I3 & I4); [done|done|].
  by rewrite ends_with_char_cons, I1, I3, I4.
Qed.

Lemma join_shape ws :
  Forall is_word ws ->
  str_forallb is_slug_char (String.concat "-" ws) = true
  /\ startswith "-" (String.concat "-" ws) = false
  /\ ends_with_char "-" (String.concat "-" ws) = false
  /\ no_double "-" (String.concat "-" ws) = true.
Proof.
  induction ws as [|w ws IH]; [done|]. intros [Hw Hws]%Forall_cons.
  destruct ws as [|w' ws']; [by apply word_shape|].
  destruct (IH Hws) as (I1 & I2 & I3 & I4).
  change (String.concat "-" (w :: w' :: ws'))
    with (w ++ String "-" (String.concat "-" (w' :: ws'))).
  set (rest := String.concat "-" (w' :: ws')) in *.
  assert (rest <> "") as Hrest.
  { intros Hnil. apply join_empty in Hnil; [done|].
    eapply Forall_impl; [exact Hws|]. by intros ? []. }
  clear IH Hws. destruct Hw as [Hne Hw]. fold cls in Hw.
  induction w as [|c w IHw]; [done|]. clear Hne.
  rewrite forallb_cons in Hw. apply andb_true_iff in Hw as [Hc Hw].
  destruct (word_char c Hc) as [Hs Hd].
  change (String c w ++ String "-" rest) with (String c (w ++ String "-" rest)).
  rewrite forallb_cons, no_double_cons, startswith_char, Hs, Hd.
  rewrite (Ascii.eqb_sym "-" c), Hd.
  destruct w as [|d w'0].
  - change ("" ++ String "-" rest) with (String "-" rest).
    rewrite ends_with_char_cons, forallb_cons, no_double_cons, I1, I4.
    rewrite Ascii.eqb_refl. cbn [andb negb].
    change (startswith "-" rest) with (startswith (String "-" "") rest) in I2.
    rewrite I2. destruct rest; [done|].
    by rewrite ends_with_char_cons, I3.
  - destruct IHw as (J1 & J2 & J3 & J4); [done|done|].
    change (String d w'0 ++ String "-" rest)
      with (String d (w'0 ++ String "-" rest)) in *.
    by rewrite ends_with_char_cons, J1, J3, J4.
Qed.

(** X11: a slug, from either function, is made of [a-z], [0-9] and dashes
    only, neither starts nor ends with a dash and has no two dashes in a
    row. *)
Theorem slug_shape (s : string) :
  (str_forallb is_slug_char (MakeMediaJson.slugify s) = true
   /\ startswith "-" (MakeMediaJson.slugify s) = false
   /\ ends_with_char "-" (MakeMediaJson.slugify s) = false
   /\ no_double "-" (MakeMediaJson.slugify s) = true)
  /\ (str_forallb is_slug_char (XlsxLinksToJson.slugify s) = true
      /\ startswith "-" (XlsxLinksToJson.slugify s) = false
      /\ ends_with_char "-" (XlsxLinksToJson.slugify s) = false
      /\ no_double "-" (XlsxLinksToJson.slugify s) = true).
Proof.
  rewrite slugify_csv_unfold, slugify_xlsx_unfold, slug_of_text_join.
  split; apply join_shape, tokens_are_words.
Qed.

(** X12: a slug is empty exactly when the NFKD-normalised text has no ASCII
    letter or digit: such names, whatever they are, all get the key [""]. *)
Theorem slug_empty_iff_no_alnum (s : string) :
  (MakeMediaJson.slugify s = ""
   <-> str_forallb (fun c => negb (is_alnum c)) (ascii_text s) = true)
  /\ (XlsxLinksToJson.slugify s = ""
      <-> str_forallb (fun c => negb (is_alnum c)) (ascii_text s) = true).
Proof.
  rewrite slugify_csv_unfold, slugify_xlsx_unfold, slug_of_text_join.
  assert (String.concat "-" (Spec.tokens cls (ascii_lower (ascii_text s))) = ""
          <-> str_forallb (fun c => negb (is_alnum c)) (ascii_text s) = true)
    as Hiff; [|done].
  assert (str_forallb cls (ascii_lower (ascii_text s))
          = str_forallb (fun c => negb (is_alnum c)) (ascii_text s)) as <-.
  { unfold ascii_lower. induction (ascii_text s) as [|c r IH]; [done|].
    cbn [str_map]. by rewrite !forallb_cons, lower_char_class, IH. }
  rewrite <- tokens_nil. split; [|by intros ->].
  apply join_empty. eapply Forall_impl; [apply tokens_are_words|].
  by intros ? [].
Qed.

(** Re-slugging a join of words gives it back, provided normalisation
    leaves ASCII text alone. *)
Lemma slug_text_fixed ws :
  (forall t, is_ascii t = true -> nfkd t = t) ->
  Forall is_word ws ->
  ascii_lower (ascii_text (String.concat "-" ws)) = String.concat "-" ws.
Proof.
  intros Hnfkd Hws. destruct (join_shape ws Hws) as (Hchars & _).
  set (o := String.concat "-" ws) in *.
  assert (is_ascii o = true) as Hascii.
  { unfold is_ascii. clear -Hchars. induction o as [|c r IH]; [done|].
    rewrite forallb_cons in *. apply andb_true_iff in Hchars as [Hc Hr].
    by rewrite (slug_char_ascii c Hc), IH. }
  unfold ascii_text. rewrite (Hnfkd o Hascii).
  assert (encode_ascii_ignore o = o) as ->.
  { unfold encode_ascii_ignore. clear -Hascii. unfold is_ascii in Hascii.
    induction o as [|c r IH]; [done|].
    rewrite forallb_cons in Hascii. apply andb_true_iff in Hascii as [Hc Hr].
    cbn [str_filter]. by rewrite Hc, IH. }
  unfold ascii_lower. clear -Hchars. induction o as [|c r IH]; [done|].
  rewrite forallb_cons in Hchars. apply andb_true_iff in Hchars as [Hc Hr].
  cbn [str_map]. by rewrite (slug_char_lower c Hc), IH.
Qed.

(** X13: slugging is idempotent, for both functions and across them, as
    soon as NFKD normalisation leaves pure ASCII text unchanged: a slug is
    its own slug. *)
Theorem slugify_idempotent (s : string) :
  (forall t, is_ascii t = true -> nfkd t = t) ->
  MakeMediaJson.slugify (MakeMediaJson.slugify s) = MakeMediaJson.slugify s
  /\ XlsxLinksToJson.slugify (XlsxLinksToJson.slugify s)
     = XlsxLinksToJson.slugify s
  /\ XlsxLinksToJson.slugify (MakeMediaJson.slugify s)
     = MakeMediaJson.slugify s.
Proof.
  intros Hnfkd.
  rewrite !slugify_csv_unfold, !slugify_xlsx_unfold, !slug_of_text_join.
  set (ws := Spec.tokens cls (ascii_lower (ascii_text s))).
  assert (Forall is_word ws) as Hws by apply tokens_are_words.
  by rewrite slug_text_fixed, tokens_join.
Qed.

End SlugifyMore.

Section SlugifyExamples.
Import PyStr Slug.

Lemma slugify_idempotent_witness :
  (forall t, is_ascii t = true -> nfkd t = t)
  /\ MakeMediaJson.slugify
       (MakeMediaJson.slugify "Stability Ball  Russian-Twist!")
     = MakeMediaJson.slugify "Stability Ball  Russian-Twist!".
Proof.
  assert (forall t, is_ascii t = true -> nfkd t = t) as Hnfkd by done.
  split; [exact Hnfkd|].
  apply (slugify_idempotent "Stability Ball  Russian-Twist!" Hnfkd).
Defined.

End SlugifyExamples.

(** ** Video ids *)

Section YoutubeId.
Import PyStr MediaJson.

Lemma take_while_forallb p s : str_forallb p (take_while p s) = true.
Proof.
  induction s as [|c r IH]; [done|]. simpl.
  destruct (p c) eqn:Hc; [|done]. simpl. by rewrite Hc.
Qed.

Lemma take_while_length p s :
  String.length (take_while p s) <= String.length s.
Proof.
  induction s as [|c r IH]; [done|]. simpl. destruct (p c); simpl; lia.
Qed.

Lemma take_while_prefix p s : String.prefix (take_while p s) s = true.
Proof.
  induction s as [|c r IH]; [done|]. simpl. destruct (p c); [|done].
  simpl. by destruct (ascii_dec c c).
Qed.

(** The run stops where the id stops. *)
Lemma take_while_app p v rest :
  str_forallb p v = true -> head_in p rest = false ->
  take_while p (v ++ rest) = v.
Proof.
  intros Hv Hrest. induction v as [|c v IH].
  - destruct rest as [|d r]; [done|]. simpl in *. by rewrite Hrest.
  - simpl in Hv. apply andb_true_iff in Hv as [Hc Hv].
    change (String c v ++ rest) with (String c (v ++ rest)).
    simpl. by rewrite Hc, IH.
Qed.

Lemma match_id_some s v :
  match_id s = Some v ->
  6 <= String.length v /\ str_forallb is_id_char v = true
  /\ String.prefix v s = true.
Proof.
  unfold match_id. destruct (6 <=? _)%nat eqn:Hlen; [|done].
  intros [= <-]. apply Nat.leb_le in Hlen.
  split; [done|]. split; [apply take_while_forallb|apply take_while_prefix].
Qed.

Lemma forallb_app p s t :
  str_forallb p (s ++ t) = str_forallb p s && str_forallb p t.
Proof.
  induction s as [|c s IH]; [done|].
  change (String c s ++ t) with (String c (s ++ t)). simpl.
  by rewrite IH, andb_assoc.
Qed.

Lemma strip_prefix_some lit s r : strip_prefix lit s = Some r -> s = lit ++ r.
Proof.
  revert s. induction lit as [|a lit IH]; intros s; simpl.
  - by intros [= ->].
  - destruct s as [|b s]; [done|].
    destruct (Ascii.eqb_spec a b) as [->|]; [|done].
    intros Hr. by rewrite (IH _ Hr).
Qed.

Lemma strip_prefix_app lit r : strip_prefix lit (lit ++ r) = Some r.
Proof.
  induction lit as [|a lit IH]; [done|]. simpl. by rewrite Ascii.eqb_refl.
Qed.

Lemma prefix_refl s : String.prefix s s = true.
Proof. induction s as [|c s IH]; [done|]. simpl. by destruct (ascii_dec c c). Qed.

Lemma prefix_length v s :
  String.prefix v s = true -> String.length v <= String.length s.
Proof.
  revert s. induction v as [|c v IH]; intros s; [simpl; lia|].
  destruct s as [|d s]; [done|]. simpl.
  destruct (ascii_dec c d); [|done].
  intros Hp%IH. lia.
Qed.

Lemma contains_prefix v s : String.prefix v s = true -> contains v s = true.
Proof. intros Hp. destruct s; cbn [contains]; by rewrite Hp. Qed.

Lemma contains_cons v c s : contains v s = true -> contains v (String c s) = true.
Proof. intros Hc. cbn [contains]. rewrite Hc. apply orb_true_r. Qed.

Lemma contains_app v lit s : contains v s = true -> contains v (lit ++ s) = true.
Proof.
  intros Hc. induction lit as [|a lit IH]; [done|].
  change (String a lit ++ s) with (String a (lit ++ s)). by apply contains_cons.
Qed.

Lemma contains_length v s :
  contains v s = true -> String.length v <= String.length s.
Proof.
  induction s as [|c s IH]; cbn [contains].
  - rewrite orb_false_r. intros Hp%prefix_length. done.
  - intros [Hp%prefix_length|Hc%IH]%orb_true_iff; [done|]. simpl. lia.
Qed.

Lemma after_some lit s v : after lit s = Some v -> id_within s v.
Proof.
  unfold after. destruct (strip_prefix lit s) as [r|] eqn:E; [|done].
  apply strip_prefix_some in E as ->.
  intros (Hlen & Hchars & Hpre)%match_id_some. split; [done|]. split; [done|].
  by apply contains_app, contains_prefix.
Qed.

Lemma match_v_param_some s v : match_v_param s = Some v -> id_within s v.
Proof.
  destruct s as [|c r]; [done|]. simpl.
  destruct (Ascii.eqb c "?" || Ascii.eqb c "&"); [|done].
  intros (Hlen & Hchars & Hin)%after_some. split; [done|]. split; [done|].
  by apply contains_cons.
Qed.

Lemma match_path_some s v : match_path s = Some v -> id_within s v.
Proof.
  unfold match_path. destruct (after "youtu.be/" s) as [v'|] eqn:E1.
  { intros [= <-]. by apply after_some in E1. }
  destruct (strip_prefix "youtube.com/" s) as [r|] eqn:E2; [|done].
  apply strip_prefix_some in E2 as ->.
  intros Hv.
  assert (id_within r v) as (Hlen & Hchars & Hin).
  { destruct (after "embed/" r) as [v'|] eqn:E3.
    - injection Hv as <-. by apply after_some in E3.
    - by apply after_some in Hv. }
  split; [done|]. split; [done|]. by apply contains_app.
Qed.

Lemma re_search_some m s v :
  (forall t u, m t = Some u -> id_within t u) ->
  re_search m s = Some v -> id_within s v.
Proof.
  intros Hm. induction s as [|c s IH]; simpl.
  - destruct (m "") eqn:E; [|done]. intros [= <-]. by apply Hm.
  - destruct (m (String c s)) eqn:E.
    + intros [= <-]. by apply Hm.
    + intros (Hlen & Hchars & Hin)%IH. split; [done|]. split; [done|].
      by apply contains_cons.
Qed.

Lemma youtube_id_some url v : youtube_id url = Some v -> id_within url v.
Proof.
  unfold youtube_id. destruct (negb (truthy url)); [done|].
  destruct (re_search match_v_param url) as [v1|] eqn:E1.
  { intros [= <-]. eapply re_search_some; [|done]. apply match_v_param_some. }
  destruct (re_search match_path url) as [v2|] eqn:E2.
  { intros [= <-]. eapply re_search_some; [|done]. apply match_path_some. }
  unfold fullmatch_id.
  destruct (str_forallb is_id_char url && _) eqn:E3; [|done].
  intros [= <-]. apply andb_true_iff in E3 as [Hchars Hlen%Nat.leb_le].
  split; [done|]. split; [done|]. apply contains_prefix, prefix_refl.
Qed.

(** No match anywhere in a text none of whose tails matches. *)
Lemma re_search_none (p : ascii -> bool) m s :
  (forall t, str_forallb p t = true -> m t = None) ->
  str_forallb p s = true -> re_search m s = None.
Proof.
  intros Hm. induction s as [|c s IH]; intros Hs; simpl.
  - by rewrite (Hm "").
  - rewrite (Hm _ Hs). simpl in Hs. apply andb_true_iff in Hs as [_ Hs].
    by apply IH.
Qed.

(** The search skips a stretch where no match can start. *)
Lemma re_search_skip (p : ascii -> bool) m pre s :
  (forall c r, p c = true -> m (String c r) = None) ->
  str_forallb p pre = true -> re_search m (pre ++ s) = re_search m s.
Proof.
  intros Hm. induction pre as [|c pre IH]; intros Hpre; [done|].
  simpl in Hpre. apply andb_true_iff in Hpre as [Hc Hpre].
  change (String c pre ++ s) with (String c (pre ++ s)).
  cbn [re_search]. by rewrite (Hm _ _ Hc), IH.
Qed.

Lemma id_has_no_literal lit t r :
  str_forallb is_id_char lit = false ->
  str_forallb is_id_char t = true -> strip_prefix lit t = Some r -> False.
Proof.
  intros Hlit Ht ->%strip_prefix_some. rewrite forallb_app in Ht.
  apply andb_true_iff in Ht as [Ht _]. congruence.
Qed.

Lemma match_v_param_none_in_id t :
  str_forallb is_id_char t = true -> match_v_param t = None.
Proof.
  destruct t as [|c r]; [done|]. simpl. intros [Hc _]%andb_true_iff.
  assert (Ascii.eqb c "?" || Ascii.eqb c "&" = false) as ->; [|done].
  clear -Hc. revert Hc.
  destruct c as [[] [] [] [] [] [] [] []]; vm_compute; congruence.
Qed.

Lemma match_path_none_in_id t :
  str_forallb is_id_char t = true -> match_path t = None.
Proof.
  intros Ht. unfold match_path, after.
  destruct (strip_prefix "youtu.be/" t) eqn:E1.
  { exfalso. by eapply (id_has_no_literal "youtu.be/"). }
  destruct (strip_prefix "youtube.com/" t) eqn:E2; [|done].
  exfalso. by eapply (id_has_no_literal "youtube.com/").
Qed.

Lemma youtube_id_of_id v :
  fullmatch_id v = true -> youtube_id v = Some v.
Proof.
  intros Hfull. unfold youtube_id. rewrite Hfull.
  apply andb_true_iff in Hfull as [Hchars Hlen%Nat.leb_le].
  assert (truthy v = true) as -> by (destruct v; [simpl in Hlen; lia|done]).
  cbn [negb].
  rewrite (re_search_none is_id_char match_v_param)
    by (done || apply match_v_param_none_in_id).
  by rewrite (re_search_none is_id_char match_path)
    by (done || apply match_path_none_in_id).
Qed.

(** X14: whatever [youtube_id] returns is a piece of the url, at least six
    characters long and made of [A-Za-z0-9_-] only. *)
Theorem youtube_id_is_id_within_url (url v : string) :
  youtube_id url = Some v ->
  6 <= String.length v
  /\ str_forallb is_id_char v = true
  /\ contains v url = true.
Proof. apply youtube_id_some. Qed.

Lemma youtube_id_is_id_within_url_witness :
  youtube_id "https://youtu.be/dQw4w9WgXcQ?si=abc" = Some "dQw4w9WgXcQ"
  /\ 6 <= String.length "dQw4w9WgXcQ"
  /\ str_forallb is_id_char "dQw4w9WgXcQ" = true
  /\ contains "dQw4w9WgXcQ" "https://youtu.be/dQw4w9WgXcQ?si=abc" = true.
Proof.
  split; [reflexivity|].
  apply (youtube_id_is_id_within_url "https://youtu.be/dQw4w9WgXcQ?si=abc").
  reflexivity.
Defined.

(** X15: a bare id (six or more characters of [A-Za-z0-9_-]) is returned as
    it is, so [youtube_id] is idempotent: applied to its own result it
    returns it again. *)
Theorem youtube_id_keeps_ids :
  (forall v, fullmatch_id v = true -> youtube_id v = Some v)
  /\ (forall url v, youtube_id url = Some v -> youtube_id v = Some v).
Proof.
  split; [apply youtube_id_of_id|].
  intros url v (Hlen & Hchars & _)%youtube_id_some.
  apply youtube_id_of_id. unfold fullmatch_id. rewrite Hchars.
  by apply Nat.leb_le.
Qed.

Lemma youtube_id_keeps_ids_witness :
  youtube_id "dQw4w9WgXcQ" = Some "dQw4w9WgXcQ".
Proof. apply (proj1 youtube_id_keeps_ids). reflexivity. Defined.

(** X16: an url shorter than six characters, the empty one included, has no
    video id. *)
Theorem youtube_id_short_url (url : string) :
  String.length url < 6 -> youtube_id url = None.
Proof.
  intros Hshort. destruct (youtube_id url) as [v|] eqn:E; [|done].
  apply youtube_id_some in E as (Hlen & _ & Hin%contains_length). lia.
Qed.

Lemma youtube_id_short_url_witness :
  String.length "?v=ab" < 6 /\ youtube_id "?v=ab" = None.
Proof.
  split; [vm_compute; lia|]. apply (youtube_id_short_url "?v=ab").
  vm_compute. lia.
Defined.

Lemma truthy_app_cons pre c s : truthy (pre ++ String c s) = true.
Proof. by destruct pre. Qed.

(** X17: the [v=] parameter: when nothing before it contains [?] or [&],
    the id that follows [?v=] or [&v=] is returned whole, up to the first
    character that cannot be part of an id; it wins over any [youtu.be/]
    or [youtube.com/embed/] path found earlier in the url. *)
Theorem youtube_id_v_param (pre : string) (sep : ascii) (v rest : string) :
  str_forallb (fun c => negb (Ascii.eqb c "?" || Ascii.eqb c "&")) pre = true ->
  sep = "?"%char \/ sep = "&"%char ->
  fullmatch_id v = true ->
  head_in is_id_char rest = false ->
  youtube_id (pre ++ String sep ("v=" ++ v ++ rest)) = Some v.
Proof.
  intros Hpre Hsep Hv Hrest. unfold youtube_id.
  rewrite truthy_app_cons. cbn [negb].
  apply andb_true_iff in Hv as [Hchars Hlen].
  rewrite (re_search_skip
             (fun c => negb (Ascii.eqb c "?" || Ascii.eqb c "&")));
    [|intros c r Hc; simpl; by apply negb_true_iff in Hc as ->|done].
  assert (match_v_param (String sep ("v=" ++ v ++ rest)) = Some v) as Hhere.
  { assert (Ascii.eqb sep "?" || Ascii.eqb sep "&" = true) as Hs
      by by destruct Hsep as [->| ->].
    cbn [match_v_param]. rewrite Hs. unfold after.
    rewrite strip_prefix_app. unfold match_id.
    by rewrite take_while_app, Hlen. }
  cbn [re_search]. by rewrite Hhere.
Qed.

Lemma youtube_id_v_param_witness :
  str_forallb (fun c => negb (Ascii.eqb c "?" || Ascii.eqb c "&"))
    "https://youtu.be/otherVIDEO1/watch" = true
  /\ fullmatch_id "dQw4w9WgXcQ" = true
  /\ head_in is_id_char "&t=3" = false
  /\ youtube_id
       ("https://youtu.be/otherVIDEO1/watch"
        ++ String "?" ("v=" ++ "dQw4w9WgXcQ" ++ "&t=3"))
     = Some "dQw4w9WgXcQ".
Proof.
  split; [reflexivity|]. split; [reflexivity|]. split; [reflexivity|].
  apply (youtube_id_v_param "https://youtu.be/otherVIDEO1/watch" "?"
           "dQw4w9WgXcQ" "&t=3"); (reflexivity || by left).
Defined.

(** X18: the path forms: in an url without [?] and [&], no [y] before the
    host, the id that follows [youtu.be/], [youtube.com/embed/] or
    [youtube.com/shorts/] is returned whole, up to the first character that
    cannot be part of an id. *)
Theorem youtube_id_path (pre lit v rest : string) :
  str_forallb
    (fun c => negb (Ascii.eqb c "?" || Ascii.eqb c "&" || Ascii.eqb c "y"))
    pre = true ->
  lit = "youtu.be/" \/ lit = "youtube.com/embed/" \/ lit = "youtube.com/shorts/" ->
  fullmatch_id v = true ->
  head_in is_id_char rest = false ->
  str_forallb (fun c => negb (Ascii.eqb c "?" || Ascii.eqb c "&")) rest = true ->
  youtube_id (pre ++ lit ++ v ++ rest) = Some v.
Proof.
  intros Hpre Hlit Hv Hrest Hquery. unfold youtube_id.
  apply andb_true_iff in Hv as [Hchars Hlen].
  assert (truthy (pre ++ lit ++ v ++ rest) = true) as ->.
  { destruct Hlit as [->|[->| ->]]; apply truthy_app_cons. }
  cbn [negb].
  set (noq := fun c => negb (Ascii.eqb c "?" || Ascii.eqb c "&")) in *.
  assert (str_forallb noq (pre ++ lit ++ v ++ rest) = true) as Hnoq.
  { rewrite !forallb_app, Hquery.
    assert (str_forallb noq pre = true) as ->.
    { clear -Hpre. induction pre as [|c pre IH]; [done|]. simpl in *.
      apply andb_true_iff in Hpre as [Hc Hpre]. rewrite IH by done.
      unfold noq. apply negb_true_iff in Hc.
      apply orb_false_iff in Hc as [-> _]. done. }
    assert (str_forallb noq lit = true) as ->
      by by destruct Hlit as [->|[->| ->]].
    assert (str_forallb noq v = true) as ->; [|done].
    clear -Hchars. induction v as [|c v IH]; [done|]. simpl in *.
    apply andb_true_iff in Hchars as [Hc Hv]. rewrite IH by done.
    assert (noq c = true) as ->; [|done]. clear -Hc. revert Hc.
    destruct c as [[] [] [] [] [] [] [] []]; vm_compute; congruence. }
  rewrite (re_search_none noq match_v_param); [|clear|done].
  2:{ intros [|c r]; [done|]. simpl. intros [Hc _]%andb_true_iff.
      unfold noq in Hc. by apply negb_true_iff in Hc as ->. }
  rewrite (re_search_skip
             (fun c => negb (Ascii.eqb c "?" || Ascii.eqb c "&"
                             || Ascii.eqb c "y")));
    [| |done].
  2:{ intros c r Hc. apply negb_true_iff, orb_false_iff in Hc as [_ Hy].
      unfold match_path, after. cbn [strip_prefix].
      by rewrite Ascii.eqb_sym, Hy. }
  assert (match_id (v ++ rest) = Some v) as Hid.
  { unfold match_id. by rewrite take_while_app, Hlen. }
  assert (match_path (lit ++ v ++ rest) = Some v) as Hhere.
  { unfold match_path, after.
    destruct Hlit as [->|[->| ->]].
    - by rewrite strip_prefix_app, Hid.
    - change ("youtube.com/embed/" ++ v ++ rest)
        with ("youtube.com/" ++ "embed/" ++ v ++ rest).
      assert (strip_prefix "youtu.be/" ("youtube.com/" ++ "embed/" ++ v ++ rest)
              = None) as -> by done.
      by rewrite !strip_prefix_app, Hid.
    - change ("youtube.com/shorts/" ++ v ++ rest)
        with ("youtube.com/" ++ "shorts/" ++ v ++ rest).
      assert (strip_prefix "youtu.be/" ("youtube.com/" ++ "shorts/" ++ v ++ rest)
              = None) as -> by done.
      rewrite !strip_prefix_app.
      assert (strip_prefix "embed/" ("shorts/" ++ v ++ rest) = None) as ->
        by done.
      by rewrite Hid. }
  destruct (lit ++ v ++ rest) eqn:E; cbn [re_search]; by rewrite Hhere.
Qed.

Lemma youtube_id_path_witness :
  str_forallb
    (fun c => negb (Ascii.eqb c "?" || Ascii.eqb c "&" || Ascii.eqb c "y"))
    "https://www." = true
  /\ fullmatch_id "abcdEF_-12" = true
  /\ head_in is_id_char "/" = false
  /\ youtube_id ("https://www." ++ "youtube.com/shorts/" ++ "abcdEF_-12" ++ "/")
     = Some "abcdEF_-12".
Proof.
  split; [reflexivity|]. split; [reflexivity|]. split; [reflexivity|].
  apply (youtube_id_path "https://www." "youtube.com/shorts/" "abcdEF_-12" "/");
    try reflexivity.
  right. by right.
Defined.

End YoutubeId.

(** ** The media map *)

Section MediaMap.
Import PyStr MediaJson.
Context `{UnicodeData}.
Variable str_strip : string -> string.
#[local] Open Scope list_scope.

Lemma row_fate_stored row key vid :
  row_fate_of str_strip row = Stored key vid
  <-> field str_strip row EXERCISE_COL <> ""
      /\ field str_strip row YOUTUBE_COL <> ""
      /\ youtube_id (field str_strip row YOUTUBE_COL) = Some vid
      /\ key = MakeMediaJson.slugify (field str_strip row EXERCISE_COL).
Proof.
  unfold row_fate_of.
  destruct (field str_strip row EXERCISE_COL) as [|c name] eqn:En;
    [by split; [|intros []]|].
  destruct (field str_strip row YOUTUBE_COL) as [|d url] eqn:Eu;
    [by split; [|intros (_ & ? & _)]|].
  cbn [truthy negb orb].
  destruct (youtube_id (String d url)) as [v|] eqn:Ev;
    [|by split; [|intros (_ & _ & ? & _)]].
  assert (truthy v = true) as ->.
  { apply youtube_id_some in Ev as (Hlen & _). destruct v; [simpl in Hlen; lia|done]. }
  split.
  - by intros [= <- <-].
  - by intros (_ & _ & [= ->] & ->).
Qed.

Lemma stored_cons row rows :
  stored str_strip (row :: rows)
  = match row_fate_of str_strip row with
    | Stored key vid => (key, vid) :: stored str_strip rows
    | _ => stored str_strip rows
    end.
Proof. unfold stored. csimpl. by destruct (row_fate_of str_strip row). Qed.

Lemma warned_cons row rows :
  warned str_strip (row :: rows)
  = match row_fate_of str_strip row with
    | Warned url name => CouldNotParse url name :: warned str_strip rows
    | _ => warned str_strip rows
    end.
Proof. unfold warned. csimpl. by destruct (row_fate_of str_strip row). Qed.

Lemma fold_row_step rows m printed :
  foldl (row_step str_strip) (m, printed) rows
  = (foldl (fun m kv => <[kv.1 := mkEntry kv.2]> m) m (stored str_strip rows),
     printed ++ warned str_strip rows).
Proof.
  revert m printed. induction rows as [|row rows IH]; intros m printed.
  { cbn. by rewrite app_nil_r. }
  cbn [foldl]. rewrite stored_cons, warned_cons. unfold row_step at 2.
  destruct (row_fate_of str_strip row) as [|url name|key vid];
    cbn [fst snd]; rewrite IH; [done| |done].
  by rewrite <- app_assoc.
Qed.

(** *** Inserting the stored rows one after the other *)

Let put (m : gmap string MediaEntry) (kv : string * string) :=
  <[kv.1 := mkEntry kv.2]> m.

Lemma fold_put_sound l m0 k e :
  foldl put m0 l !! k = Some e ->
  m0 !! k = Some e \/ (k, youtubeShort e) ∈ l.
Proof.
  revert m0. induction l as [|[k' v] l IH]; intros m0; cbn [foldl]; [by left|].
  intros [Hm|Hin]%IH; [|right; by right].
  unfold put in Hm. cbn [fst snd] in Hm.
  destruct (decide (k' = k)) as [->|Hne].
  - rewrite lookup_insert_eq in Hm. injection Hm as <-. right. by left.
  - rewrite lookup_insert_ne in Hm by done. by left.
Qed.

Lemma put_size m kv :
  size (put m kv) = match m !! kv.1 with
                    | Some _ => size m
                    | None => S (size m)
                    end.
Proof.
  unfold put. destruct (m !! kv.1) eqn:E.
  - by rewrite map_size_insert_Some.
  - by rewrite map_size_insert_None.
Qed.

Lemma fold_put_size l m0 : size (foldl put m0 l) <= size m0 + length l.
Proof.
  revert m0. induction l as [|kv l IH]; intros m0; cbn [foldl length]; [lia|].
  etransitivity; [apply IH|]. rewrite put_size.
  destruct (m0 !! kv.1); lia.
Qed.

Lemma fold_put_size_distinct l m0 :
  NoDup l.*1 -> (forall k, k ∈ l.*1 -> m0 !! k = None) ->
  size (foldl put m0 l) = size m0 + length l.
Proof.
  revert m0. induction l as [|[k v] l IH]; intros m0; cbn [foldl length];
    [intros; lia|].
  csimpl. intros [Hk Hnd]%NoDup_cons Hfresh.
  rewrite IH; [|done|].
  - rewrite put_size. cbn [fst]. rewrite Hfresh; [lia|by left].
  - intros k' Hk'. unfold put. cbn [fst snd].
    rewrite lookup_insert_ne; [apply Hfresh; by right|].
    intros ->. done.
Qed.

Lemma omap_length {A B} (f : A -> option B) (l : list A) :
  length (omap f l) <= length l.
Proof.
  induction l as [|x l IH]; [done|]. csimpl. destruct (f x); simpl; lia.
Qed.

Lemma stored_warned_length rows :
  length (stored str_strip rows) + length (warned str_strip rows)
  <= length rows.
Proof.
  induction rows as [|row rows IH]; [done|].
  rewrite stored_cons, warned_cons.
  destruct (row_fate_of str_strip row); simpl; lia.
Qed.

Lemma stored_elem k vid rows :
  (k, vid) ∈ stored str_strip rows
  <-> exists row, row ∈ rows /\ row_fate_of str_strip row = Stored k vid.
Proof.
  unfold stored. rewrite list_elem_of_omap. split.
  - intros (row & Hin & Hf). exists row. split; [done|].
    destruct (row_fate_of str_strip row); congruence.
  - intros (row & Hin & Hf). exists row. split; [done|]. by rewrite Hf.
Qed.

(** The last stored row with a key decides its entry. *)
Lemma fold_row_step_last rows st i row k vid :
  rows !! i = Some row -> row_fate_of str_strip row = Stored k vid ->
  exists j row' vid',
    i <= j /\ rows !! j = Some row'
    /\ row_fate_of str_strip row' = Stored k vid'
    /\ (foldl (row_step str_strip) st rows).1 !! k = Some (mkEntry vid')
    /\ forall j' row'' vid'',
         j < j' -> rows !! j' = Some row'' ->
         row_fate_of str_strip row'' <> Stored k vid''.
Proof.
  revert i row vid.
  induction rows as [|x rows IH] using rev_ind; intros i row vid Hi Hf; [done|].
  rewrite foldl_app. cbn [foldl].
  apply lookup_lt_Some in Hi as Hlen. rewrite length_app in Hlen.
  simpl in Hlen.
  assert (forall j' row'' , length rows < j' ->
            (rows ++ [x]) !! j' = Some row'' -> False) as Hend.
  { intros j' row'' Hj' Hl%lookup_lt_Some. rewrite length_app in Hl.
    simpl in Hl. lia. }
  assert ((exists v, row_fate_of str_strip x = Stored k v)
          \/ ~ (exists v, row_fate_of str_strip x = Stored k v))
    as [[v Hx]|Hx].
  { destruct (row_fate_of str_strip x) as [| |k' v'];
      [right; by intros [? ?]..|].
    destruct (decide (k' = k)) as [->|Hne]; [left; by exists v'|].
    right. intros [? [= ? ?]]. done. }
  - exists (length rows), x, v. split; [lia|].
    split; [by apply list_lookup_middle|]. split; [done|]. split.
    + unfold row_step. rewrite Hx. cbn [fst]. apply lookup_insert_eq.
    + intros j' row'' vid'' Hj' Hl. exfalso. by eapply Hend.
  - assert (i < length rows) as Hlt.
    { destruct (decide (i = length rows)) as [->|]; [|lia].
      rewrite list_lookup_middle in Hi by done. injection Hi as ->.
      exfalso. apply Hx. by exists vid. }
    rewrite lookup_app_l in Hi by done.
    destruct (IH i row vid Hi Hf) as (j & row' & vid' & Hij & Hj & Hf' & Hm & Hlast).
    exists j, row', vid'. split; [done|].
    split; [by apply lookup_app_l_Some|]. split; [done|]. split.
    + unfold row_step.
      destruct (row_fate_of str_strip x) as [| |k' v'] eqn:E; [done|done|].
      cbn [fst]. rewrite lookup_insert_ne; [done|].
      intros ->. apply Hx. by exists v'.
    + intros j' row'' vid'' Hj' Hl.
      destruct (decide (j' < length rows)) as [Hjl|Hjl].
      * rewrite lookup_app_l in Hl by done. by eapply Hlast.
      * destruct (decide (j' = length rows)) as [->|];
          [|exfalso; eapply (Hend j'); [lia|done]].
        rewrite list_lookup_middle in Hl by done. injection Hl as <-.
        intros Hf''. apply Hx. by exists vid''.
Qed.

Lemma main_written names rows out out' m printed :
  main str_strip (Some names) rows out = Written out' m printed ->
  out' = out
  /\ m = (foldl (row_step str_strip) (∅, []) rows).1
  /\ printed = warned str_strip rows ++ [WroteEntries out (size m)].
Proof.
  unfold main. destruct (negb _ || negb _); [done|].
  intros [= <- <- <-]. by rewrite fold_row_step.
Qed.

(** X19: every entry of the written media map comes from a row: its key is
    the slug of the row's stripped, non-empty exercise name, hence made of
    [a-z0-9-] only, and its [youtubeShort] is what [youtube_id] found in the
    row's stripped, non-empty url, hence a well-formed id. *)
Theorem media_map_entries_come_from_rows (names : list string)
    (rows : list (gmap string string)) (out out' : string)
    (m : gmap string MediaEntry) (printed : list line) :
  main str_strip (Some names) rows out = Written out' m printed ->
  forall k e,
    m !! k = Some e ->
    (exists row,
        row ∈ rows
        /\ field str_strip row EXERCISE_COL <> ""
        /\ field str_strip row YOUTUBE_COL <> ""
        /\ youtube_id (field str_strip row YOUTUBE_COL) = Some (youtubeShort e)
        /\ k = MakeMediaJson.slugify (field str_strip row EXERCISE_COL))
    /\ str_forallb Slug.is_slug_char k = true
    /\ 6 <= String.length (youtubeShort e)
    /\ str_forallb is_id_char (youtubeShort e) = true.
Proof.
  intros (_ & -> & _)%main_written k e Hm.
  rewrite fold_row_step in Hm. cbn [fst] in Hm.
  apply fold_put_sound in Hm as [Hm|Hin]; [by rewrite lookup_empty in Hm|].
  apply stored_elem in Hin as (row & Hin & Hf).
  apply row_fate_stored in Hf as (Hn & Hu & Hv & Hk).
  split; [by exists row|]. split.
  - rewrite Hk, slugify_csv_unfold, slug_of_text_join.
    apply join_shape, tokens_are_words.
  - by apply youtube_id_some in Hv as (? & ? & _).
Qed.

(** X20: when several rows give the same slug, the last of them decides:
    for every stored row the map holds, at the row's key, the id of the last
    stored row with that key. *)
Theorem media_map_last_row_wins (names : list string)
    (rows : list (gmap string string)) (out out' : string)
    (m : gmap string MediaEntry) (printed : list line) :
  main str_strip (Some names) rows out = Written out' m printed ->
  forall i row k vid,
    rows !! i = Some row -> row_fate_of str_strip row = Stored k vid ->
    exists j row' vid',
      i <= j /\ rows !! j = Some row'
      /\ row_fate_of str_strip row' = Stored k vid'
      /\ m !! k = Some (mkEntry vid')
      /\ forall j' row'' vid'',
           j < j' -> rows !! j' = Some row'' ->
           row_fate_of str_strip row'' <> Stored k vid''.
Proof.
  intros (_ & -> & _)%main_written i row k vid Hi Hf.
  by apply (fold_row_step_last rows (∅, []) i row k vid).
Qed.

(** X21: every row is skipped, warned about or stored, and nothing else is
    printed: the output is one warning per row whose url has no id, in file
    order, then the closing line, which reports the number of distinct keys;
    that number is at most the number of stored rows and equals it when
    their slugs are pairwise different. *)
Theorem media_map_accounting (names : list string)
    (rows : list (gmap string string)) (out out' : string)
    (m : gmap string MediaEntry) (printed : list line) :
  main str_strip (Some names) rows out = Written out' m printed ->
  out' = out
  /\ printed = warned str_strip rows ++ [WroteEntries out (size m)]
  /\ size m <= length (stored str_strip rows)
  /\ length (stored str_strip rows) + length (warned str_strip rows)
     <= length rows
  /\ (NoDup (stored str_strip rows).*1 ->
      size m = length (stored str_strip rows)).
Proof.
  intros (-> & Hm & ->)%main_written. rewrite fold_row_step in Hm.
  cbn [fst] in Hm. split; [done|]. split; [done|]. split; [|split].
  - rewrite Hm. pose proof (fold_put_size (stored str_strip rows) ∅) as Hle.
    by rewrite map_size_empty in Hle.
  - apply stored_warned_length.
  - intros Hnd. rewrite Hm, fold_put_size_distinct; [|done|done].
    by rewrite map_size_empty.
Qed.

End MediaMap.

Section MediaMapExamples.
Import PyStr MediaJson.
#[local] Open Scope list_scope.

Lemma media_map_entries_come_from_rows_witness :
  exists m printed,
    main (strip is_space) (Some ["Exercise"; "YouTube"]) sample_rows "out.json"
    = Written "out.json" m printed
    /\ forall k e,
        m !! k = Some e ->
        (exists row,
            row ∈ sample_rows
            /\ field (strip is_space) row EXERCISE_COL <> ""
            /\ field (strip is_space) row YOUTUBE_COL <> ""
            /\ youtube_id (field (strip is_space) row YOUTUBE_COL)
               = Some (youtubeShort e)
            /\ k = MakeMediaJson.slugify (field (strip is_space) row EXERCISE_COL))
        /\ str_forallb Slug.is_slug_char k = true
        /\ 6 <= String.length (youtubeShort e)
        /\ str_forallb is_id_char (youtubeShort e) = true.
Proof.
  eexists _, _. split; [reflexivity|].
  eapply (media_map_entries_come_from_rows (strip is_space)
            ["Exercise"; "YouTube"] sample_rows "out.json").
  reflexivity.
Defined.

Lemma media_map_last_row_wins_witness :
  exists m printed,
    main (strip is_space) (Some ["Exercise"; "YouTube"]) sample_rows "out.json"
    = Written "out.json" m printed
    /\ exists j row' vid',
        0 <= j /\ sample_rows !! j = Some row'
        /\ row_fate_of (strip is_space) row' = Stored "push-up" vid'
        /\ m !! "push-up" = Some (mkEntry vid')
        /\ forall j' row'' vid'',
             j < j' -> sample_rows !! j' = Some row'' ->
             row_fate_of (strip is_space) row'' <> Stored "push-up" vid''.
Proof.
  eexists _, _.
  assert (main (strip is_space) (Some ["Exercise"; "YouTube"]) sample_rows
            "out.json"
          = Written "out.json"
              (foldl (row_step (strip is_space)) (∅, []) sample_rows).1
              ((foldl (row_step (strip is_space)) (∅, []) sample_rows).2
               ++ [WroteEntries "out.json"
                     (size (foldl (row_step (strip is_space)) (∅, [])
                              sample_rows).1)])) as Hrun by reflexivity.
  split; [exact Hrun|].
  assert (row_fate_of (strip is_space)
            {[ "Exercise" := " Push Up ";
               "YouTube" := "https://youtu.be/abcdefg1" ]}
          = Stored "push-up" "abcdefg1") as Hfate by reflexivity.
  apply (media_map_last_row_wins (strip is_space) _ _ _ _ _ _ Hrun
           0 _ "push-up" "abcdefg1" eq_refl Hfate).
Defined.

Lemma media_map_accounting_witness :
  exists m printed,
    main (strip is_space) (Some ["Exercise"; "YouTube"]) sample_rows "out.json"
    = Written "out.json" m printed
    /\ printed
       = warned (strip is_space) sample_rows
         ++ [WroteEntries "out.json" (size m)].
Proof.
  eexists _, _.
  assert (main (strip is_space) (Some ["Exercise"; "YouTube"]) sample_rows
            "out.json"
          = Written "out.json"
              (foldl (row_step (strip is_space)) (∅, []) sample_rows).1
              ((foldl (row_step (strip is_space)) (∅, []) sample_rows).2
               ++ [WroteEntries "out.json"
                     (size (foldl (row_step (strip is_space)) (∅, [])
                              sample_rows).1)])) as Hrun by reflexivity.
  split; [exact Hrun|].
  apply (media_map_accounting (strip is_space) _ _ _ _ _ _ Hrun).
Defined.

End MediaMapExamples.

(** ** The worksheet *)

Section Dicts.
Import PyStr Workbook.
#[local] Open Scope list_scope.
#[local] Set Warnings "-clear-no-such-hyp".
Context {V : Type}.
Implicit Types (d : list (string * V)) (k : string) (v : V).

Lemma dict_set_keys k v d :
  (dict_set k v d).*1 = if bool_decide (k ∈ d.*1) then d.*1 else d.*1 ++ [k].
Proof.
  induction d as [|[k' v'] d IH]; [done|]. cbn [dict_set]. csimpl.
  destruct (String.eqb_spec k' k) as [->|Hne].
  - rewrite bool_decide_eq_true_2 by by left. done.
  - csimpl. rewrite IH. destruct (bool_decide (k ∈ d.*1)) eqn:E.
    + apply bool_decide_eq_true in E.
      rewrite bool_decide_eq_true_2 by by right. done.
    + apply bool_decide_eq_false in E.
      rewrite bool_decide_eq_false_2; [done|].
      intros [?|?]%elem_of_cons; congruence.
Qed.

Lemma dict_get_set k k' v d :
  dict_get k (dict_set k' v d)
  = if String.eqb k' k then Some v else dict_get k d.
Proof.
  induction d as [|[k0 v0] d IH]; cbn [dict_set dict_get]; [done|].
  destruct (String.eqb_spec k0 k') as [->|Hne]; cbn [dict_get].
  - by destruct (String.eqb k' k).
  - rewrite IH. destruct (String.eqb_spec k0 k) as [->|]; [|done].
    destruct (String.eqb_spec k' k) as [->|]; done.
Qed.

Lemma dict_set_NoDup k v d : NoDup d.*1 -> NoDup (dict_set k v d).*1.
Proof.
  intros Hnd. rewrite dict_set_keys.
  destruct (bool_decide (k ∈ d.*1)) eqn:E; [done|].
  apply bool_decide_eq_false in E. apply NoDup_app. split; [done|].
  split; [|apply NoDup_singleton].
  intros x Hx ->%list_elem_of_singleton. done.
Qed.

Lemma dict_get_elem k v d :
  (k, v) ∈ d -> NoDup d.*1 -> dict_get k d = Some v.
Proof.
  induction d as [|[k' v'] d IH]; [by intros ?%elem_of_nil|].
  csimpl. intros [[= <- <-]|Hin]%elem_of_cons [Hk Hnd]%NoDup_cons; cbn [dict_get].
  - by rewrite String.eqb_refl.
  - destruct (String.eqb_spec k' k) as [->|]; [|by apply IH].
    exfalso. apply Hk. apply list_elem_of_fmap. by exists (k, v).
Qed.

Lemma dict_get_some k v d : dict_get k d = Some v -> (k, v) ∈ d.
Proof.
  induction d as [|[k' v'] d IH]; [done|]. cbn [dict_get].
  destruct (String.eqb_spec k' k) as [->|].
  - intros [= ->]. by left.
  - intros ?%IH. by right.
Qed.

Lemma first_seen_filter_in (keys : list string) (l : list string) k :
  k ∈ keys ->
  List.filter (fun x => negb (bool_decide (x ∈ keys)))
    (List.filter (fun x => negb (String.eqb x k)) l)
  = List.filter (fun x => negb (bool_decide (x ∈ keys))) l.
Proof.
  intros Hk. induction l as [|x l IH]; [done|]. cbn [List.filter].
  destruct (String.eqb_spec x k) as [->|Hne]; cbn [negb List.filter].
  - by rewrite bool_decide_eq_true_2.
  - by rewrite IH.
Qed.

Lemma first_seen_filter_snoc (keys : list string) (l : list string) k :
  List.filter (fun x => negb (bool_decide (x ∈ keys ++ [k]))) l
  = List.filter (fun x => negb (bool_decide (x ∈ keys)))
      (List.filter (fun x => negb (String.eqb x k)) l).
Proof.
  induction l as [|x l IH]; [done|]. cbn [List.filter].
  destruct (String.eqb_spec x k) as [->|Hne]; cbn [negb List.filter].
  - rewrite bool_decide_eq_true_2; [done|]. apply elem_of_app. right. by left.
  - rewrite <- IH.
    assert (bool_decide (x ∈ keys ++ [k]) = bool_decide (x ∈ keys)) as ->; [|done].
    apply bool_decide_ext. rewrite elem_of_app, list_elem_of_singleton.
    naive_solver.
Qed.

Lemma fold_dict_set_keys (l : list (string * V)) d :
  (foldl (fun d kv => dict_set kv.1 kv.2 d) d l).*1
  = d.*1 ++ List.filter (fun x => negb (bool_decide (x ∈ d.*1)))
                        (first_seen l.*1).
Proof.
  revert d. induction l as [|[k v] l IH]; intros d; cbn [foldl].
  { by rewrite app_nil_r. }
  rewrite IH, dict_set_keys. csimpl. cbn [List.filter]. cbn [fst snd].
  destruct (bool_decide (k ∈ d.*1)) eqn:E; cbn [negb].
  - apply bool_decide_eq_true in E. by rewrite first_seen_filter_in.
  - by rewrite <- app_assoc, first_seen_filter_snoc.
Qed.

Lemma fold_dict_set_NoDup (l : list (string * V)) d :
  NoDup d.*1 -> NoDup (foldl (fun d kv => dict_set kv.1 kv.2 d) d l).*1.
Proof.
  revert d. induction l as [|[k v] l IH]; intros d Hd; [done|].
  cbn [foldl]. apply IH. by apply dict_set_NoDup.
Qed.

Lemma dict_set_elem k v k' v' d :
  (k, v) ∈ dict_set k' v' d -> (k, v) ∈ d \/ (k, v) = (k', v').
Proof.
  induction d as [|[k0 v0] d IH]; cbn [dict_set].
  - intros ->%list_elem_of_singleton. by right.
  - destruct (String.eqb_spec k0 k') as [->|Hne].
    + intros [->|?]%elem_of_cons; [by right|left; by right].
    + intros [->|[?|?]%IH]%elem_of_cons; [left; by left|left; by right|by right].
Qed.

Lemma fold_dict_set_elem (l : list (string * V)) d k v :
  (k, v) ∈ foldl (fun d kv => dict_set kv.1 kv.2 d) d l ->
  (k, v) ∈ d \/ (k, v) ∈ l.
Proof.
  revert d. induction l as [|[k' v'] l IH]; intros d; cbn [foldl]; [by left|].
  intros [[?| ->]%dict_set_elem|?]%IH; [by left|right; by left|right; by right].
Qed.

Lemma fold_dict_set_get (l : list (string * V)) d k :
  dict_get k (foldl (fun d kv => dict_set kv.1 kv.2 d) d l)
  = match last (List.filter (fun kv => String.eqb kv.1 k) l) with
    | Some kv => Some kv.2
    | None => dict_get k d
    end.
Proof.
  revert d. induction l as [|[k' v'] l IH]; intros d; cbn [foldl]; [done|].
  rewrite IH, dict_get_set. cbn [List.filter fst snd].
  destruct (String.eqb k' k); [|done].
  rewrite last_cons. by destruct (last _).
Qed.

End Dicts.

Section FindHeader.
Import PyStr Workbook.
#[local] Open Scope list_scope.
#[local] Set Warnings "-clear-no-such-hyp".
Context `{UnicodeData}.
Variable str_strip : string -> string.

Lemma headers_from_lookup cells i headers t c :
  headers_from i cells headers !! t = Some c
  <-> (exists j, last_at cells t j /\ c = S (i + j))
      \/ ((t ∉ cells) /\ headers !! t = Some c).
Proof.
  revert i headers. induction cells as [|x cells IH]; intros i headers.
  { cbn [headers_from]. split.
    - intros Hm. right. split; [apply not_elem_of_nil|done].
    - intros [(j & [Hj _] & _)|[_ ?]]; done. }
  cbn [headers_from]. rewrite IH. split.
  - intros [(j & [Hj Hlast] & ->)|[Hnot Hm]].
    + left. exists (S j). split; [|f_equal; lia]. split; [done|].
      intros [|j'] Hlt; [lia|]. apply Hlast. lia.
    + destruct (decide (x = t)) as [->|Hne].
      * rewrite lookup_insert_eq in Hm. injection Hm as <-.
        left. exists 0. split; [|f_equal; lia]. split; [done|].
        intros [|j'] Hlt Hj'; [lia|]. apply Hnot. cbn in Hj'.
        by eapply list_elem_of_lookup_2.
      * rewrite lookup_insert_ne in Hm by done. right. split; [|done].
        intros [?|?]%elem_of_cons; congruence.
  - intros [(j & [Hj Hlast] & ->)|[Hnot Hm]].
    + destruct j as [|j].
      * cbn in Hj. injection Hj as ->. right. split.
        -- intros [j' Hj']%list_elem_of_lookup_1. apply (Hlast (S j')); [lia|done].
        -- rewrite lookup_insert_eq. f_equal. lia.
      * left. exists j. split; [|lia]. split; [done|].
        intros j' Hlt. apply (Hlast (S j')). lia.
    + right. apply not_elem_of_cons in Hnot as [Hne Hnot]. split; [done|].
      by rewrite lookup_insert_ne.
Qed.

Lemma existsb_eqb_elem t (cells : list string) :
  existsb (String.eqb t) cells = true <-> t ∈ cells.
Proof.
  rewrite existsb_exists. setoid_rewrite String.eqb_eq.
  setoid_rewrite <- list_elem_of_In. naive_solver.
Qed.

Lemma has_both_elem cells :
  has_both cells = true <-> "exercise" ∈ cells /\ "youtube" ∈ cells.
Proof. unfold has_both. by rewrite andb_true_iff, !existsb_eqb_elem. Qed.

Lemma scan_some r rows r' headers :
  scan str_strip r rows = Some (r', headers)
  <-> exists k row,
        r' = r + k /\ rows !! k = Some row
        /\ has_both (List.map (header_text str_strip) row) = true
        /\ headers = headers_from 0 (List.map (header_text str_strip) row) ∅
        /\ forall k' row', k' < k -> rows !! k' = Some row' ->
             has_both (List.map (header_text str_strip) row') = false.
Proof.
  revert r. induction rows as [|x rows IH]; intros r; cbn [scan].
  { split; [done|]. by intros (k & row & _ & ? & _). }
  destruct (has_both (List.map (header_text str_strip) x)) eqn:E.
  - split.
    + intros [= <- <-]. exists 0, x. split; [lia|]. split; [done|].
      split; [done|]. split; [done|]. intros; lia.
    + intros (k & row & -> & Hk & Hb & -> & Hfirst).
      destruct k as [|k].
      * cbn in Hk. injection Hk as ->. do 2 f_equal. lia.
      * specialize (Hfirst 0 x). cbn in Hfirst. rewrite Hfirst in E; [done|lia|done].
  - rewrite IH. split.
    + intros (k & row & -> & Hk & Hb & -> & Hfirst). exists (S k), row.
      split; [lia|]. split; [done|]. split; [done|]. split; [done|].
      intros [|k'] row' Hlt Hk'; [cbn in Hk'; by injection Hk' as <-|].
      apply (Hfirst k'); [lia|done].
    + intros (k & row & -> & Hk & Hb & -> & Hfirst). destruct k as [|k].
      * cbn in Hk. injection Hk as ->. congruence.
      * exists k, row. split; [lia|]. split; [done|]. split; [done|].
        split; [done|]. intros k' row' Hlt Hk'. apply (Hfirst (S k')); [lia|done].
Qed.

Lemma scan_none r rows :
  scan str_strip r rows = None
  <-> forall k row, rows !! k = Some row ->
        has_both (List.map (header_text str_strip) row) = false.
Proof.
  revert r. induction rows as [|x rows IH]; intros r; cbn [scan].
  { split; [by intros _ k row ?|done]. }
  destruct (has_both (List.map (header_text str_strip) x)) eqn:E.
  - split; [done|]. intros Hall. specialize (Hall 0 x eq_refl). congruence.
  - rewrite IH. split.
    + intros Hall [|k] row Hk; [cbn in Hk; by injection Hk as <-|by eapply Hall].
    + intros Hall k row Hk. by apply (Hall (S k)).
Qed.

Lemma lookup_take_50 (ws : list (list Cell)) k :
  take (Nat.min (length ws) 50) ws !! k
  = if decide (k < 50) then ws !! k else None.
Proof.
  destruct (decide (k < 50)) as [Hk|Hk].
  - destruct (decide (k < length ws)) as [Hl|Hl].
    + rewrite lookup_take_lt; [done|lia].
    + rewrite !lookup_ge_None_2; [done|lia|]. rewrite length_take. lia.
  - apply lookup_ge_None_2. rewrite length_take. lia.
Qed.

Lemma last_at_exists (cells : list string) t :
  t ∈ cells -> exists j, last_at cells t j.
Proof.
  induction cells as [|x cells IH]; [by intros ?%elem_of_nil|]. intros Ht.
  destruct (decide (t ∈ cells)) as [Hin|Hnot].
  - destruct (IH Hin) as [j [Hj Hlast]]. exists (S j). split; [done|].
    intros [|j'] Hlt; [lia|]. apply Hlast. lia.
  - apply elem_of_cons in Ht as [->|?]; [|done]. exists 0. split; [done|].
    intros [|j'] Hlt Hj'; [lia|]. apply Hnot. by eapply list_elem_of_lookup_2.
Qed.

Lemma find_header_has_columns ws r headers :
  find_header str_strip ws = Ok (r, headers) ->
  is_Some (headers !! "exercise") /\ is_Some (headers !! "youtube").
Proof.
  unfold find_header.
  destruct (scan str_strip 1 _) as [[r0 h0]|] eqn:E; [|done].
  intros [= -> ->]. apply scan_some in E as (k & row & _ & _ & Hb & -> & _).
  apply has_both_elem in Hb as [He Hy].
  split.
  - destruct (last_at_exists _ _ He) as [j Hj]. exists (S (0 + j)).
    apply headers_from_lookup. left. by exists j.
  - destruct (last_at_exists _ _ Hy) as [j Hj]. exists (S (0 + j)).
    apply headers_from_lookup. left. by exists j.
Qed.

(** X22: when [find_header] returns, the header row is the first row of the
    sheet, among the first 50, in which some cell reads [exercise] and some
    cell reads [youtube] once stripped and lower-cased; the column it gives
    for a text is the 1-based position of the last cell of that row with
    this text, so both columns are known. *)
Theorem find_header_first_match (ws : list (list Cell)) (r : nat)
    (headers : gmap string nat) :
  find_header str_strip ws = Ok (r, headers) ->
  1 <= r <= 50
  /\ exists row,
      ws !! (r - 1) = Some row
      /\ "exercise" ∈ List.map (header_text str_strip) row
      /\ "youtube" ∈ List.map (header_text str_strip) row
      /\ (forall r' row',
            r' < r - 1 -> ws !! r' = Some row' ->
            ~ ("exercise" ∈ List.map (header_text str_strip) row'
               /\ "youtube" ∈ List.map (header_text str_strip) row'))
      /\ (forall t c,
            headers !! t = Some c
            <-> 1 <= c
                /\ last_at (List.map (header_text str_strip) row) t (c - 1))
      /\ is_Some (headers !! "exercise")
      /\ is_Some (headers !! "youtube").
Proof.
  unfold find_header.
  destruct (scan str_strip 1 _) as [[r0 h0]|] eqn:E; [|done].
  intros [= -> ->]. apply scan_some in E
    as (k & row & -> & Hk & Hb & -> & Hfirst).
  rewrite lookup_take_50 in Hk. destruct (decide (k < 50)) as [Hk50|]; [|done].
  split; [lia|]. exists row. replace (1 + k - 1) with k by lia.
  split; [done|]. apply has_both_elem in Hb as [He Hy].
  split; [done|]. split; [done|].
  set (cells := List.map (header_text str_strip) row) in *.
  assert (forall t c, headers_from 0 cells ∅ !! t = Some c
            <-> 1 <= c /\ last_at cells t (c - 1)) as Hcol.
  { intros t c. rewrite headers_from_lookup. split.
    - intros [(j & Hj & ->)|[_ Hm]]; [|by rewrite lookup_empty in Hm].
      replace (1 - 1 + j) with j by lia. split; [lia|].
      by replace (S (0 + j) - 1) with j by lia.
    - intros [Hc Hlast]. left. exists (c - 1). split; [done|lia]. }
  assert (forall t, t ∈ cells -> is_Some (headers_from 0 cells ∅ !! t)) as Hhas.
  { intros t Ht. clear -Ht.
    assert (exists j, last_at cells t j) as [j Hj].
    { induction cells as [|x cells IH]; [by apply elem_of_nil in Ht|].
      destruct (decide (t ∈ cells)) as [Hin|Hnot].
      - destruct (IH Hin) as [j [Hj Hlast]]. exists (S j). split; [done|].
        intros [|j'] Hlt; [lia|]. apply Hlast. lia.
      - apply elem_of_cons in Ht as [->|?]; [|done]. exists 0. split; [done|].
        intros [|j'] Hlt Hj'; [lia|]. apply Hnot.
        by eapply list_elem_of_lookup_2. }
    exists (S (0 + j)). apply headers_from_lookup. left. by exists j. }
  split; [|split; [done|split; by apply Hhas]].
  intros r' row' Hlt Hr' [He' Hy'].
  assert (has_both (List.map (header_text str_strip) row') = false) as Hno.
  { apply (Hfirst r'); [lia|]. rewrite lookup_take_50.
    destruct (decide (r' < 50)); [done|lia]. }
  assert (has_both (List.map (header_text str_strip) row') = true)
    by by apply has_both_elem.
  congruence.
Qed.

(** X23: [find_header] gives up, with its [SystemExit] message, exactly when
    none of the first 50 rows has both header texts; rows from the 51st on
    are never looked at, so a header further down is not found. *)
Theorem find_header_looks_at_50_rows (ws : list (list Cell)) :
  (find_header str_strip ws = Raise HeaderNotFound
   <-> forall k row,
         k < 50 -> ws !! k = Some row ->
         ~ ("exercise" ∈ List.map (header_text str_strip) row
            /\ "youtube" ∈ List.map (header_text str_strip) row))
  /\ find_header str_strip ws = find_header str_strip (take 50 ws)
  /\ (forall e, find_header str_strip ws = Raise e -> e = HeaderNotFound).
Proof.
  split; [|split].
  - unfold find_header.
    destruct (scan str_strip 1 _) as [[r0 h0]|] eqn:E.
    + split; [done|]. intros Hall. exfalso.
      apply scan_some in E as (k & row & _ & Hk & Hb & _).
      rewrite lookup_take_50 in Hk. destruct (decide (k < 50)); [|done].
      apply (Hall k row); [done|done|by apply has_both_elem].
    + split; [|done]. intros _ k row Hk50 Hk Hb.
      apply has_both_elem in Hb.
      rewrite scan_none in E. rewrite (E k row) in Hb; [done|].
      rewrite lookup_take_50. by destruct (decide (k < 50)).
  - unfold find_header. do 2 f_equal. rewrite length_take.
    destruct (decide (length ws <= 50)).
    + rewrite (take_ge ws 50) by lia. rewrite !take_ge by lia. done.
    + replace (Nat.min (length ws) 50) with 50 by lia.
      replace (Nat.min (Nat.min 50 (length ws)) 50) with 50 by lia.
      by rewrite take_take, Nat.min_id.
  - unfold find_header. destruct (scan str_strip 1 _); [done|]. congruence.
Qed.

End FindHeader.

Section ExtractRows.
Import PyStr Workbook.
#[local] Open Scope list_scope.
#[local] Set Warnings "-clear-no-such-hyp".
Context `{UnicodeData}.
Variable str_strip : string -> string.
Variable formula_url : string -> option string.

Let put (d : list (string * Link)) (kv : string * Link) :=
  dict_set kv.1 kv.2 d.

Lemma name_of_raise c e :
  name_of str_strip c = Raise e
  <-> e = AttributeError /\ exists s, value c = VOther true s.
Proof.
  unfold name_of. destruct (value c) as [|s|[] s]; split;
    try done; try (intros [_ [? ?]]; done).
  - intros [= <-]. eauto.
  - by intros [-> _].
Qed.

Lemma extract_row_entry nc lc out row :
  extract_row str_strip formula_url nc lc out row
  = match name_of str_strip (cell_at row nc) with
    | Raise e => Raise e
    | Ok _ =>
        Ok (match row_entry str_strip formula_url nc lc row with
            | Some kv => put out kv
            | None => out
            end)
    end.
Proof.
  unfold extract_row, row_entry.
  destruct (name_of str_strip (cell_at row nc)) as [name|e]; [|done].
  destruct (negb (truthy name)); [done|].
  by destruct (url_of formula_url (cell_at row lc)).
Qed.

Lemma extract_rows_ok nc lc out rows :
  Forall (fun row => forall s, value (cell_at row nc) <> VOther true s) rows ->
  extract_rows str_strip formula_url nc lc out rows
  = Ok (foldl put out (omap (row_entry str_strip formula_url nc lc) rows)).
Proof.
  revert out. induction rows as [|row rows IH]; intros out Hall; [done|].
  apply Forall_cons in Hall as [Hrow Hall]. cbn [extract_rows].
  rewrite extract_row_entry. csimpl.
  destruct (name_of str_strip (cell_at row nc)) as [name|e] eqn:E.
  - rewrite IH by done.
    by destruct (row_entry str_strip formula_url nc lc row).
  - apply name_of_raise in E as [_ [s Hs]]. by destruct (Hrow s).
Qed.

Lemma extract_rows_raise nc lc out rows :
  Exists (fun row => exists s, value (cell_at row nc) = VOther true s) rows ->
  extract_rows str_strip formula_url nc lc out rows = Raise AttributeError.
Proof.
  revert out. induction rows as [|row rows IH]; intros out Hex;
    [by apply Exists_nil in Hex|].
  cbn [extract_rows]. rewrite extract_row_entry.
  destruct (name_of str_strip (cell_at row nc)) as [name|e] eqn:E.
  - apply Exists_cons in Hex as [[s Hs]|Hex]; [|by apply IH].
    assert (name_of str_strip (cell_at row nc) = Raise AttributeError) as Hr
      by (apply name_of_raise; eauto).
    congruence.
  - by apply name_of_raise in E as [-> _].
Qed.

Lemma extract_rows_cases nc lc out rows :
  (Forall (fun row => forall s, value (cell_at row nc) <> VOther true s) rows
   /\ extract_rows str_strip formula_url nc lc out rows
      = Ok (foldl put out (omap (row_entry str_strip formula_url nc lc) rows)))
  \/ (Exists (fun row => exists s, value (cell_at row nc) = VOther true s) rows
      /\ extract_rows str_strip formula_url nc lc out rows
         = Raise AttributeError).
Proof.
  assert (Forall (fun row => forall s, value (cell_at row nc) <> VOther true s)
            rows
          \/ Exists (fun row => exists s, value (cell_at row nc) = VOther true s)
               rows) as [Hall|Hex].
  { induction rows as [|row rows [IH|IH]]; [by left| |right; by right].
    destruct (value (cell_at row nc)) as [|s|[] s] eqn:E;
      try (left; constructor; [by rewrite E|done]).
    right. left. eauto. }
  - left. split; [done|by apply extract_rows_ok].
  - right. split; [done|by apply extract_rows_raise].
Qed.

Lemma extract_unfold ws :
  (find_header str_strip ws = Raise HeaderNotFound
   /\ extract str_strip formula_url ws = Raise HeaderNotFound)
  \/ exists r h nc lc,
      find_header str_strip ws = Ok (r, h)
      /\ h !! "exercise" = Some nc /\ h !! "youtube" = Some lc
      /\ extract str_strip formula_url ws
         = extract_rows str_strip formula_url nc lc [] (drop r ws).
Proof.
  unfold extract. destruct (find_header str_strip ws) as [[r h]|e] eqn:E.
  - right.
    destruct (find_header_has_columns str_strip ws r h E) as [[nc Hn] [lc Hl]].
    exists r, h, nc, lc. by rewrite Hn, Hl.
  - left. unfold find_header in E. destruct (scan str_strip 1 _); [done|].
    by injection E as <-.
Qed.

Lemma name_of_ok c n :
  name_of str_strip c = Ok n
  <-> (exists s, value c = VStr s /\ n = str_strip s)
      \/ ((value c = VNone \/ exists s, value c = VOther false s)
          /\ n = str_strip "").
Proof.
  unfold name_of. destruct (value c) as [|s|[] s].
  - split; [intros [= <-]; right; eauto|].
    by intros [(? & ? & _)|[_ ->]].
  - assert ((if truthy s then s else "") = s) as -> by by destruct s.
    split; [intros [= <-]; left; eauto|].
    intros [(? & [= <-] & ->)|[[?|[? ?]] _]]; done.
  - split; [done|]. intros [(? & ? & _)|[[?|[? ?]] _]]; done.
  - split; [intros [= <-]; right; eauto|].
    by intros [(? & ? & _)|[_ ->]].
Qed.

Lemma url_of_some c u :
  url_of formula_url c = Some u
  <-> u <> ""
      /\ (hyperlink c = Some (Some u)
          \/ ((forall t, hyperlink c = Some (Some t) -> t = "")
              /\ exists s, value c = VStr s /\ startswith "=" s = true
                           /\ formula_url s = Some u)).
Proof.
  assert (forall o : option string,
            match o with
            | Some u0 => if truthy u0 then Some u0 else None
            | None => None
            end = Some u <-> u <> "" /\ o = Some u) as Hfin.
  { intros [u0|]; [|naive_solver]. destruct (truthy u0) eqn:E.
    - apply truthy_nonempty in E. naive_solver.
    - split; [done|]. intros [Hu [= ->]]. apply truthy_nonempty in Hu.
      congruence. }
  assert (match value c with
          | VStr s => if startswith "=" s then formula_url s else None
          | _ => None
          end = Some u
          <-> exists s, value c = VStr s /\ startswith "=" s = true
                        /\ formula_url s = Some u) as Hformula.
  { destruct (value c) as [|s|b s]; [naive_solver| |naive_solver].
    destruct (startswith "=" s) eqn:E; [naive_solver|].
    split; [done|]. intros (s' & [= <-] & ? & _). congruence. }
  unfold url_of. cbv zeta. rewrite Hfin.
  destruct (hyperlink c) as [[t|]|]; [| |].
  - destruct (truthy t) eqn:E.
    + apply truthy_nonempty in E. split; [naive_solver|].
      intros [Hu [[= ->]|[Hno _]]]; [done|]. by destruct E; apply Hno.
    + assert (t = "") as -> by by destruct t.
      rewrite Hformula. split; [naive_solver|].
      intros [Hu [[= <-]|[_ ?]]]; done.
  - rewrite Hformula. naive_solver.
  - rewrite Hformula. naive_solver.
Qed.

Lemma row_entry_some nc lc row k link :
  row_entry str_strip formula_url nc lc row = Some (k, link)
  <-> name_of str_strip (cell_at row nc) = Ok (exercise link)
      /\ exercise link <> ""
      /\ url_of formula_url (cell_at row lc) = Some (youtube link)
      /\ k = XlsxLinksToJson.slugify (exercise link).
Proof.
  unfold row_entry.
  destruct (name_of str_strip (cell_at row nc)) as [name|e]; [|naive_solver].
  destruct (truthy name) eqn:E; cbn [negb].
  - apply truthy_nonempty in E.
    destruct (url_of formula_url (cell_at row lc)) as [url|].
    + destruct link as [n u]. cbn [exercise youtube]. naive_solver.
    + naive_solver.
  - split; [done|]. intros ([= ->] & Hne & _).
    apply truthy_nonempty in Hne. congruence.
Qed.

Lemma extract_ok ws out :
  extract str_strip formula_url ws = Ok out ->
  exists r h nc lc,
    find_header str_strip ws = Ok (r, h)
    /\ h !! "exercise" = Some nc /\ h !! "youtube" = Some lc
    /\ out = foldl put []
               (omap (row_entry str_strip formula_url nc lc) (drop r ws)).
Proof.
  intros Hout.
  destruct (extract_unfold ws) as [[_ Hx]|(r & h & nc & lc & Hf & Hn & Hl & Hx)];
    [congruence|].
  exists r, h, nc, lc. repeat (split; [done|]).
  rewrite Hx in Hout.
  destruct (extract_rows_cases nc lc [] (drop r ws)) as [[_ Hok]|[_ Hr]];
    congruence.
Qed.

(** X24: [extract] ends in one of three ways only.  It never fails on
    [headers["exercise"]] or [headers["youtube"]]; it stops with the
    message of [find_header] exactly when no header row is found; and it
    raises [AttributeError] exactly when some row below the header has, in
    the exercise column, a true value that is no string. *)
Theorem extract_errors (ws : list (list Cell)) :
  (forall key, extract str_strip formula_url ws <> Raise (KeyError key))
  /\ (extract str_strip formula_url ws = Raise HeaderNotFound
      <-> find_header str_strip ws = Raise HeaderNotFound)
  /\ (extract str_strip formula_url ws = Raise AttributeError
      <-> exists r h nc,
            find_header str_strip ws = Ok (r, h)
            /\ h !! "exercise" = Some nc
            /\ Exists (fun row => exists s,
                         value (cell_at row nc) = VOther true s)
                      (drop r ws)).
Proof.
  destruct (extract_unfold ws)
    as [[Hf Hx]|(r & h & nc & lc & Hf & Hn & Hl & Hx)].
  - rewrite Hx, Hf. split; [done|]. split; [done|]. split; [done|].
    intros (? & ? & ? & ? & _). congruence.
  - rewrite Hx, Hf.
    destruct (extract_rows_cases nc lc [] (drop r ws))
      as [[Hall Hok]|[Hex Hr]].
    + rewrite Hok. split; [done|]. split; [done|]. split; [done|].
      intros (r' & h' & nc' & [= <- <-] & Hn' & Hex).
      assert (nc' = nc) as -> by congruence.
      apply Exists_exists in Hex as (row & Hin & s & Hs).
      rewrite Forall_forall in Hall. by destruct (Hall row Hin s).
    + rewrite Hr. split; [done|]. split; [done|]. split; [|done].
      intros _. by exists r, h, nc.
Qed.

(** X25: every entry [extract] returns comes from a row below the header:
    its name is the stripped text of the exercise cell and is not empty,
    its url is not empty and is the target of the link cell's hyperlink
    or, when there is no such target, what the formula of the cell
    gives, and its key is the slug of the name. *)
Theorem extract_entries_come_from_rows (ws : list (list Cell))
    (out : list (string * Link)) (k : string) (link : Link) :
  extract str_strip formula_url ws = Ok out ->
  (k, link) ∈ out ->
  k = XlsxLinksToJson.slugify (exercise link)
  /\ exercise link <> "" /\ youtube link <> ""
  /\ exists r h nc lc row,
      find_header str_strip ws = Ok (r, h)
      /\ h !! "exercise" = Some nc /\ h !! "youtube" = Some lc
      /\ row ∈ drop r ws
      /\ ((exists s, value (cell_at row nc) = VStr s
                     /\ exercise link = str_strip s)
          \/ ((value (cell_at row nc) = VNone
               \/ exists s, value (cell_at row nc) = VOther false s)
              /\ exercise link = str_strip ""))
      /\ (hyperlink (cell_at row lc) = Some (Some (youtube link))
          \/ ((forall t, hyperlink (cell_at row lc) = Some (Some t) -> t = "")
              /\ exists s, value (cell_at row lc) = VStr s
                           /\ startswith "=" s = true
                           /\ formula_url s = Some (youtube link))).
Proof.
  intros (r & h & nc & lc & Hf & Hn & Hl & ->)%extract_ok Hin.
  apply fold_dict_set_elem in Hin as [Hin|Hin]; [by apply elem_of_nil in Hin|].
  apply list_elem_of_omap in Hin as (row & Hrow & Hentry).
  apply row_entry_some in Hentry as (Hname & Hne & Hurl & ->).
  apply name_of_ok in Hname. apply url_of_some in Hurl as [Hu Hurl].
  repeat (split; [done|]). by exists r, h, nc, lc, row.
Qed.

(** X26: the keys [extract] returns are distinct and stand in the order in
    which the rows below the header first produce them; the value of a key
    is the one of the last row producing it. *)
Theorem extract_last_row_wins (ws : list (list Cell))
    (out : list (string * Link)) :
  extract str_strip formula_url ws = Ok out ->
  NoDup out.*1
  /\ exists r h nc lc,
      find_header str_strip ws = Ok (r, h)
      /\ h !! "exercise" = Some nc /\ h !! "youtube" = Some lc
      /\ out.*1
         = first_seen
             (omap (row_entry str_strip formula_url nc lc) (drop r ws)).*1
      /\ forall k,
           dict_get k out
           = snd <$> last (List.filter (fun kv => String.eqb kv.1 k)
                             (omap (row_entry str_strip formula_url nc lc)
                                (drop r ws))).
Proof.
  intros (r & h & nc & lc & Hf & Hn & Hl & ->)%extract_ok.
  split; [apply fold_dict_set_NoDup; constructor|].
  exists r, h, nc, lc. repeat (split; [done|]). split.
  - unfold put. rewrite fold_dict_set_keys. cbn [fmap list_fmap app].
    induction (first_seen _) as [|x l IH]; [done|].
    cbn [List.filter]. rewrite bool_decide_eq_false_2 by apply not_elem_of_nil.
    cbn [negb]. by rewrite IH.
  - intros k. unfold put. rewrite fold_dict_set_get.
    by destruct (last _).
Qed.

End ExtractRows.

(** *** The theorems on a sheet with the header in its second row *)

Section WorkbookExamples.
Import PyStr Workbook.
#[local] Open Scope list_scope.

Lemma find_header_first_match_witness :
  exists headers,
    find_header (strip is_space) sample_sheet = Ok (2, headers)
    /\ 1 <= 2 <= 50
    /\ exists row,
        sample_sheet !! (2 - 1) = Some row
        /\ "exercise" ∈ List.map (header_text (strip is_space)) row
        /\ "youtube" ∈ List.map (header_text (strip is_space)) row
        /\ (forall r' row',
              r' < 2 - 1 -> sample_sheet !! r' = Some row' ->
              ~ ("exercise" ∈ List.map (header_text (strip is_space)) row'
                 /\ "youtube" ∈ List.map (header_text (strip is_space)) row'))
        /\ (forall t c,
              headers !! t = Some c
              <-> 1 <= c
                  /\ last_at (List.map (header_text (strip is_space)) row) t
                       (c - 1))
        /\ is_Some (headers !! "exercise")
        /\ is_Some (headers !! "youtube").
Proof.
  eexists. split; [reflexivity|].
  apply (find_header_first_match (strip is_space) sample_sheet 2).
  reflexivity.
Defined.

Lemma extract_entries_come_from_rows_witness :
  exists out,
    extract (strip is_space) formula_url_ascii sample_sheet = Ok out
    /\ ("push-up", mkLink "push-up" "https://example.org/v") ∈ out
    /\ "push-up" = XlsxLinksToJson.slugify "push-up"
    /\ "push-up" <> "" /\ "https://example.org/v" <> ""
    /\ exists r h nc lc row,
        find_header (strip is_space) sample_sheet = Ok (r, h)
        /\ h !! "exercise" = Some nc /\ h !! "youtube" = Some lc
        /\ row ∈ drop r sample_sheet
        /\ ((exists s, value (cell_at row nc) = VStr s
                       /\ "push-up" = strip is_space s)
            \/ ((value (cell_at row nc) = VNone
                 \/ exists s, value (cell_at row nc) = VOther false s)
                /\ "push-up" = strip is_space ""))
        /\ (hyperlink (cell_at row lc) = Some (Some "https://example.org/v")
            \/ ((forall t, hyperlink (cell_at row lc) = Some (Some t) -> t = "")
                /\ exists s, value (cell_at row lc) = VStr s
                             /\ startswith "=" s = true
                             /\ formula_url_ascii s = Some "https://example.org/v")).
Proof.
  eexists.
  assert (extract (strip is_space) formula_url_ascii sample_sheet
          = Ok [("push-up", mkLink "push-up" "https://example.org/v")])
    as Hrun by reflexivity.
  split; [exact Hrun|].
  assert (("push-up", mkLink "push-up" "https://example.org/v")
          ∈ [("push-up", mkLink "push-up" "https://example.org/v")])
    as Hin by constructor.
  split; [exact Hin|].
  exact (extract_entries_come_from_rows (strip is_space) formula_url_ascii
           sample_sheet _ "push-up"
           (mkLink "push-up" "https://example.org/v") Hrun Hin).
Defined.

Lemma extract_last_row_wins_witness :
  exists out,
    extract (strip is_space) formula_url_ascii sample_sheet = Ok out
    /\ NoDup out.*1
    /\ exists r h nc lc,
        find_header (strip is_space) sample_sheet = Ok (r, h)
        /\ h !! "exercise" = Some nc /\ h !! "youtube" = Some lc
        /\ out.*1
           = first_seen
               (omap (row_entry (strip is_space) formula_url_ascii nc lc)
                  (drop r sample_sheet)).*1
        /\ forall k,
             dict_get k out
             = snd <$> last (List.filter (fun kv => String.eqb kv.1 k)
                               (omap (row_entry (strip is_space) formula_url_ascii
                                        nc lc)
                                  (drop r sample_sheet))).
Proof.
  eexists.
  assert (extract (strip is_space) formula_url_ascii sample_sheet
          = Ok [("push-up", mkLink "push-up" "https://example.org/v")])
    as Hrun by reflexivity.
  split; [exact Hrun|].
  exact (extract_last_row_wins (strip is_space) formula_url_ascii sample_sheet _ Hrun).
Defined.

End WorkbookExamples.
